(** * Versteigerungsradar: the entry normalisation and filtering pipeline

    A shallow embedding of the two backends of the repository,
    [app/app.py] (the FastAPI application) and
    [zvg-app/backend/server.py] (the standard-library HTTP server), and
    the properties of the specification proved or refuted on them.

    Python values are modelled as follows.
    - [str] is a list of Unicode code points ([N]).  Literals are written
      [u "..."]: the UTF-8 bytes of the Rocq literal, decoded.
    - [int] is [Z].
    - An exception is a value of [exn]; a computation that may raise has
      type [outcome A].
    - A [dict] is a [gmap]; a [set] that is only iterated to store one
      value under each of its elements is the list of those elements.
    - A finite [float] is the rational ([Q]) it stands for, and an
      operation on floats rounds its exact result to binary64;
      [time.time()] readings are floats, in seconds. *)

From Stdlib Require Import ZArith NArith QArith List String Ascii Bool Lia.
From stdpp Require Import base option list gmap.

#[local] Open Scope N_scope.

(** ** Python strings *)

Module Py.

Definition str : Type := list N.

(** *** UTF-8 decoding, [bytes.decode('utf-8', errors='ignore')]

    [utf8_head bs] is the code point encoded at the head of [bs] and the
    number of bytes it takes, when a well-formed sequence starts there
    (shortest form, no surrogates, at most U+10FFFF).  With
    [errors='ignore'] every byte that starts no well-formed sequence is
    dropped. *)

Definition is_cont (b : N) : bool := (0x80 <=? b) && (b <=? 0xBF).

Definition utf8_head (bs : list N) : option (N * nat) :=
  match bs with
  | [] => None
  | b0 :: r0 =>
      if b0 <? 0x80 then Some (b0, 1%nat)
      else if (0xC2 <=? b0) && (b0 <=? 0xDF) then
        match r0 with
        | b1 :: _ =>
            if is_cont b1
            then Some ((b0 - 0xC0) * 64 + (b1 - 0x80), 2%nat)
            else None
        | _ => None
        end
      else if (0xE0 <=? b0) && (b0 <=? 0xEF) then
        match r0 with
        | b1 :: b2 :: _ =>
            if is_cont b1 && is_cont b2
               && (negb (b0 =? 0xE0) || (0xA0 <=? b1))
               && (negb (b0 =? 0xED) || (b1 <=? 0x9F))
            then Some ((b0 - 0xE0) * 4096 + (b1 - 0x80) * 64 + (b2 - 0x80),
                       3%nat)
            else None
        | _ => None
        end
      else if (0xF0 <=? b0) && (b0 <=? 0xF4) then
        match r0 with
        | b1 :: b2 :: b3 :: _ =>
            if is_cont b1 && is_cont b2 && is_cont b3
               && (negb (b0 =? 0xF0) || (0x90 <=? b1))
               && (negb (b0 =? 0xF4) || (b1 <=? 0x8F))
            then Some ((b0 - 0xF0) * 262144 + (b1 - 0x80) * 4096
                       + (b2 - 0x80) * 64 + (b3 - 0x80), 4%nat)
            else None
        | _ => None
        end
      else None
  end.

(** [skip] counts the continuation bytes of the sequence just decoded. *)
Fixpoint utf8_decode_from (skip : nat) (bs : list N) : str :=
  match bs with
  | [] => []
  | _ :: rest =>
      match skip with
      | S k => utf8_decode_from k rest
      | O =>
          match utf8_head bs with
          | Some (cp, len) => cp :: utf8_decode_from (Nat.pred len) rest
          | None => utf8_decode_from 0 rest
          end
      end
  end.

Definition utf8_decode (bs : list N) : str := utf8_decode_from 0 bs.

(** [s.encode('latin-1', errors='ignore')]: code points above U+00FF are
    dropped, the others are their own byte. *)
Definition latin1_encode (s : str) : list N :=
  List.filter (fun c => c <? 256) s.

Fixpoint bytes_of_string (s : string) : list N :=
  match s with
  | EmptyString => []
  | String a r => N_of_ascii a :: bytes_of_string r
  end.

(** A Python string literal. *)
Definition u (s : string) : str := utf8_decode (bytes_of_string s).

(** *** Character classes

    [isspace] is [str.isspace] on one character, which is also what
    [str.strip()], [str.split()] and the pattern [\s] use. *)
Definition isspace (c : N) : bool :=
  ((0x09 <=? c) && (c <=? 0x0D)) || ((0x1C <=? c) && (c <=? 0x20))
  || (c =? 0x85) || (c =? 0xA0) || (c =? 0x1680)
  || ((0x2000 <=? c) && (c <=? 0x200A))
  || (c =? 0x2028) || (c =? 0x2029) || (c =? 0x202F) || (c =? 0x205F)
  || (c =? 0x3000).

(** The code points of digit zero of every decimal digit block (general
    category Nd, Unicode 14, the version of CPython 3.11): each is
    followed by the digits one to nine. *)
Definition decimal_zeros : list N :=
  [0x30; 0x660; 0x6F0; 0x7C0; 0x966; 0x9E6; 0xA66; 0xAE6; 0xB66; 0xBE6;
   0xC66; 0xCE6; 0xD66; 0xDE6; 0xE50; 0xED0; 0xF20; 0x1040; 0x1090; 0x17E0;
   0x1810; 0x1946; 0x19D0; 0x1A80; 0x1A90; 0x1B50; 0x1BB0; 0x1C40; 0x1C50;
   0xA620; 0xA8D0; 0xA900; 0xA9D0; 0xA9F0; 0xAA50; 0xABF0; 0xFF10; 0x104A0;
   0x10D30; 0x11066; 0x110F0; 0x11136; 0x111D0; 0x112F0; 0x11450; 0x114D0;
   0x11650; 0x116C0; 0x11730; 0x118E0; 0x11950; 0x11C50; 0x11D50; 0x11DA0;
   0x16A60; 0x16AC0; 0x16B50; 0x1D7CE; 0x1D7D8; 0x1D7E2; 0x1D7EC; 0x1D7F6;
   0x1E140; 0x1E2F0; 0x1E950; 0x1FBF0].

(** The value of a decimal digit, [None] for any other character. *)
Definition decimal_value (c : N) : option Z :=
  match List.find (fun z => (z <=? c) && (c <=? z + 9)) decimal_zeros with
  | Some z => Some (Z.of_N (c - z))
  | None => None
  end.

(** The pattern [\d], and [str.isdecimal] on one character. *)
Definition isdecimal (c : N) : bool :=
  match decimal_value c with Some _ => true | None => false end.

(** *** Case mapping

    [str.lower] and [str.upper], on Basic Latin and the Latin-1
    Supplement, which hold the German alphabet; code points
    above U+00FF are left as they are. *)
Definition lower_char (c : N) : N :=
  if (0x41 <=? c) && (c <=? 0x5A) then c + 32
  else if (0xC0 <=? c) && (c <=? 0xDE) && negb (c =? 0xD7) then c + 32
  else c.

Definition lower (s : str) : str := List.map lower_char s.

Definition upper_char (c : N) : str :=
  if (0x61 <=? c) && (c <=? 0x7A) then [c - 32]
  else if (0xE0 <=? c) && (c <=? 0xFE) && negb (c =? 0xF7) then [c - 32]
  else if c =? 0xDF then [0x53; 0x53]
  else if c =? 0xFF then [0x178]
  else if c =? 0xB5 then [0x39C]
  else [c].

Definition upper (s : str) : str := List.concat (List.map upper_char s).

(** *** Comparison, search and replacement *)

Fixpoint eqb (a b : str) : bool :=
  match a, b with
  | [], [] => true
  | x :: a', y :: b' => (x =? y) && eqb a' b'
  | _, _ => false
  end.

Fixpoint startswith (s p : str) : bool :=
  match p, s with
  | [], _ => true
  | x :: p', y :: s' => (x =? y) && startswith s' p'
  | _ :: _, [] => false
  end.

Definition endswith (s p : str) : bool :=
  startswith (List.rev s) (List.rev p).

(** [sub in s] *)
Fixpoint contains (sub s : str) : bool :=
  startswith s sub
  || match s with
     | [] => false
     | _ :: s' => contains sub s'
     end.

(** [s.replace(old, new)] for a non-empty [old]: the occurrences are
    replaced from left to right and do not overlap.  [skip] counts the
    characters of an occurrence that remain to be dropped. *)
Fixpoint replace_from (old new : str) (skip : nat) (s : str) : str :=
  match s with
  | [] => []
  | c :: s' =>
      match skip with
      | S k => replace_from old new k s'
      | O =>
          if startswith s old
          then new ++ replace_from old new (Nat.pred (length old)) s'
          else c :: replace_from old new 0 s'
      end
  end.

Definition replace (old new s : str) : str := replace_from old new 0 s.

(** *** Stripping, splitting and joining *)

Fixpoint lstrip (s : str) : str :=
  match s with
  | c :: s' => if isspace c then lstrip s' else s
  | [] => []
  end.

Definition rstrip (s : str) : str := List.rev (lstrip (List.rev s)).

Definition strip (s : str) : str := lstrip (rstrip s).

(** [s.split(sep)] for a separator of one character: never empty. *)
Fixpoint split_on (sep : N) (s : str) : list str :=
  match s with
  | [] => [[]]
  | c :: s' =>
      if c =? sep then [] :: split_on sep s'
      else match split_on sep s' with
           | p :: ps => (c :: p) :: ps
           | [] => [[c]]
           end
  end.

(** [s.split()]: the maximal runs of characters that are not white
    space.  [tok] is the run being read, last character first. *)
Definition flush (tok : str) : list str :=
  match tok with
  | [] => []
  | _ => [List.rev tok]
  end.

Fixpoint split_from (tok : str) (s : str) : list str :=
  match s with
  | [] => flush tok
  | c :: s' =>
      if isspace c then flush tok ++ split_from [] s'
      else split_from (c :: tok) s'
  end.

Definition split (s : str) : list str := split_from [] s.

(** [sep.join(parts)] *)
Fixpoint join (sep : str) (parts : list str) : str :=
  match parts with
  | [] => []
  | [p] => p
  | p :: ps => p ++ sep ++ join sep ps
  end.

(** [s[:-n]] for [n > 0] *)
Definition drop_last (n : nat) (s : str) : str :=
  List.firstn (length s - n) s.

(** Truthiness: [x or ''] for an optional string, and [bool(s)]. *)
Definition or_empty (o : option str) : str :=
  match o with
  | Some s => s
  | None => []
  end.

Definition nonempty (s : str) : bool :=
  match s with
  | [] => false
  | _ => true
  end.

End Py.

Import Py.

(** ** Exceptions *)

Inductive exn : Type :=
  | ValueError
  | TypeError
  | OverflowError
  | IndexError
  | HTTPException (status_code : Z) (detail : str)
  | UpstreamError (message : str).

(** The result of a computation that may raise. *)
Inductive outcome (A : Type) : Type :=
  | Return (a : A)
  | Raise (e : exn).

Arguments Return {A} a.
Arguments Raise {A} e.

#[export] Instance outcome_ret : MRet outcome := @Return.

#[export] Instance outcome_bind : MBind outcome :=
  fun A B f m =>
    match m with
    | Return a => f a
    | Raise e => Raise e
    end.

(** [try: body  except Exception: handler] *)
Definition try_except {A} (body : outcome A) (handler : exn → outcome A)
  : outcome A :=
  match body with
  | Return a => Return a
  | Raise e => handler e
  end.

(** [a, b = xs] and [a, b, c = xs] *)
Definition unpack2 {A} (xs : list A) : outcome (A * A) :=
  match xs with
  | [a; b] => Return (a, b)
  | _ => Raise ValueError
  end.

Definition unpack3 {A} (xs : list A) : outcome (A * A * A) :=
  match xs with
  | [a; b; c] => Return (a, b, c)
  | _ => Raise ValueError
  end.

(** ** [int(s)] on a string

    White space around the number is skipped; the number is an optional
    sign and decimal digits, single underscores allowed between digits.
    The digits may come from any decimal block.  The four separator
    controls U+001C to U+001F are white space for [str.isspace] and not
    for [int].  CPython refuses more than [max_str_digits] digits. *)

Definition int_space (c : N) : bool :=
  isspace c && negb ((0x1C <=? c) && (c <=? 0x1F)).

Definition max_str_digits : nat := 4300.

Fixpoint skip_int_space (s : str) : str :=
  match s with
  | c :: s' => if int_space c then skip_int_space s' else s
  | [] => []
  end.

(** Reads [digit (_? digit)*]: the value, the number of digits and the
    rest of the string; [None] when an underscore is not between two
    digits. *)
Fixpoint read_digits (acc : Z) (count : nat) (s : str)
  : option (Z * nat * str) :=
  match s with
  | [] => Some (acc, count, [])
  | c :: s' =>
      match decimal_value c with
      | Some d => read_digits (10 * acc + d)%Z (S count) s'
      | None =>
          if c =? 0x5F then
            match count, s' with
            | S _, c' :: _ =>
                if isdecimal c' then read_digits acc count s' else None
            | _, _ => None
            end
          else Some (acc, count, s)
      end
  end.

Definition int_of_str (s : str) : option Z :=
  let s1 := skip_int_space s in
  let '(negative, s2) :=
    match s1 with
    | c :: r => if c =? 0x2D then (true, r)
                else if c =? 0x2B then (false, r) else (false, s1)
    | [] => (false, s1)
    end in
  match read_digits 0 0 s2 with
  | Some (v, S n, rest) =>
      if nonempty (skip_int_space rest) then None
      else if (max_str_digits <? S n)%nat then None
      else Some (if negative then (- v)%Z else v)
  | _ => None
  end.

Definition int (s : str) : outcome Z :=
  match int_of_str s with
  | Some z => Return z
  | None => Raise ValueError
  end.

(** ** [datetime] *)

Record date : Type := Date { year : Z; month : Z; day : Z }.

Record datetime : Type :=
  Datetime { dt_date : date; hour : Z; minute : Z }.

#[local] Open Scope Z_scope.

Definition is_leap (y : Z) : bool :=
  (y mod 4 =? 0) && (negb (y mod 100 =? 0) || (y mod 400 =? 0)).

Definition days_in_month (y m : Z) : Z :=
  if m =? 2 then (if is_leap y then 29 else 28)
  else if (m =? 4) || (m =? 6) || (m =? 9) || (m =? 11) then 30
  else 31.

Definition fits_c_int (z : Z) : bool :=
  (- 2147483648 <=? z) && (z <=? 2147483647).

(** [datetime.datetime(year, month, day, hour, minute)]: the arguments
    are converted to C integers first, then checked against their
    ranges. *)
Definition datetime_new (y : Z) (m : option Z) (d h mi : Z)
  : outcome datetime :=
  if negb (fits_c_int y) then Raise OverflowError else
  match m with
  | None => Raise TypeError
  | Some m =>
      if negb (fits_c_int m && fits_c_int d && fits_c_int h && fits_c_int mi)
      then Raise OverflowError
      else if (1 <=? y) && (y <=? 9999) && (1 <=? m) && (m <=? 12)
              && (1 <=? d) && (d <=? days_in_month y m)
              && (0 <=? h) && (h <=? 23) && (0 <=? mi) && (mi <=? 59)
      then Return (Datetime (Date y m d) h mi)
      else Raise ValueError
  end.

(** [d1 < d2] on dates *)
Definition date_ltb (a b : date) : bool :=
  (year a <? year b)
  || ((year a =? year b)
      && ((month a <? month b)
          || ((month a =? month b) && (day a <? day b)))).

(** Proleptic Gregorian ordinals, as in [datetime.py]. *)
Definition days_before_year (y : Z) : Z :=
  let p := y - 1 in p * 365 + p / 4 - p / 100 + p / 400.

Definition days_before_month_table : list Z :=
  [0; 0; 31; 59; 90; 120; 151; 181; 212; 243; 273; 304; 334].

Definition days_before_month (y m : Z) : Z :=
  List.nth (Z.to_nat m) days_before_month_table 0
  + (if (2 <? m) && is_leap y then 1 else 0).

Definition ymd2ord (d : date) : Z :=
  days_before_year (year d) + days_before_month (year d) (month d) + day d.

Definition ord2ymd (n : Z) : date :=
  let n := n - 1 in
  let n400 := n / 146097 in
  let n := n mod 146097 in
  let n100 := n / 36524 in
  let n := n mod 36524 in
  let n4 := n / 1461 in
  let n := n mod 1461 in
  let n1 := n / 365 in
  let n := n mod 365 in
  let y := n400 * 400 + 1 + n100 * 100 + n4 * 4 + n1 in
  if (n1 =? 4) || (n100 =? 4) then Date (y - 1) 12 31
  else
    let leapyear := (n1 =? 3) && (negb (n4 =? 24) || (n100 =? 3)) in
    let m := Z.shiftr (n + 50) 5 in
    let preceding :=
      List.nth (Z.to_nat m) days_before_month_table 0
      + (if (2 <? m) && leapyear then 1 else 0) in
    if n <? preceding
    then
      let m' := m - 1 in
      let preceding' :=
        preceding
        - (days_in_month 1 m' + (if (m' =? 2) && leapyear then 1 else 0)) in
      Date y m' (n - preceding' + 1)
    else Date y m (n - preceding + 1).

Definition max_ordinal : Z := 3652059.

(** [(now + datetime.timedelta(days=n)).date()] *)
Definition plus_days (now : datetime) (n : Z) : outcome date :=
  if 999999999 <? Z.abs n then Raise OverflowError
  else
    let o := ymd2ord (dt_date now) + n in
    if (0 <? o) && (o <=? max_ordinal) then Return (ord2ymd o)
    else Raise OverflowError.

(** Decimal digits of a number, at least [width] of them. *)
Fixpoint digits_of (width : nat) (z : Z) : str :=
  match width with
  | O => []
  | S w => digits_of w (z / 10) ++ [(0x30 + Z.to_N (z mod 10))%N]
  end.

Definition hyphen : N := 0x2D.
Definition colon : N := 0x3A.
Definition comma : N := 0x2C.

(** [dt.strftime('%Y-%m-%d')] and [dt.strftime('%H:%M')], the year in
    four digits. *)
Definition strftime_date (dt : datetime) : str :=
  digits_of 4 (year (dt_date dt)) ++ [hyphen]
  ++ digits_of 2 (month (dt_date dt)) ++ [hyphen]
  ++ digits_of 2 (day (dt_date dt)).

Definition strftime_time (dt : datetime) : str :=
  digits_of 2 (hour dt) ++ [colon] ++ digits_of 2 (minute dt).

#[local] Close Scope Z_scope.
#[local] Open Scope nat_scope.

(** [d.get(k)] on a dictionary literal, kept as the list of its items. *)
Fixpoint dict_get {V : Type} (k : str) (d : list (str * V)) : option V :=
  match d with
  | [] => None
  | (k', v) :: d' => if eqb k k' then Some v else dict_get k d'
  end.

(** ** [float]

    A Python [float] is a binary64 number.  A finite one is modelled by
    the rational it stands for; the result of an operation is the exact
    result rounded to the nearest binary64 number, to the one with the
    even significand where two are as near, and to an infinity where the
    rounded result is beyond the largest one. *)

#[local] Open Scope Z_scope.

Inductive float_value : Type :=
  | Number (q : Q)
  | Inf (negative : bool).

(** [n / d] rounded to the nearest integer, to the even one of two, for
    [0 <= n] and [0 < d]. *)
Definition round_half_even (n d : Z) : Z :=
  let q := n / d in
  match 2 * (n mod d) ?= d with
  | Lt => q
  | Gt => q + 1
  | Eq => if Z.even q then q else q + 1
  end.

(** [2 ^ k <= n / d], for [0 < n] and [0 < d]. *)
Definition at_least_pow2 (n d k : Z) : bool :=
  if 0 <=? k then d * 2 ^ k <=? n else d <=? n * 2 ^ (- k).

(** The exponent of the unit in the last place of the binary64 numbers
    around [n / d], for [0 < n] and [0 < d]: 52 binary places below the
    leading one, and -1074 for the subnormal numbers. *)
Definition ulp_exponent (n d : Z) : Z :=
  let k := Z.log2 n - Z.log2 d in
  let k := if at_least_pow2 n d k then k else k - 1 in
  Z.max (k - 52) (- 1074).

(** The binary64 number nearest to [n / d], for [0 < n] and [0 < d]: its
    significand [m] and the exponent [e] of its last place; the number
    is [m * 2 ^ e]. *)
Definition round64_pos (n d : Z) : Z * Z :=
  let e := ulp_exponent n d in
  let m := if 0 <=? e then round_half_even n (d * 2 ^ e)
           else round_half_even (n * 2 ^ (- e)) d in
  (m, e).

(** [m * 2 ^ e], with its sign. *)
Definition scaled (negative : bool) (m e : Z) : Q :=
  let m := if negative then - m else m in
  if 0 <=? e then inject_Z (m * 2 ^ e)
  else Qmake m (Z.to_pos (2 ^ (- e))).

(** The float nearest to the rational [q]. *)
Definition round64 (q : Q) : float_value :=
  match Qnum q with
  | 0 => Number 0
  | _ =>
      let negative := Qnum q <? 0 in
      let '(m, e) := round64_pos (Z.abs (Qnum q)) (Zpos (Qden q)) in
      if 2 ^ 1024 <=? m * 2 ^ Z.max e 0 then Inf negative
      else Number (scaled negative m e)
  end.

(** [a - b] on two finite floats. *)
Definition float_sub (a b : Q) : float_value := round64 (a - b).

(** [x < n] for a float [x] and an [int] [n]: Python compares the two
    numbers as they are, without rounding [n]. *)
Definition float_lt_int (x : float_value) (n : Z) : bool :=
  match x with
  | Number q => negb (Qle_bool (inject_Z n) q)
  | Inf negative => negative
  end.

#[local] Close Scope Z_scope.

(** ** The upstream model ([zvg_portal.model]), as far as the backends
    read it *)

Record Land : Type := { short : str; name : str }.

Record Adresse : Type :=
  { strasse : option str; plz : option str; ort : option str }.

Record ObjektEntry : Type :=
  { zvg_id : Z;
    termin_as_date : option datetime;
    termin_as_str : option str;
    art_der_versteigerung : option str;
    objekt_lage : option str;
    beschreibung : option str;
    adresse : option Adresse }.

(** What [portal.list(land)] yields: entries, and records of other
    classes, which both backends pass over. *)
Inductive raw_item : Type :=
  | Objekt (entry : ObjektEntry)
  | OtherRecord.

(** One element of the result list. *)
Record Listing : Type :=
  { l_id : Z;
    l_date : str;
    l_time : str;
    l_street : str;
    l_houseNumbers : str;
    l_zip : str;
    l_city : str;
    l_state : str;
    l_auctionType : str;
    l_propertyType : str }.

(** ** What the two backends share word for word *)

Definition MONTHS : list (str * Z) := Eval vm_compute in
  [(u "Januar", 1); (u "Februar", 2); (u "März", 3); (u "April", 4);
   (u "Mai", 5); (u "Juni", 6); (u "Juli", 7); (u "August", 8);
   (u "September", 9); (u "Oktober", 10); (u "November", 11);
   (u "Dezember", 12)]%Z.

Definition dot : str := Eval vm_compute in u ".".
Definition uhr : str := Eval vm_compute in u "uhr".
Definition space : str := Eval vm_compute in u " ".

(** The time segment, without a closing "Uhr" in any letter case. *)
Definition without_uhr (time_str : str) : str :=
  if endswith (lower time_str) uhr then strip (drop_last 3 time_str)
  else time_str.

(** *** The pattern of the street

    The pattern is anchored at both ends and reads, in order: group 1,
    [[^\d]+?] (characters that are no digits, at least one, as few as
    possible); [\s*]; group 2, optional, [\d.*] (a digit and the rest of
    the line); [$].  The functions below follow the backtracking matcher
    from the end of the pattern to its start; each returns what the groups
    hold at the first success.

    [$] matches at the end of the string and before a line feed that ends
    the string. *)
Definition at_dollar (s : str) : bool :=
  match s with
  | [] => true
  | [c] => (c =? 0x0A)%N
  | _ => false
  end.

Definition not_newline (c : N) : bool := negb (c =? 0x0A)%N.

Fixpoint skip_line (s : str) : str :=
  match s with
  | c :: s' => if not_newline c then skip_line s' else s
  | [] => []
  end.

Fixpoint take_line (s : str) : str :=
  match s with
  | c :: s' => if not_newline c then c :: take_line s' else []
  | [] => []
  end.

(** Optional group 2 and [$]: the group is tried first.  [.*] takes the rest of the
    line; giving characters back cannot help [$], which then faces a
    character that is no line feed.  Without the group, [$] is tried where
    the group would have started. *)
Definition match_number (s : str) : option (option str) :=
  match s with
  | c :: r =>
      if isdecimal c && at_dollar (skip_line r) then Some (Some (c :: take_line r))
      else if at_dollar s then Some None
      else None
  | [] => Some None
  end.

(** [\s*] and what follows it: the star takes a white-space character first and
    gives it back when the rest does not match. *)
Fixpoint match_tail (s : str) : option (option str) :=
  match s with
  | c :: s' =>
      if isspace c then
        match match_tail s' with
        | Some g2 => Some g2
        | None => match_number s
        end
      else match_number s
  | [] => match_number []
  end.

(** Group 1 followed by the tail: group 1, here [rev g1] and not
    empty, is extended by one character that is no digit only when the
    tail does not match. *)
Fixpoint match_lazy (g1 : str) (s : str) : option (str * option str) :=
  match match_tail s with
  | Some g2 => Some (List.rev g1, g2)
  | None =>
      match s with
      | c :: s' => if isdecimal c then None else match_lazy (c :: g1) s'
      | [] => None
      end
  end.

(** [re.match] of the pattern on [street]: groups 1 and 2. *)
Definition match_street (street : str) : option (str * option str) :=
  match street with
  | c :: s' => if isdecimal c then None else match_lazy [c] s'
  | [] => None
  end.

(** The house number is cut off the street only where the pattern
    matches:
    [m = re.match(...); if m: street = (m.group(1) or '').strip();
     house_numbers = (m.group(2) or '').strip()],
    with [house_numbers] empty before. *)
Definition split_house_number (street : str) : str * str :=
  match match_street street with
  | Some (g1, g2) => (strip g1, strip (or_empty g2))
  | None => (street, [])
  end.

(** The fallback on the free-text location [lage]:
    [parts = lage.split(','); street = parts[0].strip()], and the first
    word of [parts[1]] when there is one. *)
Definition split_location (lage : str) : str * str :=
  match split_on comma lage with
  | [] => ([], [])
  | p0 :: rest =>
      (strip p0,
       match rest with
       | p1 :: _ =>
           match split (strip p1) with
           | t :: _ => t
           | [] => []
           end
       | [] => []
       end)
  end.

(** [[x for x in s.split(',') if x]] *)
Definition comma_list (s : str) : list str :=
  List.filter nonempty (split_on comma s).

(** [' '.join(filter(None, [lage, beschreibung])).lower()] *)
Definition combined_text (lage beschreibung : str) : str :=
  lower (join space (List.filter nonempty [lage; beschreibung])).

(** [for ptype in selected: for kw in keywords.get(ptype, []):
     if kw in text: return ptype] and [return None] after the loops. *)
Fixpoint first_property_type (keywords : list (str * list str))
    (text : str) (selected : list str) : option str :=
  match selected with
  | [] => None
  | ptype :: rest =>
      if List.existsb (fun kw => contains kw text)
           (default [] (dict_get ptype keywords))
      then Some ptype
      else first_property_type keywords text rest
  end.

(** [auction_types and art and art not in auction_types]: the entry is
    skipped. *)
Definition auction_rejected (auction_types : list str) (art : str) : bool :=
  nonempty art
  && match auction_types with [] => false | _ => true end
  && negb (List.existsb (eqb art) auction_types).

(** ** [app/app.py] *)

Module App.

Module GermanDateParser.

Definition parse_body (s : str) : outcome (option datetime) :=
  let parts := split_on comma s in
  if length parts <? 3 then Return None else
  let second := strip (List.nth 1 parts []) in
  '(day_part, month_name, year_str) ←
    unpack3 (split (replace dot [] second));
  day ← int day_part;
  year ← int year_str;
  let month := dict_get month_name MONTHS in
  let time_str := without_uhr (strip (List.nth 2 parts [])) in
  (* hour, minute = map(int, time_str.split(':')) *)
  '(hour_str, minute_str) ← unpack2 (split_on colon time_str);
  hour ← int hour_str;
  minute ← int minute_str;
  dt ← datetime_new year month day hour minute;
  Return (Some dt).

Definition parse (s : str) : outcome (option datetime) :=
  try_except (parse_body s) (fun _ => Return None).

End GermanDateParser.

Definition short2full : list (str * str) := Eval vm_compute in
  [(u "bw", u "baden-wuerttemberg");
   (u "by", u "bayern"); (u "be", u "berlin"); (u "br", u "brandenburg");
   (u "hb", u "bremen"); (u "hh", u "hamburg"); (u "he", u "hessen");
   (u "mv", u "mecklenburg-vorpommern"); (u "ni", u "niedersachsen");
   (u "nw", u "nordrhein-westfalen"); (u "rp", u "rheinland-pfalz");
   (u "sl", u "saarland"); (u "sn", u "sachsen");
   (u "st", u "sachsen-anhalt"); (u "sh", u "schleswig-holstein");
   (u "th", u "thueringen")].

Definition ue : str := Eval vm_compute in u "ue".
Definition oe : str := Eval vm_compute in u "oe".
Definition ae : str := Eval vm_compute in u "ae".
Definition u_uml : str := Eval vm_compute in u "ü".
Definition o_uml : str := Eval vm_compute in u "ö".
Definition a_uml : str := Eval vm_compute in u "ä".

(** [x.replace('ue','ü').replace('oe','ö').replace('ae','ä')] *)
Definition to_umlauts (x : str) : str :=
  replace ae a_uml (replace oe o_uml (replace ue u_uml x)).

(** [x.replace('ü','ue').replace('ö','oe').replace('ä','ae')] *)
Definition to_digraphs (x : str) : str :=
  replace a_uml ae (replace o_uml oe (replace u_uml ue x)).

(** The set [variants] of one pass of the loop: the three spellings of
    the name and, by [variants.update(short2full.keys())], every short
    code of the table. *)
Definition variants (land : Land) : list str :=
  [lower (name land); to_umlauts (lower (name land));
   to_digraphs (lower (name land))]
  ++ List.map fst short2full.

(** [key = v; if v in short2full: key = short2full[v];
     state_map[key] = land] *)
Definition store_variant (land : Land) (m : gmap str Land) (v : str)
  : gmap str Land :=
  let key := default v (dict_get v short2full) in
  <[key := land]> m.

(** One pass of [for land in portal.get_laender()]. *)
Definition register (m : gmap str Land) (land : Land) : gmap str Land :=
  List.fold_left (store_variant land) (variants land)
    (<[lower (name land) := land]> m).

Definition state_map (laender : list Land) : gmap str Land :=
  List.fold_left register laender ∅.

Definition property_keywords : list (str * list str) := Eval vm_compute in
  [(u "Reihenhaus", [u "reihenhaus"]);
   (u "Doppelhaushälfte",
    [u "doppelhaushälfte"; u "doppelhaushaelfte"; u "doppelhaus"]);
   (u "Einfamilienhaus", [u "einfamilienhaus"]);
   (u "Wohn- und Geschäftshaus",
    [u "wohn- und geschäftshaus"; u "wohn- und geschaeftshaus";
     u "wohn-und geschäftshaus"; u "wohn-und geschaeftshaus"]);
   (u "Gewerbeeinheit",
    [u "gewerbeeinheit"; u "gewerbefläche"; u "gewerbeobjekt"])].

Definition determine_property_type (text : str) (selected : list str)
  : option str :=
  first_property_type property_keywords text selected.

(** The jurisdiction of the caller's [state]:
    [state_map.get(s) or state_map.get(state.strip().lower())]. *)
Definition resolve (state_map : gmap str Land) (state : str) : option Land :=
  let s := to_digraphs (lower (strip state)) in
  match state_map !! s with
  | Some land => Some land
  | None => state_map !! lower (strip state)
  end.

(** [entry.termin_as_date or (GermanDateParser.parse(entry.termin_as_str)
     if entry.termin_as_str else None)] *)
Definition auction_datetime (entry : ObjektEntry)
  : outcome (option datetime) :=
  match termin_as_date entry with
  | Some dt => Return (Some dt)
  | None =>
      if nonempty (or_empty (termin_as_str entry))
      then GermanDateParser.parse (or_empty (termin_as_str entry))
      else Return None
  end.

(** The property type of the entry, [None] where the loop goes on to the
    next entry. *)
Definition property_type (property_types : list str) (text : str)
  : option str :=
  match property_types with
  | [] => Some []
  | _ =>
      match determine_property_type text property_types with
      | Some p => if nonempty p then Some p else None
      | None => None
      end
  end.

(** Street, house numbers, postal code and city. *)
Definition address (entry : ObjektEntry) : str * str * str * str :=
  match adresse entry with
  | Some a =>
      let '(street, house_numbers) :=
        split_house_number (or_empty (strasse a)) in
      (street, house_numbers, or_empty (plz a), or_empty (ort a))
  | None =>
      let '(street, house_numbers) :=
        split_location (or_empty (objekt_lage entry)) in
      (street, house_numbers, [], [])
  end.

(** [(entry.art_der_versteigerung or '').strip()] *)
Definition auction_type (entry : ObjektEntry) : str :=
  strip (or_empty (art_der_versteigerung entry)).

(** The text in which the property type is looked for. *)
Definition entry_text (entry : ObjektEntry) : str :=
  combined_text (or_empty (objekt_lage entry)) (or_empty (beschreibung entry)).

(** The dictionary appended to [results]. *)
Definition listing_of (state : str) (entry : ObjektEntry)
    (auction_dt : datetime) (art prop : str) : Listing :=
  let '(street, house_numbers, zip_code, city) := address entry in
  {| l_id := zvg_id entry;
     l_date := strftime_date auction_dt;
     l_time := strftime_time auction_dt;
     l_street := street;
     l_houseNumbers := house_numbers;
     l_zip := zip_code;
     l_city := city;
     l_state := state;
     l_auctionType := art;
     l_propertyType := prop |}.

(** The body of the [try] of the loop; [None] stands for [continue]. *)
Definition entry_body (state : str) (auction_types property_types : list str)
    (min_date : date) (entry : ObjektEntry) : outcome (option Listing) :=
  auction_dt ← auction_datetime entry;
  match auction_dt with
  | None => Return None
  | Some auction_dt =>
      if date_ltb (dt_date auction_dt) min_date then Return None else
      let art := auction_type entry in
      if auction_rejected auction_types art then Return None else
      match property_type property_types (entry_text entry) with
      | None => Return None
      | Some prop => Return (Some (listing_of state entry auction_dt art prop))
      end
  end.

(** One pass of [for raw in portal.list(land)]: what it appends to
    [results]. *)
Definition entry_listing (state : str) (auction_types property_types : list str)
    (min_date : date) (raw : raw_item) : option Listing :=
  match raw with
  | OtherRecord => None
  | Objekt entry =>
      match try_except
              (entry_body state auction_types property_types min_date entry)
              (fun _ => Return None) with
      | Return r => r
      | Raise _ => None
      end
  end.

Definition unknown_state : str := Eval vm_compute in
  u "Unbekanntes Bundesland: ".

(** [search]: [portal_list] is the answer of [portal.list], [now] the
    reading of [datetime.datetime.now()]. *)
Definition search (state_map : gmap str Land)
    (portal_list : Land → outcome (list raw_item)) (now : datetime)
    (state auctionTypes propertyTypes : str) (minDays : Z)
  : outcome (list Listing) :=
  match resolve state_map state with
  | None => Raise (HTTPException 400 (unknown_state ++ state))
  | Some land =>
      let auction_types := comma_list auctionTypes in
      let property_types := comma_list propertyTypes in
      min_date ← plus_days now minDays;
      raws ← portal_list land;
      Return (omap (M := list)
              (entry_listing state auction_types property_types min_date)
              raws)
  end.

End App.

(** ** [zvg-app/backend/server.py] *)

Module Server.

Module GermanDateParser.

Definition parse_body (s : str) : outcome (option datetime) :=
  let parts := split_on comma s in
  if length parts <? 3 then Return None else
  let second := strip (List.nth 1 parts []) in
  '(day_part, month_name, year_str) ←
    unpack3 (split (replace dot [] second));
  day ← int day_part;
  let month := dict_get month_name MONTHS in
  year ← int year_str;
  let time_str := without_uhr (strip (List.nth 2 parts [])) in
  '(hour_str, minute_str) ← unpack2 (split_on colon time_str);
  hour ← int hour_str;
  minute ← int minute_str;
  dt ← datetime_new year month day hour minute;
  Return (Some dt).

Definition parse (s : str) : outcome (option datetime) :=
  try_except (parse_body s) (fun _ => Return None).

End GermanDateParser.

(** One slot of the cache: [{'ts': now, 'entries': entries}]. *)
Record CacheSlot : Type := { ts : Q; entries : list raw_item }.

Record ZVGBackend : Type :=
  { state_map : gmap str Land;
    _entries_cache : gmap str CacheSlot;
    _cache_ttl_seconds : Z }.

(** The backend object and the calls made to [portal.list] so far, the
    latest first. *)
Record world : Type := { self : ZVGBackend; upstream_calls : list Land }.

(** A method that may change the backend, call the provider and raise. *)
Definition method (A : Type) : Type := world → outcome A * world.

#[export] Instance method_ret : MRet method := fun A a w => (Return a, w).

#[export] Instance method_bind : MBind method :=
  fun A B f m w =>
    match m w with
    | (Return a, w') => f a w'
    | (Raise e, w') => (Raise e, w')
    end.

Definition lift {A} (o : outcome A) : method A := fun w => (o, w).

Definition rep_map : list (str * str) := Eval vm_compute in
  [(u "ae", u "ä"); (u "oe", u "ö"); (u "ue", u "ü");
   (u "Ae", u "Ä"); (u "Oe", u "Ö"); (u "Ue", u "Ü")].

Definition umlaut_map : list (str * str) := Eval vm_compute in
  [(u "ä", u "ae"); (u "ö", u "oe"); (u "ü", u "ue");
   (u "Ä", u "Ae"); (u "Ö", u "Oe"); (u "Ü", u "Ue")].

(** [for a, b in table.items(): if a in variant:
     variant = variant.replace(a, b)] *)
Definition replace_all (table : list (str * str)) (variant : str) : str :=
  List.fold_left
    (fun v '(a, b) => if contains a v then replace a b v else v)
    table variant.

(** [if key not in self.state_map: self.state_map[key] = land] *)
Definition add_if_absent (land : Land) (m : gmap str Land) (key : str)
  : gmap str Land :=
  match m !! key with
  | Some _ => m
  | None => <[key := land]> m
  end.

(** The set [name_variants] of one pass of the loop. *)
Definition name_variants (land : Land) : list str :=
  [replace_all rep_map (name land); replace_all umlaut_map (name land);
   name land].

(** One pass of [for land in self.portal.get_laender()]. *)
Definition register (m : gmap str Land) (land : Land) : gmap str Land :=
  let m1 := <[name land := land]> m in
  let m2 := List.fold_left (add_if_absent land) (name_variants land) m1 in
  add_if_absent land m2 (upper (short land)).

Definition build_state_map (laender : list Land) : gmap str Land :=
  List.fold_left register laender ∅.

Definition default_ttl : str := Eval vm_compute in u "1800".

(** [__init__]: [laender] is the answer of [portal.get_laender()],
    [env_ttl] the value of the environment variable ZVG_CACHE_TTL. *)
Definition init (laender : list Land) (env_ttl : option str)
  : outcome ZVGBackend :=
  ttl ← int (default default_ttl env_ttl);
  Return {| state_map := build_state_map laender;
          _entries_cache := ∅;
          _cache_ttl_seconds := ttl |}.

Definition property_keywords : list (str * list str) := Eval vm_compute in
  [(u "Reihenhaus", [u "reihenhaus"]);
   (u "Doppelhaushälfte",
    [u "doppelhaushälfte"; u "doppelhaushaelfte"; u "doppelhaushaelfte";
     u "doppelhaus"]);
   (u "Einfamilienhaus", [u "einfamilienhaus"]);
   (u "Wohn- und Geschäftshaus",
    [u "wohn- und geschäftshaus"; u "wohn- und geschaeftshaus";
     u "wohn-und geschäftshaus"; u "wohn-und geschaeftshaus"]);
   (u "Gewerbeeinheit",
    [u "gewerbeeinheit"; u "gewerbefläche"; u "gewerbeobjekt"])].

Definition A_tilde : str := Eval vm_compute in u "Ã".
Definition A_circumflex : str := Eval vm_compute in u "Â".

(** [_fix_encoding] on a string; every call of the source passes one. *)
Definition _fix_encoding (s : str) : str :=
  if negb (nonempty s) then []
  else if contains A_tilde s || contains A_circumflex s
  then utf8_decode (latin1_encode s)
  else s.

(** [now - entry['ts'] < self._cache_ttl_seconds]: the difference of two
    floats, compared with an [int]. *)
Definition fresh (now : Q) (slot : CacheSlot) (ttl : Z) : bool :=
  float_lt_int (float_sub now (ts slot)) ttl.

(** [_get_entries_cached]: [portal_list] is the answer of [portal.list],
    [now] the reading of [time.time()]. *)
Definition _get_entries_cached
    (portal_list : Land → outcome (list raw_item)) (now : Q) (land : Land)
  : method (list raw_item) :=
  fun w =>
    let key := name land in
    let refresh :=
      let w1 := {| self := self w;
                   upstream_calls := land :: upstream_calls w |} in
      match portal_list land with
      | Raise e => (Raise e, w1)
      | Return entries =>
          (Return entries,
           {| self :=
                {| state_map := state_map (self w);
                   _entries_cache :=
                     <[key := {| ts := now; entries := entries |}]>
                       (_entries_cache (self w));
                   _cache_ttl_seconds := _cache_ttl_seconds (self w) |};
              upstream_calls := upstream_calls w1 |})
      end in
    match _entries_cache (self w) !! key with
    | Some entry =>
        if fresh now entry (_cache_ttl_seconds (self w))
        then (Return (entries entry), w)
        else refresh
    | None => refresh
    end.

Definition _determine_property_type (text : str) (selected_types : list str)
  : option str :=
  first_property_type property_keywords text selected_types.

(** The timestamp of the entry: the structured one, else the free text,
    repaired and parsed. *)
Definition auction_datetime (entry : ObjektEntry)
  : outcome (option datetime) :=
  match termin_as_date entry with
  | Some dt => Return (Some dt)
  | None =>
      if nonempty (or_empty (termin_as_str entry))
      then GermanDateParser.parse
             (_fix_encoding (or_empty (termin_as_str entry)))
      else Return None
  end.

Definition property_type (property_types : list str) (text : str)
  : option str :=
  match property_types with
  | [] => Some []
  | _ =>
      match _determine_property_type text property_types with
      | Some p => if nonempty p then Some p else None
      | None => None
      end
  end.

(** Street, house numbers, postal code and city; [lage] is the repaired
    location text. *)
Definition address (entry : ObjektEntry) (lage : str)
  : str * str * str * str :=
  match adresse entry with
  | Some a =>
      let '(street, house_numbers) :=
        split_house_number (_fix_encoding (or_empty (strasse a))) in
      (street, house_numbers,
       _fix_encoding (or_empty (plz a)), _fix_encoding (or_empty (ort a)))
  | None =>
      let '(street, house_numbers) := split_location lage in
      (street, house_numbers, [], [])
  end.

(** [self._fix_encoding((entry.art_der_versteigerung or '').strip())] *)
Definition auction_type (entry : ObjektEntry) : str :=
  _fix_encoding (strip (or_empty (art_der_versteigerung entry))).

(** [objekt_lage], the repaired location text. *)
Definition location (entry : ObjektEntry) : str :=
  _fix_encoding (or_empty (objekt_lage entry)).

(** The text in which the property type is looked for. *)
Definition entry_text (entry : ObjektEntry) : str :=
  combined_text (location entry)
    (_fix_encoding (or_empty (beschreibung entry))).

(** The dictionary appended to [results]. *)
Definition listing_of (state : str) (entry : ObjektEntry)
    (auction_dt : datetime) (art prop_type : str) : Listing :=
  let '(street, house_numbers, zip_code, city) :=
    address entry (location entry) in
  {| l_id := zvg_id entry;
     l_date := strftime_date auction_dt;
     l_time := strftime_time auction_dt;
     l_street := street;
     l_houseNumbers := house_numbers;
     l_zip := zip_code;
     l_city := city;
     l_state := state;
     l_auctionType := art;
     l_propertyType := prop_type |}.

(** The body of the [try] of the loop; [None] stands for [continue]. *)
Definition entry_body (state : str) (auction_types property_types : list str)
    (min_date : date) (entry : ObjektEntry) : outcome (option Listing) :=
  auction_dt ← auction_datetime entry;
  match auction_dt with
  | None => Return None
  | Some auction_dt =>
      if date_ltb (dt_date auction_dt) min_date then Return None else
      let art := auction_type entry in
      if auction_rejected auction_types art then Return None else
      match property_type property_types (entry_text entry) with
      | None => Return None
      | Some prop_type =>
          Return (Some (listing_of state entry auction_dt art prop_type))
      end
  end.

Definition entry_listing (state : str) (auction_types property_types : list str)
    (min_date : date) (raw : raw_item) : option Listing :=
  match raw with
  | OtherRecord => None
  | Objekt entry =>
      match try_except
              (entry_body state auction_types property_types min_date entry)
              (fun _ => Return None) with
      | Return r => r
      | Raise _ => None
      end
  end.

(** [search]: [clock] is the reading of [time.time()], [now] that of
    [datetime.datetime.now()]. *)
Definition search (portal_list : Land → outcome (list raw_item))
    (clock : Q) (now : datetime)
    (state : str) (auction_types property_types : list str) (min_days : Z)
  : method (list Listing) :=
  fun w =>
    match state_map (self w) !! state with
    | None => (Return [], w)
    | Some land =>
        (min_date ← lift (plus_days now min_days);
         raws ← _get_entries_cached portal_list clock land;
         mret (omap (M := list)
                 (entry_listing state auction_types property_types min_date)
                 raws)) w
    end.

(** *** The request handler *)

(** [urllib.parse.parse_qs], from the name and value pairs of the query
    string ([parse_qsl], which drops the pairs with a blank value). *)
Definition parse_qs (pairs : list (str * str)) : gmap str (list str) :=
  List.fold_left
    (fun params '(k, v) => <[k := default [] (params !! k) ++ [v]]> params)
    pairs ∅.

(** [params.get(key, [fallback])[0]] *)
Definition first_value (params : gmap str (list str)) (key fallback : str)
  : outcome str :=
  match default [fallback] (params !! key) with
  | v :: _ => Return v
  | [] => Raise IndexError
  end.

(** [try: min_days = int(min_days_str)  except ValueError: min_days = 0] *)
Definition min_days_of (min_days_str : str) : outcome Z :=
  match int min_days_str with
  | Raise ValueError => Return 0%Z
  | r => r
  end.

Inductive Body : Type :=
  | Results (results : list Listing)
  | Error (e : exn)
  | NotFound.

Record Response : Type := { status : Z; body : Body }.

Definition api_search : str := Eval vm_compute in u "/api/search".
Definition k_state : str := Eval vm_compute in u "state".
Definition k_auctionTypes : str := Eval vm_compute in u "auctionTypes".
Definition k_propertyTypes : str := Eval vm_compute in u "propertyTypes".
Definition k_minDays : str := Eval vm_compute in u "minDays".
Definition zero : str := Eval vm_compute in u "0".

(** The second [try] of [do_GET]: the search and its answer, the status
    and the value that is written as JSON.  The writing itself is not
    modelled: [json.dumps], [encode], which raises on a text with a lone
    surrogate, and the socket. *)
Definition respond (m : method (list Listing)) : method Response :=
  fun w =>
    match m w with
    | (Return results, w') =>
        (Return {| status := 200; body := Results results |}, w')
    | (Raise e, w') => (Return {| status := 500; body := Error e |}, w')
    end.

(** [do_GET], from the second line on: [path] is [parsed.path] and
    [query] the pairs of [parsed.query], for a request line that
    [urlparse] has taken apart. *)
Definition do_GET (portal_list : Land → outcome (list raw_item))
    (clock : Q) (now : datetime) (path : str) (query : list (str * str))
  : method Response :=
  if eqb path api_search then
    let params := parse_qs query in
    state ← lift (first_value params k_state []);
    auction_param ← lift (first_value params k_auctionTypes []);
    prop_param ← lift (first_value params k_propertyTypes []);
    min_days_str ← lift (first_value params k_minDays zero);
    let auction_types := comma_list auction_param in
    let property_types := comma_list prop_param in
    min_days ← lift (min_days_of min_days_str);
    respond (search portal_list clock now state auction_types property_types
               min_days)
  else mret {| status := 404; body := NotFound |}.

End Server.

(** ** The words of the specification *)

(** The tokens of the date segment and of the time segment, as both
    parsers cut them. *)
Definition date_tokens (s : str) : list str :=
  split (replace dot [] (strip (List.nth 1 (split_on comma s) []))).

Definition time_tokens (s : str) : list str :=
  split_on colon (without_uhr (strip (List.nth 2 (split_on comma s) []))).

(** The deviations from
    "<weekday>, <day>. <month name> <year>, <hour>:<minute> Uhr"
    that the specification lists.  A token is numeric when [int] accepts
    it. *)
Inductive deviation (s : str) : Prop :=
  | few_segments :
      length (split_on comma s) < 3 → deviation s
  | date_token_count :
      length (date_tokens s) ≠ 3 → deviation s
  | day_not_numeric d m y :
      date_tokens s = [d; m; y] → int_of_str d = None → deviation s
  | unknown_month d m y :
      date_tokens s = [d; m; y] → m ∉ List.map fst MONTHS → deviation s
  | year_not_numeric d m y :
      date_tokens s = [d; m; y] → int_of_str y = None → deviation s
  | time_token_count :
      length (time_tokens s) ≠ 2 → deviation s
  | hour_not_numeric h mi :
      time_tokens s = [h; mi] → int_of_str h = None → deviation s
  | minute_not_numeric h mi :
      time_tokens s = [h; mi] → int_of_str mi = None → deviation s.

(** What a successful parse has read. *)
Inductive reads (s : str) (dt : datetime) : Prop :=
  | reads_intro day_part month_name year_str hour_str minute_str
      day month year hour minute :
      3 ≤ length (split_on comma s) →
      date_tokens s = [day_part; month_name; year_str] →
      time_tokens s = [hour_str; minute_str] →
      int_of_str day_part = Some day →
      dict_get month_name MONTHS = Some month →
      int_of_str year_str = Some year →
      int_of_str hour_str = Some hour →
      int_of_str minute_str = Some minute →
      datetime_new year (Some month) day hour minute = Return dt →
      reads s dt.

(** The timestamp of an entry: the structured one, else the one that
    [parse] reads in the free text. *)
Definition timestamp_from (parse : str → outcome (option datetime))
    (entry : ObjektEntry) (dt : datetime) : Prop :=
  termin_as_date entry = Some dt
  ∨ (termin_as_date entry = None
     ∧ ∃ s, termin_as_str entry = Some s ∧ parse s = Return (Some dt)).

(** A character that no spelling of an integer contains. *)
Definition foreign (c : N) : Prop :=
  isdecimal c = false ∧ isspace c = false
  ∧ c ≠ 0x2B%N ∧ c ≠ 0x2D%N ∧ c ≠ 0x5F%N.

(** [sub] occurs in [s]. *)
Definition occurs_in (sub s : str) : Prop :=
  ∃ before after, s = before ++ sub ++ after.

(** A keyword of the candidate occurs in the text. *)
Definition candidate_matches (keywords : list (str * list str))
    (text candidate : str) : Prop :=
  ∃ kw, kw ∈ default [] (dict_get candidate keywords) ∧ occurs_in kw text.

(** [label] is the first of the candidates, in their order, that
    matches. *)
Definition first_match (keywords : list (str * list str))
    (text : str) (candidates : list str) (label : str) : Prop :=
  ∃ before after,
    candidates = before ++ label :: after
    ∧ candidate_matches keywords text label
    ∧ ∀ c, c ∈ before → ¬ candidate_matches keywords text c.

(** The split of the street as the specification words it: the leading
    characters that are no digits, trimmed, and the rest from the first
    digit on. *)
Fixpoint leading_non_digits (s : str) : str :=
  match s with
  | c :: s' => if isdecimal c then [] else c :: leading_non_digits s'
  | [] => []
  end.

Fixpoint from_first_digit (s : str) : str :=
  match s with
  | c :: s' => if isdecimal c then s else from_first_digit s'
  | [] => []
  end.

Definition split_at_first_digit (street : str) : str * str :=
  (strip (leading_non_digits street), from_first_digit street).

Definition no_digit (s : str) : Prop := Forall (fun c => isdecimal c = false) s.

Definition starts_with_digit (s : str) : Prop :=
  ∃ c r, s = c :: r ∧ isdecimal c = true.

Definition one_line (s : str) : Prop := Forall (fun c => c ≠ 0x0A%N) s.

Definition spaces (s : str) : Prop := Forall (fun c => isspace c = true) s.

(** What group 2 holds when the pattern has matched up to the text
    [number]: nothing at the end of the street, the whole of a number on
    one line. *)
Definition group2_of (number : str) (g2 : option str) : Prop :=
  (number = [] ∧ g2 = None)
  ∨ (starts_with_digit number ∧ one_line number ∧ g2 = Some number).

(** The first word of a text, empty when it has none. *)
Definition first_word (s : str) : str :=
  match split s with
  | t :: _ => t
  | [] => []
  end.

(** What a refresh of the cache leaves behind, [r] being the answer and
    the world after it: one more call of the provider, whose answer is
    passed on, and on an entry list a slot that holds this list and the
    time of the fetch.  The other slots, the registry and the
    time-to-live stay. *)
Definition refreshed (portal_list : Land → outcome (list raw_item))
    (now : Q) (land : Land) (w : Server.world)
    (r : outcome (list raw_item) * Server.world) : Prop :=
  Server.upstream_calls (snd r) = land :: Server.upstream_calls w
  ∧ fst r = portal_list land
  ∧ Server.state_map (Server.self (snd r)) = Server.state_map (Server.self w)
  ∧ Server._cache_ttl_seconds (Server.self (snd r))
    = Server._cache_ttl_seconds (Server.self w)
  ∧ (∀ e, portal_list land = Raise e →
       Server._entries_cache (Server.self (snd r))
       = Server._entries_cache (Server.self w))
  ∧ (∀ es, portal_list land = Return es →
       Server._entries_cache (Server.self (snd r))
       = <[name land := {| Server.ts := now; Server.entries := es |}]>
           (Server._entries_cache (Server.self w))).

(** The values of [key] in the pairs of a query string, in order. *)
Definition values_of (key : str) (query : list (str * str)) : list str :=
  List.map snd (List.filter (fun kv => eqb (fst kv) key) query).

(** ** Concrete inputs *)

(** The sixteen states as the portal names them, short code and name. *)
Definition bundeslaender : list Land := Eval vm_compute in
  List.map (fun p => {| short := u (fst p); name := u (snd p) |})
    [("bw", "Baden-Wuerttemberg"); ("by", "Bayern"); ("be", "Berlin");
     ("br", "Brandenburg"); ("hb", "Bremen"); ("hh", "Hamburg");
     ("he", "Hessen"); ("mv", "Mecklenburg-Vorpommern");
     ("ni", "Niedersachsen"); ("nw", "Nordrhein-Westfalen");
     ("rp", "Rheinland-Pfalz"); ("sl", "Saarland"); ("sn", "Sachsen");
     ("st", "Sachsen-Anhalt"); ("sh", "Schleswig-Holstein");
     ("th", "Thueringen")]%string.

(** An entry with a structured address and a timestamp in free text. *)
Definition reihenhaus_entry : ObjektEntry := Eval vm_compute in
  {| zvg_id := 4711;
     termin_as_date := None;
     termin_as_str := Some (u "Montag, 07. August 2025, 10:00 Uhr");
     art_der_versteigerung :=
       Some (u "Versteigerung im Wege der Zwangsvollstreckung");
     objekt_lage := Some (u "Reihenhaus, Hauptstraße 12, Erfurt");
     beschreibung := Some (u "Reihenhaus mit Garten");
     adresse := Some {| strasse := Some (u "Hauptstraße 12");
                        plz := Some (u "99084");
                        ort := Some (u "Erfurt") |} |}.

(** An entry whose street starts with a digit. *)
Definition suedwieke_entry : ObjektEntry := Eval vm_compute in
  {| zvg_id := 4712;
     termin_as_date := None;
     termin_as_str := Some (u "Dienstag, 1. Januar 2024, 9:05 Uhr");
     art_der_versteigerung := None;
     objekt_lage := None;
     beschreibung := None;
     adresse := Some {| strasse := Some (u "1. Südwieke 12");
                        plz := Some (u "26842");
                        ort := Some (u "Ostrhauderfehn") |} |}.

(** The backend of [server.py] after [__init__] on the sixteen states,
    and the world before any request. *)
Definition server_backend : Server.ZVGBackend :=
  {| Server.state_map := Server.build_state_map bundeslaender;
     Server._entries_cache := ∅;
     Server._cache_ttl_seconds := 1800 |}.

Definition server_world : Server.world :=
  {| Server.self := server_backend; Server.upstream_calls := [] |}.

(** A world whose cache holds an empty list for Thueringen, fetched at
    second 1000. *)
Definition cached_world : Server.world :=
  {| Server.self :=
       {| Server.state_map := Server.build_state_map bundeslaender;
          Server._entries_cache :=
            {[ u "Thueringen" := {| Server.ts := 1000; Server.entries := [] |} ]};
          Server._cache_ttl_seconds := 1800 |};
     Server.upstream_calls := [] |}.

Definition baden_wuerttemberg : Land := Eval vm_compute in
  {| short := u "bw"; name := u "Baden-Wuerttemberg" |}.

Definition thueringen : Land := Eval vm_compute in
  {| short := u "th"; name := u "Thueringen" |}.

#[local] Open Scope N_scope.

(** ** Text that was decoded with the wrong codec

    [utf8_char c] is [chr(c).encode('utf-8')] for a Unicode scalar value
    [c], and [mojibake t] is [t.encode('utf-8').decode('latin-1')]: the
    text [t] as it reads when its UTF-8 bytes are taken for Latin-1, which
    is the damage that [_fix_encoding] repairs. *)
Definition scalar (c : N) : Prop :=
  c < 0xD800 ∨ (0xE000 <= c ∧ c <= 0x10FFFF).

Definition utf8_char (c : N) : list N :=
  if c <? 0x80 then [c]
  else if c <? 0x800 then [0xC0 + c / 64; 0x80 + c mod 64]
  else if c <? 0x10000
  then [0xE0 + c / 4096; 0x80 + (c / 64) mod 64; 0x80 + c mod 64]
  else [0xF0 + c / 262144; 0x80 + (c / 4096) mod 64;
        0x80 + (c / 64) mod 64; 0x80 + c mod 64].

Definition mojibake (t : str) : str := List.concat (List.map utf8_char t).

(** A text without the two letters that make [_fix_encoding] repair
    it. *)
Definition unmarked (s : str) : Prop :=
  (195 ∉ s) ∧ (194 ∉ s).

(** A character below U+0080. *)
Definition is_ascii (c : N) : bool := c <? 128.

(** ** A timestamp in words

    [german_date_text weekday dt] is the timestamp [dt] in the form that
    both parsers expect, "Wochentag, dd. Monat YYYY, HH:MM Uhr". *)
Definition month_name (m : Z) : str :=
  List.nth (Z.to_nat (m - 1)) (List.map fst MONTHS) [].

Definition Uhr : str := Eval vm_compute in u "Uhr".

Definition german_date_text (weekday : str) (dt : datetime) : str :=
  let d := dt_date dt in
  weekday
  ++ comma :: (space ++ digits_of 2 (day d) ++ dot ++ space
               ++ month_name (month d) ++ space ++ digits_of 4 (year d))
  ++ comma :: (space ++ digits_of 2 (hour dt)
               ++ colon :: digits_of 2 (minute dt) ++ space ++ Uhr).

(** A character of a word of the date text: no white space and none of
    the three separators, dot, comma and colon. *)
Definition plain (c : N) : Prop :=
  isspace c = false ∧ c ≠ 46 ∧ c ≠ 44 ∧ c ≠ 58.

#[local] Close Scope N_scope.

(** * Lemmas *)

(** ** Strings *)

Lemma eqb_eq (a b : str) : eqb a b = true ↔ a = b.
Proof.
  revert b; induction a as [|x a IH]; intros [|y b]; simpl; try easy.
  rewrite andb_true_iff, N.eqb_eq, IH. split.
  - intros [-> ->]; reflexivity.
  - intros [= -> ->]; auto.
Qed.

Lemma eqb_refl (a : str) : eqb a a = true.
Proof. apply eqb_eq; reflexivity. Qed.

Lemma eqb_neq (a b : str) : eqb a b = false ↔ a ≠ b.
Proof.
  rewrite <- eqb_eq. destruct (eqb a b); split; congruence.
Qed.

Lemma dict_get_None {V} (k : str) (d : list (str * V)) :
  dict_get k d = None ↔ k ∉ List.map fst d.
Proof.
  induction d as [|[k' v] d IH]; simpl.
  - split; [intros _ H; inversion H | reflexivity].
  - rewrite not_elem_of_cons. destruct (eqb k k') eqn:E.
    + apply eqb_eq in E. split; [discriminate | intros [H _]; contradiction].
    + apply eqb_neq in E. rewrite IH. tauto.
Qed.

(** ** The date parser *)

Lemma outcome_bind_Return {A B} (f : A → outcome B) (m : outcome A) b :
  m ≫= f = Return b ↔ ∃ a, m = Return a ∧ f a = Return b.
Proof.
  destruct m as [a|e]; simpl; split.
  - eauto.
  - intros (a' & [= ->] & H); exact H.
  - discriminate.
  - intros (a' & [=] & _).
Qed.

Lemma int_Return (s : str) (z : Z) : int s = Return z ↔ int_of_str s = Some z.
Proof. unfold int. destruct (int_of_str s); split; congruence. Qed.

Lemma unpack3_Return {A} (xs : list A) a b c :
  unpack3 xs = Return (a, b, c) ↔ xs = [a; b; c].
Proof.
  destruct xs as [|x [|y [|z [|]]]]; simpl; split; congruence.
Qed.

Lemma unpack2_Return {A} (xs : list A) a b :
  unpack2 xs = Return (a, b) ↔ xs = [a; b].
Proof.
  destruct xs as [|x [|y [|]]]; simpl; split; congruence.
Qed.

Lemma datetime_new_month y m d h mi dt :
  datetime_new y m d h mi = Return dt → ∃ m', m = Some m'.
Proof.
  unfold datetime_new. destruct (negb (fits_c_int y)); [discriminate|].
  destruct m; [eauto | discriminate].
Qed.

Lemma server_parse_body_reads (s : str) (dt : datetime) :
  Server.GermanDateParser.parse_body s = Return (Some dt) ↔ reads s dt.
Proof.
  unfold Server.GermanDateParser.parse_body. split.
  - destruct (length (split_on comma s) <? 3) eqn:Hlen; [discriminate|].
    apply Nat.ltb_ge in Hlen.
    intros H. apply outcome_bind_Return in H as ([[d m] y] & Hd & H).
    apply unpack3_Return in Hd.
    apply outcome_bind_Return in H as (day & Hday & H).
    apply outcome_bind_Return in H as (year & Hyear & H).
    apply outcome_bind_Return in H as ([hh mm] & Ht & H).
    apply unpack2_Return in Ht.
    apply outcome_bind_Return in H as (hour & Hhour & H).
    apply outcome_bind_Return in H as (minute & Hminute & H).
    apply outcome_bind_Return in H as (dt' & Hdt & [= ->]).
    destruct (datetime_new_month _ _ _ _ _ _ Hdt) as [month Hmonth].
    rewrite Hmonth in Hdt.
    apply int_Return in Hday, Hyear, Hhour, Hminute.
    econstructor; eauto.
  - intros [d m y hh mm day month year hour minute
              Hlen Hd Ht Hday Hmonth Hyear Hhour Hminute Hdt].
    apply Nat.ltb_ge in Hlen. rewrite Hlen.
    unfold date_tokens in Hd. unfold time_tokens in Ht.
    apply int_Return in Hday, Hyear, Hhour, Hminute.
    rewrite Hd, Ht. cbn [unpack3 unpack2 mbind outcome_bind].
    rewrite Hday. cbn [mbind outcome_bind]. rewrite Hyear, Hhour.
    cbn [mbind outcome_bind]. rewrite Hminute. cbn [mbind outcome_bind].
    rewrite Hmonth, Hdt. reflexivity.
Qed.

Lemma app_parse_body_reads (s : str) (dt : datetime) :
  App.GermanDateParser.parse_body s = Return (Some dt) ↔ reads s dt.
Proof.
  unfold App.GermanDateParser.parse_body. split.
  - destruct (length (split_on comma s) <? 3) eqn:Hlen; [discriminate|].
    apply Nat.ltb_ge in Hlen.
    intros H. apply outcome_bind_Return in H as ([[d m] y] & Hd & H).
    apply unpack3_Return in Hd.
    apply outcome_bind_Return in H as (day & Hday & H).
    apply outcome_bind_Return in H as (year & Hyear & H).
    apply outcome_bind_Return in H as ([hh mm] & Ht & H).
    apply unpack2_Return in Ht.
    apply outcome_bind_Return in H as (hour & Hhour & H).
    apply outcome_bind_Return in H as (minute & Hminute & H).
    apply outcome_bind_Return in H as (dt' & Hdt & [= ->]).
    destruct (datetime_new_month _ _ _ _ _ _ Hdt) as [month Hmonth].
    rewrite Hmonth in Hdt.
    apply int_Return in Hday, Hyear, Hhour, Hminute.
    econstructor; eauto.
  - intros [d m y hh mm day month year hour minute
              Hlen Hd Ht Hday Hmonth Hyear Hhour Hminute Hdt].
    apply Nat.ltb_ge in Hlen. rewrite Hlen.
    unfold date_tokens in Hd. unfold time_tokens in Ht.
    apply int_Return in Hday, Hyear, Hhour, Hminute.
    rewrite Hd, Ht. cbn [unpack3 unpack2 mbind outcome_bind].
    rewrite Hday. cbn [mbind outcome_bind]. rewrite Hyear, Hhour.
    cbn [mbind outcome_bind]. rewrite Hminute. cbn [mbind outcome_bind].
    rewrite Hmonth, Hdt. reflexivity.
Qed.

Lemma parse_body_Some_only (body : outcome (option datetime)) r :
  try_except body (fun _ => Return None) = Return r →
  r = None ∨ ∃ dt, r = Some dt ∧ body = Return (Some dt).
Proof.
  destruct body as [[dt|]|e]; simpl; intros [= <-]; eauto.
Qed.

(** The two parsers give the same answer on every string. *)
Lemma parse_agree (s : str) :
  App.GermanDateParser.parse s = Server.GermanDateParser.parse s.
Proof.
  unfold App.GermanDateParser.parse, Server.GermanDateParser.parse.
  destruct (App.GermanDateParser.parse_body s) as [[dt|]|e] eqn:Ha.
  - apply app_parse_body_reads, server_parse_body_reads in Ha.
    rewrite Ha. reflexivity.
  - destruct (Server.GermanDateParser.parse_body s) as [[dt|]|e] eqn:Hs;
      try reflexivity.
    apply server_parse_body_reads, app_parse_body_reads in Hs. congruence.
  - destruct (Server.GermanDateParser.parse_body s) as [[dt|]|e'] eqn:Hs;
      try reflexivity.
    apply server_parse_body_reads, app_parse_body_reads in Hs. congruence.
Qed.

(** The parser returns, and returns a timestamp exactly for the strings
    it has read through. *)
Lemma parse_returns (s : str) :
  ∃ r, Server.GermanDateParser.parse s = Return r.
Proof.
  unfold Server.GermanDateParser.parse.
  destruct (Server.GermanDateParser.parse_body s); simpl; eauto.
Qed.

Lemma parse_Some_reads (s : str) (dt : datetime) :
  Server.GermanDateParser.parse s = Return (Some dt) ↔ reads s dt.
Proof.
  rewrite <- server_parse_body_reads.
  unfold Server.GermanDateParser.parse.
  destruct (Server.GermanDateParser.parse_body s) as [[dt'|]|e];
    cbn; split; congruence.
Qed.

Lemma deviation_not_read (s : str) (dt : datetime) :
  deviation s → ¬ reads s dt.
Proof.
  intros Hdev [d m y hh mm day month year hour minute
                 Hlen Hd Ht Hday Hmonth Hyear Hhour Hminute Hdt].
  destruct Hdev as [H|H|d' m' y' H1 H2|d' m' y' H1 H2|d' m' y' H1 H2
                   |H|h' mi' H1 H2|h' mi' H1 H2].
  - lia.
  - rewrite Hd in H. apply H. reflexivity.
  - rewrite Hd in H1. injection H1 as <- <- <-. congruence.
  - rewrite Hd in H1. injection H1 as <- <- <-.
    apply dict_get_None in H2. congruence.
  - rewrite Hd in H1. injection H1 as <- <- <-. congruence.
  - rewrite Ht in H. apply H. reflexivity.
  - rewrite Ht in H1. injection H1 as <- <-. congruence.
  - rewrite Ht in H1. injection H1 as <- <-. congruence.
Qed.

(** ** [int]: characters that no integer contains *)

Lemma skip_int_space_foreign (s : str) :
  Exists foreign s → Exists foreign (skip_int_space s).
Proof.
  induction s as [|c s IH]; simpl; [auto|].
  intros H. destruct (int_space c) eqn:E; [|exact H].
  apply IH. inversion H as [? ? Hc|]; subst; [|assumption].
  destruct Hc as (_ & Hs & _). unfold int_space in E.
  rewrite Hs in E. discriminate.
Qed.

Lemma foreign_nonempty (s : str) : Exists foreign s → nonempty s = true.
Proof. intros H; inversion H; reflexivity. Qed.

Lemma read_digits_foreign (s : str) :
  ∀ acc count v n rest,
    read_digits acc count s = Some (v, n, rest) →
    Exists foreign s → Exists foreign rest.
Proof.
  induction s as [|c s IH]; intros acc count v n rest; simpl.
  - intros _ H; inversion H.
  - intros Hr He.
    assert (Hs : foreign c ∨ Exists foreign s).
    { inversion He; subst; auto. }
    destruct (decimal_value c) as [d|] eqn:Hd.
    + destruct Hs as [(Hc & _)|Hs].
      * unfold isdecimal in Hc. rewrite Hd in Hc. discriminate.
      * eapply IH; eauto.
    + destruct (c =? 95)%N eqn:Hu.
      * apply N.eqb_eq in Hu. destruct Hs as [(_ & _ & _ & _ & Hc)|Hs];
          [contradiction|].
        destruct count; [discriminate|]. destruct s as [|c' s']; [discriminate|].
        destruct (isdecimal c'); [|discriminate]. eapply IH; eauto.
      * injection Hr as <- <- <-. exact He.
Qed.

(** A string with a character that is no digit, no white space, no sign
    and no underscore is no integer. *)
Lemma int_of_str_foreign (s : str) : Exists foreign s → int_of_str s = None.
Proof.
  intros H. apply skip_int_space_foreign in H. unfold int_of_str.
  set (s1 := skip_int_space s) in *.
  assert (Hsign : ∀ (negative : bool) (s2 : str),
    Exists foreign s2 →
    match read_digits 0 0 s2 with
    | Some (v, S n, rest) =>
        if nonempty (skip_int_space rest) then None
        else if (max_str_digits <? S n)%nat then None
        else Some (if negative then (- v)%Z else v)
    | _ => None
    end = None).
  { intros negative s2 H2.
    destruct (read_digits 0 0 s2) as [[[v n] rest]|] eqn:Hr; [|reflexivity].
    destruct n; [reflexivity|].
    apply (read_digits_foreign _ _ _ _ _ _ Hr) in H2.
    apply skip_int_space_foreign, foreign_nonempty in H2.
    rewrite H2. reflexivity. }
  destruct s1 as [|c r]; [inversion H|].
  assert (Hr : foreign c ∨ Exists foreign r) by (inversion H; subst; auto).
  destruct (c =? 45)%N eqn:Hm.
  { apply N.eqb_eq in Hm. apply (Hsign true).
    destruct Hr as [(_ & _ & _ & Hc & _)|Hr]; [contradiction|assumption]. }
  destruct (c =? 43)%N eqn:Hp.
  { apply N.eqb_eq in Hp. apply (Hsign false).
    destruct Hr as [(_ & _ & Hc & _)|Hr]; [contradiction|assumption]. }
  apply (Hsign false), H.
Qed.

(** ** White space and digits *)

Lemma isspace_bound (c : N) : isspace c = true → (c <= 0x3000)%N.
Proof.
  intros H. destruct (N.le_gt_cases c 0x3000) as [|Hgt]; [assumption|].
  exfalso. unfold isspace in H.
  assert (Hle : ∀ k, (k < 0x3000)%N → (c <=? k)%N = false)
    by (intros k Hk; apply N.leb_gt; lia).
  assert (Heq : ∀ k, (k <= 0x3000)%N → (c =? k)%N = false)
    by (intros k Hk; apply N.eqb_neq; lia).
  rewrite !Hle, !Heq in H by lia.
  rewrite !andb_false_r in H. discriminate H.
Qed.

Lemma isspace_not_decimal (c : N) : isspace c = true → isdecimal c = false.
Proof.
  intros Hs.
  assert (Hall : List.forallb (fun c => negb (isspace c && isdecimal c))
                   (List.map N.of_nat (seq 0 (N.to_nat 12289))) = true)
    by (vm_compute; reflexivity).
  rewrite forallb_forall in Hall.
  assert (Hin : In c (List.map N.of_nat (seq 0 (N.to_nat 12289)))).
  { apply in_map_iff. exists (N.to_nat c). split; [apply N2Nat.id|].
    apply in_seq. apply isspace_bound in Hs. lia. }
  apply Hall in Hin. rewrite Hs in Hin. apply negb_true_iff in Hin.
  exact Hin.
Qed.

(** ** Stripping *)

Lemma lstrip_spaces (ws x : str) : spaces ws → lstrip (ws ++ x) = lstrip x.
Proof.
  induction 1 as [|c ws Hc _ IH]; simpl; [reflexivity|].
  rewrite Hc. exact IH.
Qed.

Lemma lstrip_split (x : str) : ∃ ws, x = ws ++ lstrip x ∧ spaces ws.
Proof.
  induction x as [|c x (ws & IH & Hws)]; simpl.
  - exists []. split; [reflexivity | constructor].
  - destruct (isspace c) eqn:Hc.
    + exists (c :: ws). split; [simpl; congruence | constructor; assumption].
    + exists []. split; [reflexivity | constructor].
Qed.

Lemma spaces_rev (ws : str) : spaces ws → spaces (List.rev ws).
Proof. apply List.Forall_rev. Qed.

Lemma rstrip_spaces (x ws : str) : spaces ws → rstrip (x ++ ws) = rstrip x.
Proof.
  intros H. unfold rstrip. rewrite rev_app_distr.
  rewrite lstrip_spaces by (apply spaces_rev, H). reflexivity.
Qed.

Lemma rstrip_split (x : str) : ∃ ws, x = rstrip x ++ ws ∧ spaces ws.
Proof.
  destruct (lstrip_split (List.rev x)) as (ws & E & Hws).
  exists (List.rev ws). split; [|apply spaces_rev, Hws].
  unfold rstrip. rewrite <- rev_app_distr, <- E, rev_involutive. reflexivity.
Qed.

Lemma strip_spaces_r (x ws : str) : spaces ws → strip (x ++ ws) = strip x.
Proof. intros H. unfold strip. rewrite rstrip_spaces by exact H. reflexivity. Qed.

Lemma strip_nil : strip [] = [].
Proof. reflexivity. Qed.

(** ** The pattern of the street *)

Lemma one_line_skip (r : str) : one_line r → skip_line r = [].
Proof.
  induction 1 as [|c r Hc _ IH]; simpl; [reflexivity|].
  unfold not_newline. apply N.eqb_neq in Hc. rewrite Hc. exact IH.
Qed.

Lemma one_line_take (r : str) : one_line r → take_line r = r.
Proof.
  induction 1 as [|c r Hc _ IH]; simpl; [reflexivity|].
  unfold not_newline. apply N.eqb_neq in Hc. rewrite Hc. simpl. congruence.
Qed.

Lemma at_dollar_cons (c : N) (s : str) :
  at_dollar (c :: s) = true → c = 10%N ∧ s = [].
Proof.
  destruct s; simpl; [|discriminate]. intros H. apply N.eqb_eq in H. auto.
Qed.

Lemma match_number_group2 (d : str) (g2 : option str) :
  group2_of d g2 → match_number d = Some g2.
Proof.
  intros [[-> ->]|((c & r & -> & Hc) & Hline & ->)]; [reflexivity|].
  inversion Hline as [|? ? _ Hr]; subst. simpl.
  rewrite Hc, (one_line_skip r Hr), (one_line_take r Hr). reflexivity.
Qed.

Lemma match_number_non_digit (c : N) (s : str) (g : option str) :
  isdecimal c = false → match_number (c :: s) = Some g →
  c = 10%N ∧ s = [] ∧ g = None.
Proof.
  intros Hc. unfold match_number. rewrite Hc. cbn [andb].
  destruct (at_dollar (c :: s)) eqn:E; [|discriminate].
  apply at_dollar_cons in E as [-> ->]. intros [= <-]. auto.
Qed.

Lemma match_tail_eq (s : str) :
  match_tail s =
  match s with
  | c :: s' =>
      if isspace c then
        match match_tail s' with
        | Some g2 => Some g2
        | None => match_number s
        end
      else match_number s
  | [] => match_number []
  end.
Proof. destruct s; reflexivity. Qed.

Lemma match_tail_start (d : str) (g2 : option str) :
  group2_of d g2 → match_tail d = Some g2.
Proof.
  intros H. pose proof (match_number_group2 d g2 H) as Hn.
  destruct H as [[-> ->]|((c & r & -> & Hc) & Hline & ->)]; [reflexivity|].
  rewrite match_tail_eq.
  destruct (isspace c) eqn:Hs; [|exact Hn].
  apply isspace_not_decimal in Hs. congruence.
Qed.

(** The tail matches after white space only, and then group 2 is what
    [group2_of] says. *)
Lemma match_tail_complete (ws d : str) (g2 : option str) :
  spaces ws → group2_of d g2 → match_tail (ws ++ d) = Some g2.
Proof.
  intros Hws Hd. induction Hws as [|c ws Hc _ IH].
  - apply match_tail_start, Hd.
  - simpl. rewrite Hc, IH. reflexivity.
Qed.

Lemma match_tail_sound (rest d : str) (g2 g : option str) :
  no_digit rest → group2_of d g2 → match_tail (rest ++ d) = Some g →
  spaces rest ∧ g = g2.
Proof.
  intros Hrest Hd. revert g. induction Hrest as [|c rest Hc _ IH]; intros g.
  - simpl. rewrite (match_tail_start d g2 Hd). intros [= <-].
    split; [constructor | reflexivity].
  - rewrite <- app_comm_cons, match_tail_eq.
    destruct (isspace c) eqn:Hs.
    + destruct (match_tail (rest ++ d)) as [g'|] eqn:Hg.
      * intros [= <-]. destruct (IH g' eq_refl) as [Hsp ->].
        split; [constructor; assumption | reflexivity].
      * intros Hn. apply (match_number_non_digit _ _ _ Hc) in Hn
          as (-> & Happ & ->).
        apply app_eq_nil in Happ as [-> ->].
        split; [constructor; [exact Hs | constructor]|].
        destruct Hd as [[_ ->]|((? & ? & [=] & _) & _)]. reflexivity.
    + intros Hn. apply (match_number_non_digit _ _ _ Hc) in Hn as (-> & _).
      discriminate Hs.
Qed.

Lemma match_lazy_eq (g1 s : str) :
  match_lazy g1 s =
  match match_tail s with
  | Some g2 => Some (List.rev g1, g2)
  | None =>
      match s with
      | c :: s' => if isdecimal c then None else match_lazy (c :: g1) s'
      | [] => None
      end
  end.
Proof. destruct s; reflexivity. Qed.

(** Group 1 is the text before the number without some of its closing
    white space. *)
Lemma match_lazy_groups (rest d : str) (g2 : option str) :
  no_digit rest → group2_of d g2 →
  ∀ g1, ∃ g1' ws,
    match_lazy g1 (rest ++ d) = Some (g1', g2)
    ∧ List.rev g1 ++ rest = g1' ++ ws ∧ spaces ws.
Proof.
  intros Hrest Hd. induction Hrest as [|c rest Hc Hrest IH]; intros g1.
  - exists (List.rev g1), []. rewrite match_lazy_eq. simpl.
    rewrite (match_tail_start d g2 Hd).
    split; [reflexivity | split; [reflexivity | constructor]].
  - rewrite match_lazy_eq.
    destruct (match_tail ((c :: rest) ++ d)) as [g|] eqn:Hg.
    + apply (match_tail_sound (c :: rest) d g2 g) in Hg as [Hsp ->];
        [|constructor; assumption | assumption].
      exists (List.rev g1), (c :: rest). auto.
    + rewrite <- app_comm_cons, Hc.
      destruct (IH (c :: g1)) as (g1' & ws & Hm & Heq & Hws).
      exists g1', ws. split; [exact Hm | split; [|exact Hws]].
      rewrite <- Heq. simpl. rewrite <- app_assoc. reflexivity.
Qed.

(** The street holds its text before the number, trimmed, and the house
    numbers hold group 2, trimmed. *)
Lemma split_house_number_groups (text d : str) (g2 : option str) :
  text ≠ [] → no_digit text → group2_of d g2 →
  split_house_number (text ++ d) = (strip text, strip (or_empty g2)).
Proof.
  intros Hne Htext Hd. destruct text as [|c rest]; [contradiction|].
  inversion Htext as [|? ? Hc Hrest]; subst.
  unfold split_house_number, match_street. rewrite <- app_comm_cons, Hc.
  destruct (match_lazy_groups rest d g2 Hrest Hd [c])
    as (g1' & ws & -> & Heq & Hws).
  simpl in Heq. rewrite Heq, strip_spaces_r by exact Hws. reflexivity.
Qed.

(** ** Words *)

Lemma split_from_spaces_l (ws x : str) :
  spaces ws → split_from [] (ws ++ x) = split_from [] x.
Proof.
  induction 1 as [|c ws Hc _ IH]; simpl; [reflexivity|].
  rewrite Hc. exact IH.
Qed.

Lemma split_from_spaces_end (ws tok : str) :
  spaces ws → split_from tok ws = flush tok.
Proof.
  intros H. revert tok. induction H as [|c ws Hc _ IH]; intros tok; simpl.
  - reflexivity.
  - rewrite Hc, IH. simpl. apply app_nil_r.
Qed.

Lemma split_from_spaces_r (x ws : str) :
  spaces ws → ∀ tok, split_from tok (x ++ ws) = split_from tok x.
Proof.
  intros H. induction x as [|c x IH]; intros tok; simpl.
  - apply split_from_spaces_end, H.
  - destruct (isspace c); rewrite IH; reflexivity.
Qed.

(** White space around a text does not change its words. *)
Lemma split_strip (p : str) : split (strip p) = split p.
Proof.
  unfold split, strip.
  destruct (rstrip_split p) as (wr & Er & Hr).
  destruct (lstrip_split (rstrip p)) as (wl & El & Hl).
  rewrite Er at 2. rewrite split_from_spaces_r by exact Hr.
  rewrite El at 2. rewrite split_from_spaces_l by exact Hl. reflexivity.
Qed.

Lemma split_location_words (lage : str) :
  split_location lage
  = (strip (List.nth 0 (split_on comma lage) []),
     first_word (List.nth 1 (split_on comma lage) [])).
Proof.
  unfold split_location, first_word.
  destruct (split_on comma lage) as [|p0 [|p1 rest]]; simpl;
    rewrite ?split_strip; reflexivity.
Qed.

(** ** The street and its number *)

Lemma leading_and_rest (s : str) :
  s = leading_non_digits s ++ from_first_digit s.
Proof.
  induction s as [|c s IH]; simpl; [reflexivity|].
  destruct (isdecimal c); simpl; congruence.
Qed.

Lemma leading_no_digit (s : str) : no_digit (leading_non_digits s).
Proof.
  induction s as [|c s IH]; simpl; [constructor|].
  destruct (isdecimal c) eqn:E; constructor; assumption.
Qed.

Lemma from_first_digit_cases (s : str) :
  from_first_digit s = [] ∨ starts_with_digit (from_first_digit s).
Proof.
  induction s as [|c s IH]; simpl; [auto|].
  destruct (isdecimal c) eqn:E; [|exact IH].
  right. exists c, s. auto.
Qed.

Lemma leading_nonempty (s : str) :
  s ≠ [] → ¬ starts_with_digit s → leading_non_digits s ≠ [].
Proof.
  destruct s as [|c s]; [contradiction|]. intros _ H. simpl.
  destruct (isdecimal c) eqn:E; [|discriminate].
  exfalso. apply H. exists c, s. auto.
Qed.

(** Where the street does not start with a digit and its number has no
    line feed, the pattern cuts at the first digit. *)
Lemma split_house_number_at_first_digit (street : str) :
  ¬ starts_with_digit street → one_line (from_first_digit street) →
  split_house_number street
  = (strip (leading_non_digits street), strip (from_first_digit street)).
Proof.
  intros Hstart Hline. destruct street as [|c0 r0] eqn:Es; [reflexivity|].
  rewrite <- Es in *.
  assert (Hne : street ≠ []) by (rewrite Es; discriminate).
  pose proof (leading_nonempty street Hne Hstart) as Hlead.
  rewrite (leading_and_rest street) at 1.
  destruct (from_first_digit_cases street) as [E|Hd].
  - rewrite (split_house_number_groups _ _ None);
      [rewrite E; reflexivity | exact Hlead | apply leading_no_digit|].
    left. auto.
  - rewrite (split_house_number_groups _ _ (Some (from_first_digit street)));
      [reflexivity | exact Hlead | apply leading_no_digit|].
    right. auto.
Qed.

(** A street with no digit is trimmed, and no house number comes of it. *)
Lemma no_digit_from_first (s : str) : no_digit s → from_first_digit s = [].
Proof.
  induction 1 as [|c s Hc _ IH]; simpl; [reflexivity|]. rewrite Hc. exact IH.
Qed.

Lemma no_digit_leading (s : str) : no_digit s → leading_non_digits s = s.
Proof.
  induction 1 as [|c s Hc _ IH]; simpl; [reflexivity|].
  rewrite Hc. congruence.
Qed.

Lemma split_house_number_no_digit (street : str) :
  no_digit street → split_house_number street = (strip street, []).
Proof.
  intros H. rewrite split_house_number_at_first_digit.
  - rewrite (no_digit_from_first _ H), (no_digit_leading _ H). reflexivity.
  - intros (c & r & -> & Hc). inversion H; congruence.
  - rewrite (no_digit_from_first _ H). constructor.
Qed.

(** A street that is empty or starts with a digit is not cut. *)
Lemma split_house_number_unmatched (street : str) :
  street = [] ∨ starts_with_digit street →
  split_house_number street = (street, []).
Proof.
  intros [->|(c & r & -> & Hc)]; [reflexivity|].
  unfold split_house_number, match_street. rewrite Hc. reflexivity.
Qed.

Lemma house_number_needs_leading_text (street : str) :
  snd (split_house_number street) ≠ [] →
  ∃ c r, street = c :: r ∧ isdecimal c = false.
Proof.
  destruct street as [|c r].
  - intros H. exfalso. apply H. reflexivity.
  - destruct (isdecimal c) eqn:Hc; [|eauto].
    intros H. exfalso. apply H.
    rewrite split_house_number_unmatched; [reflexivity|].
    right. exists c, r. auto.
Qed.

(** ** Keywords *)

Lemma startswith_spec (s p : str) :
  startswith s p = true ↔ ∃ after, s = p ++ after.
Proof.
  revert s. induction p as [|x p IH]; intros [|y s]; simpl.
  - split; [intros _; exists []; reflexivity | reflexivity].
  - split; [intros _; exists (y :: s); reflexivity | reflexivity].
  - split; [discriminate | intros (after & [=])].
  - rewrite andb_true_iff, N.eqb_eq, IH. split.
    + intros (-> & after & ->). exists after. reflexivity.
    + intros (after & [= -> ->]). eauto.
Qed.

Lemma contains_eq (sub s : str) :
  contains sub s
  = startswith s sub
    || match s with
       | [] => false
       | _ :: s' => contains sub s'
       end.
Proof. destruct s; reflexivity. Qed.

Lemma contains_spec (sub s : str) : contains sub s = true ↔ occurs_in sub s.
Proof.
  unfold occurs_in. induction s as [|c s IH]; rewrite contains_eq.
  - rewrite orb_false_r, startswith_spec. split.
    + intros (after & E). exists [], after. exact E.
    + intros (before & after & E). symmetry in E.
      apply app_eq_nil in E as [-> E]. exists after. auto.
  - rewrite orb_true_iff, IH, startswith_spec. split.
    + intros [(after & E)|(before & after & E)].
      * exists [], after. exact E.
      * exists (c :: before), after. rewrite E. reflexivity.
    + intros ([|c' before] & after & E).
      * left. exists after. exact E.
      * right. injection E as <- E. eauto.
Qed.

Lemma keyword_found (keywords : list (str * list str)) (text candidate : str) :
  List.existsb (fun kw => contains kw text)
    (default [] (dict_get candidate keywords)) = true
  ↔ candidate_matches keywords text candidate.
Proof.
  unfold candidate_matches. rewrite existsb_exists. split.
  - intros (kw & Hin & Hc). exists kw.
    rewrite list_elem_of_In, <- contains_spec. auto.
  - intros (kw & Hin & Hc). exists kw.
    rewrite <- list_elem_of_In, contains_spec. auto.
Qed.

Lemma first_property_type_Some keywords text candidates label :
  first_property_type keywords text candidates = Some label
  ↔ first_match keywords text candidates label.
Proof.
  unfold first_match. induction candidates as [|c cs IH]; simpl.
  - split; [discriminate|]. intros (before & after & E & _).
    destruct before; discriminate.
  - destruct (List.existsb _ _) eqn:Hm.
    + apply keyword_found in Hm. split.
      * intros [= <-]. exists [], cs. split; [reflexivity|].
        split; [exact Hm|]. intros c' Hc'. inversion Hc'.
      * intros ([|b before] & after & E & _ & Hnot).
        -- injection E as -> _. reflexivity.
        -- injection E as <- _. exfalso. apply (Hnot c); [left | exact Hm].
    + assert (Hno : ¬ candidate_matches keywords text c).
      { rewrite <- keyword_found, Hm. discriminate. }
      rewrite IH. split.
      * intros (before & after & -> & Hl & Hnot).
        exists (c :: before), after. split; [reflexivity|].
        split; [exact Hl|]. intros c' Hc'.
        apply elem_of_cons in Hc' as [->|Hc']; auto.
      * intros ([|b before] & after & E & Hl & Hnot).
        -- injection E as <- _. contradiction.
        -- injection E as <- ->. exists before, after.
           split; [reflexivity|]. split; [exact Hl|].
           intros c' Hc'. apply Hnot. right. exact Hc'.
Qed.

Lemma first_property_type_None keywords text candidates :
  first_property_type keywords text candidates = None
  ↔ ∀ c, c ∈ candidates → ¬ candidate_matches keywords text c.
Proof.
  induction candidates as [|c cs IH]; simpl.
  - split; [intros _ c Hc; inversion Hc | reflexivity].
  - destruct (List.existsb _ _) eqn:Hm.
    + apply keyword_found in Hm. split; [discriminate|].
      intros H. exfalso. apply (H c); [left | exact Hm].
    + assert (Hno : ¬ candidate_matches keywords text c).
      { rewrite <- keyword_found, Hm. discriminate. }
      rewrite IH. split.
      * intros H c' Hc'. apply elem_of_cons in Hc' as [->|Hc']; auto.
      * intros H c' Hc'. apply H. right. exact Hc'.
Qed.

(** A candidate with a keyword has a name. *)
Lemma app_match_named text candidate :
  candidate_matches App.property_keywords text candidate →
  nonempty candidate = true.
Proof.
  intros (kw & Hin & _). destruct candidate; [|reflexivity].
  inversion Hin.
Qed.

Lemma server_match_named text candidate :
  candidate_matches Server.property_keywords text candidate →
  nonempty candidate = true.
Proof.
  intros (kw & Hin & _). destruct candidate; [|reflexivity].
  inversion Hin.
Qed.

Lemma app_property_type_Some candidates text label :
  candidates ≠ [] →
  App.property_type candidates text = Some label
  ↔ first_match App.property_keywords text candidates label.
Proof.
  intros Hne. rewrite <- first_property_type_Some.
  unfold App.property_type, App.determine_property_type.
  destruct candidates as [|c cs]; [contradiction|].
  destruct (first_property_type _ _ _) as [p|] eqn:Hp; [|split; discriminate].
  apply first_property_type_Some in Hp as (_ & _ & _ & Hm & _).
  rewrite (app_match_named _ _ Hm). reflexivity.
Qed.

Lemma app_property_type_None candidates text :
  App.property_type candidates text = None
  ↔ candidates ≠ []
    ∧ ∀ c, c ∈ candidates → ¬ candidate_matches App.property_keywords text c.
Proof.
  rewrite <- first_property_type_None.
  unfold App.property_type, App.determine_property_type.
  destruct candidates as [|c cs]; [split; [discriminate | intros [H _]; contradiction]|].
  destruct (first_property_type _ _ _) as [p|] eqn:Hp.
  - apply first_property_type_Some in Hp as (_ & _ & _ & Hm & _).
    rewrite (app_match_named _ _ Hm). split; [discriminate | intros [_ [=]]].
  - split; auto.
Qed.

Lemma server_property_type_Some candidates text label :
  candidates ≠ [] →
  Server.property_type candidates text = Some label
  ↔ first_match Server.property_keywords text candidates label.
Proof.
  intros Hne. rewrite <- first_property_type_Some.
  unfold Server.property_type, Server._determine_property_type.
  destruct candidates as [|c cs]; [contradiction|].
  destruct (first_property_type _ _ _) as [p|] eqn:Hp; [|split; discriminate].
  apply first_property_type_Some in Hp as (_ & _ & _ & Hm & _).
  rewrite (server_match_named _ _ Hm). reflexivity.
Qed.

Lemma server_property_type_None candidates text :
  Server.property_type candidates text = None
  ↔ candidates ≠ []
    ∧ ∀ c, c ∈ candidates
        → ¬ candidate_matches Server.property_keywords text c.
Proof.
  rewrite <- first_property_type_None.
  unfold Server.property_type, Server._determine_property_type.
  destruct candidates as [|c cs]; [split; [discriminate | intros [H _]; contradiction]|].
  destruct (first_property_type _ _ _) as [p|] eqn:Hp.
  - apply first_property_type_Some in Hp as (_ & _ & _ & Hm & _).
    rewrite (server_match_named _ _ Hm). split; [discriminate | intros [_ [=]]].
  - split; auto.
Qed.

(** ** One entry *)

Lemma parse_nil : Server.GermanDateParser.parse [] = Return None.
Proof. reflexivity. Qed.

Lemma app_auction_datetime_returns (entry : ObjektEntry) :
  ∃ r, App.auction_datetime entry = Return r.
Proof.
  unfold App.auction_datetime.
  destruct (termin_as_date entry); [eauto|].
  destruct (nonempty _); [|eauto].
  rewrite parse_agree. apply parse_returns.
Qed.

Lemma server_auction_datetime_returns (entry : ObjektEntry) :
  ∃ r, Server.auction_datetime entry = Return r.
Proof.
  unfold Server.auction_datetime.
  destruct (termin_as_date entry); [eauto|].
  destruct (nonempty _); [|eauto]. apply parse_returns.
Qed.

Lemma app_auction_datetime_Some (entry : ObjektEntry) (dt : datetime) :
  App.auction_datetime entry = Return (Some dt)
  ↔ timestamp_from App.GermanDateParser.parse entry dt.
Proof.
  unfold App.auction_datetime, timestamp_from.
  destruct (termin_as_date entry) as [dt'|].
  - split; [intros [= ->]; auto|].
    intros [[= ->]|[[=] _]]. reflexivity.
  - destruct (termin_as_str entry) as [[|c s]|]; simpl.
    + split; [discriminate|]. intros [[=]|(_ & s & [= <-] & H)].
      rewrite parse_agree, parse_nil in H. discriminate.
    + split; [eauto 6|]. intros [[=]|(_ & s' & [= <-] & H)]. exact H.
    + split; [discriminate|]. intros [[=]|(_ & s & [=] & _)].
Qed.

Lemma server_auction_datetime_Some (entry : ObjektEntry) (dt : datetime) :
  Server.auction_datetime entry = Return (Some dt)
  ↔ timestamp_from
      (fun s => Server.GermanDateParser.parse (Server._fix_encoding s))
      entry dt.
Proof.
  unfold Server.auction_datetime, timestamp_from.
  destruct (termin_as_date entry) as [dt'|].
  - split; [intros [= ->]; auto|].
    intros [[= ->]|[[=] _]]. reflexivity.
  - destruct (termin_as_str entry) as [[|c s]|]; simpl.
    + split; [discriminate|]. intros [[=]|(_ & s & [= <-] & H)].
      discriminate H.
    + split; [eauto 6|]. intros [[=]|(_ & s' & [= <-] & H)]. exact H.
    + split; [discriminate|]. intros [[=]|(_ & s & [=] & _)].
Qed.

(** What it takes for an entry to be listed. *)
Lemma app_entry_listing_Some state ats pts min_date entry l :
  App.entry_listing state ats pts min_date (Objekt entry) = Some l
  ↔ ∃ dt prop,
      App.auction_datetime entry = Return (Some dt)
      ∧ date_ltb (dt_date dt) min_date = false
      ∧ auction_rejected ats (App.auction_type entry) = false
      ∧ App.property_type pts (App.entry_text entry) = Some prop
      ∧ l = App.listing_of state entry dt (App.auction_type entry) prop.
Proof.
  unfold App.entry_listing, App.entry_body.
  destruct (App.auction_datetime entry) as [[dt|]|ex]; cbn [mbind outcome_bind try_except].
  - destruct (date_ltb (dt_date dt) min_date) eqn:Hd; cbn [mbind outcome_bind try_except].
    { split; [discriminate|]. intros (? & ? & [= <-] & ? & _). congruence. }
    destruct (auction_rejected ats (App.auction_type entry)) eqn:Ha; cbn [mbind outcome_bind try_except].
    { split; [discriminate|]. intros (? & ? & _ & _ & ? & _). congruence. }
    destruct (App.property_type pts (App.entry_text entry)) as [p|] eqn:Hp;
      cbn [mbind outcome_bind try_except].
    + split.
      * intros [= <-]. exists dt, p. auto.
      * intros (? & ? & [= <-] & _ & _ & [= <-] & ->). reflexivity.
    + split; [discriminate|]. intros (? & ? & _ & _ & _ & [=] & _).
  - split; [discriminate|]. intros (? & ? & [=] & _).
  - split; [discriminate|]. intros (? & ? & [=] & _).
Qed.

Lemma server_entry_listing_Some state ats pts min_date entry l :
  Server.entry_listing state ats pts min_date (Objekt entry) = Some l
  ↔ ∃ dt prop,
      Server.auction_datetime entry = Return (Some dt)
      ∧ date_ltb (dt_date dt) min_date = false
      ∧ auction_rejected ats (Server.auction_type entry) = false
      ∧ Server.property_type pts (Server.entry_text entry) = Some prop
      ∧ l = Server.listing_of state entry dt (Server.auction_type entry) prop.
Proof.
  unfold Server.entry_listing, Server.entry_body.
  destruct (Server.auction_datetime entry) as [[dt|]|ex]; cbn [mbind outcome_bind try_except].
  - destruct (date_ltb (dt_date dt) min_date) eqn:Hd; cbn [mbind outcome_bind try_except].
    { split; [discriminate|]. intros (? & ? & [= <-] & ? & _). congruence. }
    destruct (auction_rejected ats (Server.auction_type entry)) eqn:Ha; cbn [mbind outcome_bind try_except].
    { split; [discriminate|]. intros (? & ? & _ & _ & ? & _). congruence. }
    destruct (Server.property_type pts (Server.entry_text entry))
      as [p|] eqn:Hp; cbn [mbind outcome_bind try_except].
    + split.
      * intros [= <-]. exists dt, p. auto.
      * intros (? & ? & [= <-] & _ & _ & [= <-] & ->). reflexivity.
    + split; [discriminate|]. intros (? & ? & _ & _ & _ & [=] & _).
  - split; [discriminate|]. intros (? & ? & [=] & _).
  - split; [discriminate|]. intros (? & ? & [=] & _).
Qed.

Lemma app_listing_fields state entry dt art prop :
  l_date (App.listing_of state entry dt art prop) = strftime_date dt
  ∧ l_time (App.listing_of state entry dt art prop) = strftime_time dt
  ∧ l_state (App.listing_of state entry dt art prop) = state
  ∧ l_auctionType (App.listing_of state entry dt art prop) = art
  ∧ l_propertyType (App.listing_of state entry dt art prop) = prop.
Proof.
  unfold App.listing_of. destruct (App.address entry) as [[[? ?] ?] ?].
  simpl. auto.
Qed.

Lemma server_listing_fields state entry dt art prop :
  l_date (Server.listing_of state entry dt art prop) = strftime_date dt
  ∧ l_time (Server.listing_of state entry dt art prop) = strftime_time dt
  ∧ l_state (Server.listing_of state entry dt art prop) = state
  ∧ l_auctionType (Server.listing_of state entry dt art prop) = art
  ∧ l_propertyType (Server.listing_of state entry dt art prop) = prop.
Proof.
  unfold Server.listing_of.
  destruct (Server.address entry _) as [[[? ?] ?] ?]. simpl. auto.
Qed.

(** ** The cache *)

(** *** Rounding to binary64 *)

Lemma round_half_even_floor (n d : Z) :
  (n / d <= round_half_even n d)%Z.
Proof.
  unfold round_half_even.
  destruct (2 * (n mod d) ?= d)%Z; [destruct (Z.even (n / d))| |]; lia.
Qed.

Lemma round_half_even_lower (n d z : Z) :
  (0 < d)%Z → (z * d <= n)%Z → (z <= round_half_even n d)%Z.
Proof.
  intros Hd H. pose proof (round_half_even_floor n d).
  assert (z <= n / d)%Z by (apply Z.div_le_lower_bound; lia). lia.
Qed.

(** The leading one of [n / d] is where [ulp_exponent] takes it to be. *)
Lemma ulp_exponent_binade (n d : Z) :
  (0 < n)%Z → (0 < d)%Z → (0 < ulp_exponent n d)%Z →
  (d * 2 ^ (ulp_exponent n d + 52) <= n)%Z.
Proof.
  intros Hn Hd. unfold ulp_exponent.
  set (k0 := (Z.log2 n - Z.log2 d)%Z).
  destruct (at_least_pow2 n d k0) eqn:E; intros He.
  - replace (Z.max (k0 - 52) (-1074) + 52)%Z with k0 by lia.
    unfold at_least_pow2 in E.
    destruct (0 <=? k0)%Z eqn:Ek; [apply Z.leb_le in E; exact E | lia].
  - replace (Z.max (k0 - 1 - 52) (-1074) + 52)%Z with (k0 - 1)%Z by lia.
    destruct (Z.log2_spec n Hn) as [Hn1 _].
    destruct (Z.log2_spec d Hd) as [_ Hd2].
    pose proof (Z.log2_nonneg d) as Hld.
    assert (Hk : (0 <= k0 - 1)%Z) by lia.
    assert (Hp : (2 ^ Z.log2 n = 2 ^ (k0 - 1) * 2 ^ Z.succ (Z.log2 d))%Z).
    { rewrite <- Z.pow_add_r by lia. f_equal. unfold k0. lia. }
    assert (H2k : (0 < 2 ^ (k0 - 1))%Z) by (apply Z.pow_pos_nonneg; lia).
    nia.
Qed.

(** A float is not below an integer that the number it was rounded from
    is not below. *)
Lemma round64_reaches (q : Q) (z : Z) :
  (z <= 2 ^ 53)%Z → (0 <= q)%Q → (inject_Z z <= q)%Q →
  float_lt_int (round64 q) z = false.
Proof.
  destruct q as [n d]. unfold Qle, round64. cbn [Qnum Qden inject_Z].
  intros Hz Hq Hzq. rewrite Z.mul_1_r in Hq, Hzq.
  destruct n as [|p|p]; [| |lia].
  - cbn [float_lt_int]. apply negb_false_iff, Qle_bool_iff.
    unfold Qle. cbn. lia.
  - assert (Hn : (0 < Z.pos p)%Z) by lia.
    assert (Hd : (0 < Z.pos d)%Z) by lia.
    change (Z.abs (Z.pos p)) with (Z.pos p). unfold round64_pos.
    set (e := ulp_exponent (Z.pos p) (Z.pos d)).
    pose proof (ulp_exponent_binade (Z.pos p) (Z.pos d) Hn Hd) as Hb.
    fold e in Hb.
    destruct (2 ^ 1024 <=? _)%Z; [reflexivity|].
    cbn [float_lt_int]. apply negb_false_iff, Qle_bool_iff.
    unfold scaled. change (Z.pos p <? 0)%Z with false. cbv iota.
    destruct (0 <=? e)%Z eqn:Ee.
    + apply Z.leb_le in Ee. rewrite <- Zle_Qle.
      assert (H2e : (0 < 2 ^ e)%Z) by (apply Z.pow_pos_nonneg; lia).
      destruct (Z.eq_dec e 0%Z) as [->|Hne].
      * rewrite Z.pow_0_r, !Z.mul_1_r.
        apply round_half_even_lower; lia.
      * specialize (Hb ltac:(lia)).
        rewrite Z.pow_add_r in Hb by lia.
        assert (Hm : (2 ^ 52 <= round_half_even (Z.pos p) (Z.pos d * 2 ^ e))%Z).
        { apply round_half_even_lower; lia. }
        assert (H2 : (2 <= 2 ^ e)%Z).
        { change 2%Z with (2 ^ 1)%Z at 1. apply Z.pow_le_mono_r; lia. }
        change (2 ^ 53)%Z with (2 ^ 52 * 2)%Z in Hz. nia.
    + apply Z.leb_gt in Ee.
      assert (H2e : (0 < 2 ^ (- e))%Z) by (apply Z.pow_pos_nonneg; lia).
      unfold Qle. cbn [Qnum Qden inject_Z].
      rewrite Z2Pos.id by exact H2e. rewrite Z.mul_1_r.
      apply round_half_even_lower; [lia|]. nia.
Qed.

(** *** The slots *)

Lemma fresh_stale (now : Q) (slot : Server.CacheSlot) (ttl : Z) :
  (ttl <= 2 ^ 53)%Z → (0 <= now - Server.ts slot)%Q →
  (inject_Z ttl <= now - Server.ts slot)%Q →
  Server.fresh now slot ttl = false.
Proof. apply round64_reaches. Qed.

(** The age is the rounded difference: fewer than 1800 seconds lie
    between the floats nearest to 0.1 and to 1800.1, and between those
    nearest to 5.1 and to 1805.1; either difference as a float is 1800,
    which is not below a time-to-live of 1800. *)
Remark age_is_rounded :
  let t0 := (3602879701896397 # 36028797018963968)%Q in
  let t1 := (3958461762319155 # 2199023255552)%Q in
  let t2 := (2871044762448691 # 562949953421312)%Q in
  let t3 := (3969456878596915 # 2199023255552)%Q in
  (t1 - t0 < 1800)%Q
  ∧ Server.fresh t1 {| Server.ts := t0; Server.entries := [] |} 1800 = false
  ∧ (t3 - t2 < 1800)%Q
  ∧ Server.fresh t3 {| Server.ts := t2; Server.entries := [] |} 1800 = false.
Proof. repeat split; vm_compute; reflexivity. Qed.

Lemma refresh_refreshed portal_list now land w :
  refreshed portal_list now land w
    (match portal_list land with
     | Raise e =>
         (Raise e,
          {| Server.self := Server.self w;
             Server.upstream_calls := land :: Server.upstream_calls w |})
     | Return es =>
         (Return es,
          {| Server.self :=
               {| Server.state_map := Server.state_map (Server.self w);
                  Server._entries_cache :=
                    <[name land := {| Server.ts := now; Server.entries := es |}]>
                      (Server._entries_cache (Server.self w));
                  Server._cache_ttl_seconds :=
                    Server._cache_ttl_seconds (Server.self w) |};
             Server.upstream_calls := land :: Server.upstream_calls w |})
     end).
Proof.
  unfold refreshed. destruct (portal_list land) as [es|e]; simpl;
    repeat split; try reflexivity; intros ? [=]; subst; reflexivity.
Qed.

Lemma cached_hit portal_list now land w slot :
  Server._entries_cache (Server.self w) !! name land = Some slot →
  Server.fresh now slot (Server._cache_ttl_seconds (Server.self w)) = true →
  Server._get_entries_cached portal_list now land w
  = (Return (Server.entries slot), w).
Proof.
  intros Hslot Hfresh. unfold Server._get_entries_cached.
  rewrite Hslot, Hfresh. reflexivity.
Qed.

Lemma cached_stale portal_list now land w slot :
  Server._entries_cache (Server.self w) !! name land = Some slot →
  Server.fresh now slot (Server._cache_ttl_seconds (Server.self w)) = false →
  refreshed portal_list now land w
    (Server._get_entries_cached portal_list now land w).
Proof.
  intros Hslot Hfresh. unfold Server._get_entries_cached.
  rewrite Hslot, Hfresh. apply refresh_refreshed.
Qed.

Lemma cached_miss portal_list now land w :
  Server._entries_cache (Server.self w) !! name land = None →
  refreshed portal_list now land w
    (Server._get_entries_cached portal_list now land w).
Proof.
  intros Hslot. unfold Server._get_entries_cached.
  rewrite Hslot. apply refresh_refreshed.
Qed.

Lemma init_ttl laender env_ttl ttl :
  int_of_str (default Server.default_ttl env_ttl) = Some ttl →
  ∃ backend,
    Server.init laender env_ttl = Return backend
    ∧ Server._cache_ttl_seconds backend = ttl
    ∧ Server._entries_cache backend = ∅
    ∧ Server.state_map backend = Server.build_state_map laender.
Proof.
  intros H. unfold Server.init, int. rewrite H. cbn. eauto.
Qed.

(** ** The query string *)

Lemma parse_qs_fold (key : str) (query : list (str * str)) :
  ∀ acc : gmap str (list str),
    List.fold_left
      (fun params '(k, v) => <[k := default [] (params !! k) ++ [v]]> params)
      query acc !! key
    = match values_of key query with
      | [] => acc !! key
      | vs => Some (default [] (acc !! key) ++ vs)
      end.
Proof.
  unfold values_of. induction query as [|[k v] query IH]; intros acc.
  - reflexivity.
  - cbn [List.fold_left List.filter fst]. rewrite IH.
    destruct (eqb k key) eqn:E.
    + apply eqb_eq in E. subst k. cbn [List.map snd].
      rewrite lookup_insert_eq. cbn [default].
      destruct (List.map snd _) as [|v' vs'].
      * reflexivity.
      * cbv [id]. rewrite <- app_assoc. reflexivity.
    + apply eqb_neq in E. rewrite lookup_insert_ne by exact E. reflexivity.
Qed.

(** [parse_qs] collects under each key its values, in order. *)
Lemma parse_qs_lookup (key : str) (query : list (str * str)) :
  Server.parse_qs query !! key
  = match values_of key query with
    | [] => None
    | vs => Some vs
    end.
Proof.
  unfold Server.parse_qs. rewrite parse_qs_fold, lookup_empty. reflexivity.
Qed.

Lemma first_value_hd (key fallback : str) (query : list (str * str)) :
  Server.first_value (Server.parse_qs query) key fallback
  = Return (List.hd fallback (values_of key query)).
Proof.
  unfold Server.first_value. rewrite parse_qs_lookup.
  destruct (values_of key query); reflexivity.
Qed.

Lemma min_days_of_default (s : str) :
  Server.min_days_of s = Return (default 0%Z (int_of_str s)).
Proof.
  unfold Server.min_days_of, int. destruct (int_of_str s); reflexivity.
Qed.

(** The handler of the search path, with the parameters read. *)
Lemma do_GET_search portal_list clock now query w :
  Server.do_GET portal_list clock now Server.api_search query w
  = Server.respond
      (Server.search portal_list clock now
         (List.hd [] (values_of Server.k_state query))
         (comma_list (List.hd [] (values_of Server.k_auctionTypes query)))
         (comma_list (List.hd [] (values_of Server.k_propertyTypes query)))
         (default 0%Z
            (int_of_str (List.hd Server.zero (values_of Server.k_minDays query)))))
      w.
Proof.
  unfold Server.do_GET. rewrite eqb_refl.
  unfold mbind, Server.method_bind, Server.lift. cbv beta zeta.
  do 4 (rewrite first_value_hd; cbv beta iota).
  rewrite min_days_of_default. reflexivity.
Qed.

Lemma do_GET_returns portal_list clock now path query w :
  ∃ response, fst (Server.do_GET portal_list clock now path query w)
              = Return response.
Proof.
  destruct (eqb path Server.api_search) eqn:E.
  - apply eqb_eq in E. subst path. rewrite do_GET_search.
    unfold Server.respond. destruct (Server.search _ _ _ _ _ _ _ w) as [[r|e] w'];
      simpl; eauto.
  - unfold Server.do_GET. rewrite E. simpl. eauto.
Qed.

(** ** The search *)

Lemma app_search_unknown state_map portal_list now state aT pT minDays :
  App.resolve state_map state = None →
  App.search state_map portal_list now state aT pT minDays
  = Raise (HTTPException 400 (App.unknown_state ++ state)).
Proof. intros H. unfold App.search. rewrite H. reflexivity. Qed.

Lemma app_search_Return state_map portal_list now state aT pT minDays results :
  App.search state_map portal_list now state aT pT minDays = Return results →
  ∃ land min_date raws,
    App.resolve state_map state = Some land
    ∧ plus_days now minDays = Return min_date
    ∧ portal_list land = Return raws
    ∧ results
      = omap (App.entry_listing state (comma_list aT) (comma_list pT) min_date)
          raws.
Proof.
  unfold App.search. destruct (App.resolve state_map state) as [land|];
    [|discriminate].
  intros H. apply outcome_bind_Return in H as (min_date & Hmin & H).
  apply outcome_bind_Return in H as (raws & Hraws & [= <-]).
  exists land, min_date, raws. auto.
Qed.

Lemma server_search_unknown portal_list clock now state ats pts min_days w :
  Server.state_map (Server.self w) !! state = None →
  Server.search portal_list clock now state ats pts min_days w
  = (Return [], w).
Proof. intros H. unfold Server.search. rewrite H. reflexivity. Qed.

Lemma server_search_Return portal_list clock now state ats pts min_days w
    results w' :
  Server.search portal_list clock now state ats pts min_days w
  = (Return results, w') →
  (Server.state_map (Server.self w) !! state = None ∧ results = [])
  ∨ ∃ land min_date raws,
      Server.state_map (Server.self w) !! state = Some land
      ∧ plus_days now min_days = Return min_date
      ∧ Server._get_entries_cached portal_list clock land w
        = (Return raws, w')
      ∧ results = omap (Server.entry_listing state ats pts min_date) raws.
Proof.
  unfold Server.search.
  destruct (Server.state_map (Server.self w) !! state) as [land|];
    [|intros [= <- _]; left; split; reflexivity].
  unfold mbind, Server.method_bind, Server.lift.
  destruct (plus_days now min_days) as [min_date|e]; [|discriminate].
  destruct (Server._get_entries_cached portal_list clock land w)
    as [[raws|e] w1] eqn:Hc; [|discriminate].
  intros [= <- <-]. right. exists land, min_date, raws. auto.
Qed.

(** ** The registry of [app.py] *)

Lemma app_store_fold land (vs : list str) :
  ∀ (m : gmap str Land) (key : str),
    List.fold_left (App.store_variant land) vs m !! key
    = if List.existsb
           (fun v => eqb (default v (dict_get v App.short2full)) key) vs
      then Some land
      else m !! key.
Proof.
  induction vs as [|v vs IH]; intros m key; [reflexivity|].
  cbn [List.fold_left List.existsb]. rewrite IH. unfold App.store_variant.
  destruct (List.existsb _ vs); [rewrite orb_true_r; reflexivity|].
  rewrite orb_false_r.
  destruct (eqb (default v (dict_get v App.short2full)) key) eqn:E.
  - apply eqb_eq in E. rewrite E, lookup_insert_eq. reflexivity.
  - apply eqb_neq in E. rewrite lookup_insert_ne by exact E. reflexivity.
Qed.

(** Each pass of the loop stores its state under the sixteen names of the
    table, whatever the state. *)
Lemma app_register_table (m : gmap str Land) (land : Land) (full : str) :
  full ∈ List.map snd App.short2full →
  App.register m land !! full = Some land.
Proof.
  intros Hfull. unfold App.register. rewrite app_store_fold.
  replace (List.existsb _ (App.variants land)) with true; [reflexivity|].
  symmetry. unfold App.variants. rewrite existsb_app. apply orb_true_iff. right.
  apply existsb_exists.
  assert (Hall : Forall (fun p => dict_get (fst p) App.short2full = Some (snd p))
                   App.short2full).
  { repeat constructor. }
  apply list_elem_of_In, in_map_iff in Hfull as ([short full'] & <- & Hin).
  rewrite List.Forall_forall in Hall. specialize (Hall _ Hin). cbn [fst snd] in Hall.
  exists short. split; [apply in_map_iff; exists (short, full'); auto|].
  rewrite Hall. apply eqb_refl.
Qed.

(** The sixteen names of the table all lead to the state that the
    provider lists last. *)
Lemma app_state_map_last (laender : list Land) (land : Land) (full : str) :
  full ∈ List.map snd App.short2full →
  App.state_map (laender ++ [land]) !! full = Some land.
Proof.
  intros H. unfold App.state_map. rewrite fold_left_app. simpl.
  apply app_register_table, H.
Qed.

(** * The claims *)

(** C9.  The parser reads "Montag, 07. August 2025, 10:00 Uhr" as
    2025-08-07 10:00 and "Dienstag, 1. Januar 2024, 9:05 Uhr" as
    2024-01-01 09:05, and it fails on every string whose date segment has a
    month name that is none of the twelve of [MONTHS]. *)
Theorem parse_examples_and_unknown_month :
  let august := Datetime (Date 2025 8 7) 10 0 in
  let januar := Datetime (Date 2024 1 1) 9 5 in
  (App.GermanDateParser.parse (u "Montag, 07. August 2025, 10:00 Uhr")
   = Return (Some august)
   ∧ Server.GermanDateParser.parse (u "Montag, 07. August 2025, 10:00 Uhr")
     = Return (Some august)
   ∧ strftime_date august = u "2025-08-07"
   ∧ strftime_time august = u "10:00")
  ∧ (App.GermanDateParser.parse (u "Dienstag, 1. Januar 2024, 9:05 Uhr")
     = Return (Some januar)
     ∧ Server.GermanDateParser.parse (u "Dienstag, 1. Januar 2024, 9:05 Uhr")
       = Return (Some januar)
     ∧ strftime_date januar = u "2024-01-01"
     ∧ strftime_time januar = u "09:05")
  ∧ ∀ s day_part month_name year_str,
      date_tokens s = [day_part; month_name; year_str] →
      month_name ∉ List.map fst MONTHS →
      App.GermanDateParser.parse s = Return None
      ∧ Server.GermanDateParser.parse s = Return None.
Proof.
  cbv zeta. split; [|split].
  - repeat split; vm_compute; reflexivity.
  - repeat split; vm_compute; reflexivity.
  - intros s d m y Htok Hmonth. rewrite parse_agree.
    assert (H : Server.GermanDateParser.parse s = Return None).
    { destruct (parse_returns s) as [[dt|] Hr]; [|exact Hr].
      apply parse_Some_reads in Hr. exfalso.
      apply (deviation_not_read s dt); [|exact Hr].
      eapply unknown_month; eauto. }
    auto.
Qed.

Lemma parse_examples_and_unknown_month_witness :
  date_tokens (u "Montag, 07. Augustus 2025, 10:00 Uhr")
  = [u "07"; u "Augustus"; u "2025"]
  ∧ App.GermanDateParser.parse (u "Montag, 07. Augustus 2025, 10:00 Uhr")
    = Return None
  ∧ Server.GermanDateParser.parse (u "Montag, 07. Augustus 2025, 10:00 Uhr")
    = Return None.
Proof.
  split; [vm_compute; reflexivity|].
  apply (proj2 (proj2 parse_examples_and_unknown_month)
           (u "Montag, 07. Augustus 2025, 10:00 Uhr")
           (u "07") (u "Augustus") (u "2025")).
  - vm_compute. reflexivity.
  - apply dict_get_None. vm_compute. reflexivity.
Defined.

(** C5.  On a string that deviates from the pattern in one of the listed
    ways (fewer than three segments between commas; a date segment that
    is not three tokens, or a time segment that is not two; a day, year,
    hour or minute that [int] does not accept; a month name outside
    [MONTHS]) both parsers return, and what they return is [None]. *)
Theorem parse_fails_on_deviation (s : str) :
  deviation s →
  App.GermanDateParser.parse s = Return None
  ∧ Server.GermanDateParser.parse s = Return None.
Proof.
  intros Hdev. rewrite parse_agree.
  assert (H : Server.GermanDateParser.parse s = Return None).
  { destruct (parse_returns s) as [[dt|] Hr]; [|exact Hr].
    apply parse_Some_reads in Hr. exfalso.
    exact (deviation_not_read s dt Hdev Hr). }
  auto.
Qed.

Lemma parse_fails_on_deviation_witness :
  deviation (u "Montag, 7. August 2025, zehn:00 Uhr")
  ∧ App.GermanDateParser.parse (u "Montag, 7. August 2025, zehn:00 Uhr")
    = Return None
  ∧ Server.GermanDateParser.parse (u "Montag, 7. August 2025, zehn:00 Uhr")
    = Return None.
Proof.
  assert (Hdev : deviation (u "Montag, 7. August 2025, zehn:00 Uhr")).
  { apply (hour_not_numeric _ (u "zehn") (u "00")); vm_compute; reflexivity. }
  split; [exact Hdev|].
  exact (parse_fails_on_deviation _ Hdev).
Defined.

(** C10.  A street that is empty or starts with a digit is left as it is,
    with no house number: in the pattern itself, in the address of
    [app.py], and in that of [server.py], where the street is the
    repaired text. *)
Theorem street_without_leading_text_kept (street : str) :
  street = [] ∨ starts_with_digit street →
  split_house_number street = (street, [])
  ∧ (∀ entry a,
       adresse entry = Some a → or_empty (strasse a) = street →
       App.address entry = (street, [], or_empty (plz a), or_empty (ort a)))
  ∧ (∀ entry a lage,
       adresse entry = Some a →
       Server._fix_encoding (or_empty (strasse a)) = street →
       Server.address entry lage
       = (street, [], Server._fix_encoding (or_empty (plz a)),
          Server._fix_encoding (or_empty (ort a)))).
Proof.
  intros H. pose proof (split_house_number_unmatched street H) as Hs.
  split; [exact Hs|]. split.
  - intros entry a Ha Hst. unfold App.address. rewrite Ha, Hst, Hs. reflexivity.
  - intros entry a lage Ha Hst. unfold Server.address.
    rewrite Ha, Hst, Hs. reflexivity.
Qed.

Lemma street_without_leading_text_kept_witness :
  starts_with_digit (u "1. Südwieke 12")
  ∧ App.address suedwieke_entry
    = (u "1. Südwieke 12", [], u "26842", u "Ostrhauderfehn").
Proof.
  assert (H : starts_with_digit (u "1. Südwieke 12")).
  { exists 49%N, (u ". Südwieke 12"). split; vm_compute; reflexivity. }
  split; [exact H|].
  apply (proj1 (proj2 (street_without_leading_text_kept _ (or_intror H)))
           suedwieke_entry
           {| strasse := Some (u "1. Südwieke 12");
              plz := Some (u "26842"); ort := Some (u "Ostrhauderfehn") |});
    vm_compute; reflexivity.
Defined.

(** C7, as the specification states it, fails on a street that starts
    with a digit: the specification makes the street empty and the whole
    text the house number, the code keeps the street and finds no house
    number. *)
Lemma street_with_leading_digit_not_split :
  App.address suedwieke_entry
  = (u "1. Südwieke 12", [], u "26842", u "Ostrhauderfehn")
  ∧ split_at_first_digit (u "1. Südwieke 12") = ([], u "1. Südwieke 12")
  ∧ fst (fst (fst (App.address suedwieke_entry)))
    ≠ fst (split_at_first_digit (u "1. Südwieke 12")).
Proof.
  split; [vm_compute; reflexivity|].
  split; [vm_compute; reflexivity|].
  vm_compute. discriminate.
Qed.

(** C7, amended.  With a structured address whose street does not start
    with a digit and has no line feed from its first digit on, the street
    is the text before the first digit, trimmed, and the house number is
    the text from the first digit on, trimmed; a street with no digit is
    trimmed and has no house number.  Postal code and city are passed on,
    an absent one as the empty text; [server.py] repairs the encoding of
    street, postal code and city first.  Without a structured address the
    location is cut at its commas: the street is the first segment,
    trimmed, the house number the first word of the second segment, empty
    when there is none, and postal code and city are empty. *)
Theorem address_split_at_first_digit (entry : ObjektEntry) :
  (∀ a, adresse entry = Some a →
     let street := or_empty (strasse a) in
     (¬ starts_with_digit street → one_line (from_first_digit street) →
      App.address entry
      = (strip (leading_non_digits street), strip (from_first_digit street),
         or_empty (plz a), or_empty (ort a)))
     ∧ (no_digit street →
        App.address entry
        = (strip street, [], or_empty (plz a), or_empty (ort a))))
  ∧ (∀ a, adresse entry = Some a →
       let street := Server._fix_encoding (or_empty (strasse a)) in
       let zip_code := Server._fix_encoding (or_empty (plz a)) in
       let city := Server._fix_encoding (or_empty (ort a)) in
       (¬ starts_with_digit street → one_line (from_first_digit street) →
        Server.address entry (Server.location entry)
        = (strip (leading_non_digits street),
           strip (from_first_digit street), zip_code, city))
       ∧ (no_digit street →
          Server.address entry (Server.location entry)
          = (strip street, [], zip_code, city)))
  ∧ (adresse entry = None →
     let segments := split_on comma (or_empty (objekt_lage entry)) in
     let repaired := split_on comma (Server.location entry) in
     App.address entry
     = (strip (List.nth 0 segments []), first_word (List.nth 1 segments []),
        [], [])
     ∧ Server.address entry (Server.location entry)
       = (strip (List.nth 0 repaired []), first_word (List.nth 1 repaired []),
          [], [])).
Proof.
  split; [|split].
  - intros a Ha street. unfold App.address. rewrite Ha. fold street. split.
    + intros H1 H2. rewrite (split_house_number_at_first_digit _ H1 H2).
      reflexivity.
    + intros H. rewrite (split_house_number_no_digit _ H). reflexivity.
  - intros a Ha street zip_code city. unfold Server.address. rewrite Ha.
    fold street zip_code city. split.
    + intros H1 H2. rewrite (split_house_number_at_first_digit _ H1 H2).
      reflexivity.
    + intros H. rewrite (split_house_number_no_digit _ H). reflexivity.
  - intros Ha segments repaired. unfold App.address, Server.address.
    rewrite Ha, !split_location_words. auto.
Qed.

Lemma address_split_at_first_digit_witness :
  App.address reihenhaus_entry
  = (u "Hauptstraße", u "12", u "99084", u "Erfurt").
Proof.
  refine (eq_trans
            (proj1 (proj1 (address_split_at_first_digit reihenhaus_entry)
                      {| strasse := Some (u "Hauptstraße 12");
                         plz := Some (u "99084");
                         ort := Some (u "Erfurt") |} _) _ _) _).
  - vm_compute. reflexivity.
  - intros (c & r & E & Hc). vm_compute in E. injection E as <- <-.
    vm_compute in Hc. discriminate Hc.
  - vm_compute. repeat constructor; discriminate.
  - vm_compute. reflexivity.
Defined.

(** C6.  For a text and the caller's candidates, in both backends: with
    no candidate the label is empty, and an entry that is not listed then
    is not listed with any candidates either; with candidates, the label
    is the first of them, in their order, one of whose keywords occurs in
    the text, and there is no label exactly when no candidate matches.
    An entry with this text is listed only under this label, and not at
    all where there is none. *)
Theorem property_type_is_first_matching_candidate
    (text : str) (candidates : list str) :
  (candidates = [] →
     App.property_type candidates text = Some []
     ∧ Server.property_type candidates text = Some [])
  ∧ (candidates ≠ [] →
     (∀ label,
        App.property_type candidates text = Some label
        ↔ first_match App.property_keywords text candidates label)
     ∧ (App.property_type candidates text = None
        ↔ ∀ c, c ∈ candidates
            → ¬ candidate_matches App.property_keywords text c)
     ∧ (∀ label,
          Server.property_type candidates text = Some label
          ↔ first_match Server.property_keywords text candidates label)
     ∧ (Server.property_type candidates text = None
        ↔ ∀ c, c ∈ candidates
            → ¬ candidate_matches Server.property_keywords text c))
  ∧ (∀ state auction_types min_date entry,
       App.entry_text entry = text →
       let listed := App.entry_listing state auction_types in
       (∀ l, listed candidates min_date (Objekt entry) = Some l →
             App.property_type candidates text = Some (l_propertyType l))
       ∧ (App.property_type candidates text = None →
          listed candidates min_date (Objekt entry) = None)
       ∧ (listed [] min_date (Objekt entry) = None →
          listed candidates min_date (Objekt entry) = None))
  ∧ (∀ state auction_types min_date entry,
       Server.entry_text entry = text →
       let listed := Server.entry_listing state auction_types in
       (∀ l, listed candidates min_date (Objekt entry) = Some l →
             Server.property_type candidates text = Some (l_propertyType l))
       ∧ (Server.property_type candidates text = None →
          listed candidates min_date (Objekt entry) = None)
       ∧ (listed [] min_date (Objekt entry) = None →
          listed candidates min_date (Objekt entry) = None)).
Proof.
  split; [|split; [|split]].
  - intros ->. split; reflexivity.
  - intros Hne. split; [|split; [|split]].
    + intros label. apply app_property_type_Some, Hne.
    + rewrite app_property_type_None. tauto.
    + intros label. apply server_property_type_Some, Hne.
    + rewrite server_property_type_None. tauto.
  - intros state ats min_date entry <- listed. subst listed.
    split; [|split].
    + intros l Hl. apply app_entry_listing_Some in Hl
        as (dt & prop & _ & _ & _ & Hp & ->).
      rewrite Hp. f_equal. symmetry. apply app_listing_fields.
    + intros Hnone.
      destruct (App.entry_listing state ats candidates min_date (Objekt entry))
        as [l|] eqn:Hl; [|reflexivity].
      apply app_entry_listing_Some in Hl as (? & ? & _ & _ & _ & Hp & _).
      congruence.
    + intros Hnone.
      destruct (App.entry_listing state ats candidates min_date (Objekt entry))
        as [l|] eqn:Hl; [|reflexivity].
      apply app_entry_listing_Some in Hl as (dt & prop & H1 & H2 & H3 & _ & _).
      assert (Hsome : App.entry_listing state ats [] min_date (Objekt entry)
                      = Some (App.listing_of state entry dt
                                (App.auction_type entry) [])).
      { apply app_entry_listing_Some. exists dt, []. auto. }
      congruence.
  - intros state ats min_date entry <- listed. subst listed.
    split; [|split].
    + intros l Hl. apply server_entry_listing_Some in Hl
        as (dt & prop & _ & _ & _ & Hp & ->).
      rewrite Hp. f_equal. symmetry. apply server_listing_fields.
    + intros Hnone.
      destruct (Server.entry_listing state ats candidates min_date
                  (Objekt entry)) as [l|] eqn:Hl; [|reflexivity].
      apply server_entry_listing_Some in Hl as (? & ? & _ & _ & _ & Hp & _).
      congruence.
    + intros Hnone.
      destruct (Server.entry_listing state ats candidates min_date
                  (Objekt entry)) as [l|] eqn:Hl; [|reflexivity].
      apply server_entry_listing_Some in Hl
        as (dt & prop & H1 & H2 & H3 & _ & _).
      assert (Hsome : Server.entry_listing state ats [] min_date (Objekt entry)
                      = Some (Server.listing_of state entry dt
                                (Server.auction_type entry) [])).
      { apply server_entry_listing_Some. exists dt, []. auto. }
      congruence.
Qed.

Lemma property_type_is_first_matching_candidate_witness :
  first_match App.property_keywords (u "reihenhaus mit garten")
    [u "Einfamilienhaus"; u "Reihenhaus"] (u "Reihenhaus").
Proof.
  apply (proj1 (proj2 (property_type_is_first_matching_candidate
                         (u "reihenhaus mit garten")
                         [u "Einfamilienhaus"; u "Reihenhaus"]))).
  - discriminate.
  - vm_compute. reflexivity.
Defined.

(** C4.  Every listing that a search returns comes from an entry of the
    provider that has a timestamp, the structured one or else the one
    parsed from the free text, whose date is not before the minimum date,
    the date of [now] plus [minDays] days; the listing shows this
    timestamp. *)
Theorem listing_has_timestamp_not_before_min_date :
  (∀ state_map portal_list now state auctionTypes propertyTypes minDays
     results,
     App.search state_map portal_list now state auctionTypes propertyTypes
       minDays = Return results →
     ∀ l, l ∈ results →
       ∃ land raws min_date entry dt,
         portal_list land = Return raws
         ∧ Objekt entry ∈ raws
         ∧ plus_days now minDays = Return min_date
         ∧ App.entry_listing state (comma_list auctionTypes)
             (comma_list propertyTypes) min_date (Objekt entry) = Some l
         ∧ timestamp_from App.GermanDateParser.parse entry dt
         ∧ date_ltb (dt_date dt) min_date = false
         ∧ l_date l = strftime_date dt
         ∧ l_time l = strftime_time dt)
  ∧ (∀ portal_list clock now state auction_types property_types min_days
       w results w',
       Server.search portal_list clock now state auction_types property_types
         min_days w = (Return results, w') →
       ∀ l, l ∈ results →
         ∃ land raws min_date entry dt,
           Server._get_entries_cached portal_list clock land w
           = (Return raws, w')
           ∧ Objekt entry ∈ raws
           ∧ plus_days now min_days = Return min_date
           ∧ Server.entry_listing state auction_types property_types min_date
               (Objekt entry) = Some l
           ∧ timestamp_from
               (fun s => Server.GermanDateParser.parse (Server._fix_encoding s))
               entry dt
           ∧ date_ltb (dt_date dt) min_date = false
           ∧ l_date l = strftime_date dt
           ∧ l_time l = strftime_time dt).
Proof.
  split.
  - intros sm portal now state aT pT minDays results Hs l Hl.
    apply app_search_Return in Hs as (land & min_date & raws & _ & Hm & Hp & ->).
    apply list_elem_of_omap in Hl as ([entry|] & Hin & He); [|discriminate].
    pose proof He as He'.
    apply app_entry_listing_Some in He' as (dt & prop & Hdt & Hd & _ & _ & ->).
    exists land, raws, min_date, entry, dt.
    apply app_auction_datetime_Some in Hdt.
    pose proof (app_listing_fields state entry dt (App.auction_type entry) prop)
      as (F1 & F2 & _).
    auto 10.
  - intros portal clock now state ats pts min_days w results w' Hs l Hl.
    apply server_search_Return in Hs
      as [[_ ->]|(land & min_date & raws & _ & Hm & Hc & ->)];
      [inversion Hl|].
    apply list_elem_of_omap in Hl as ([entry|] & Hin & He); [|discriminate].
    pose proof He as He'.
    apply server_entry_listing_Some in He'
      as (dt & prop & Hdt & Hd & _ & _ & ->).
    exists land, raws, min_date, entry, dt.
    apply server_auction_datetime_Some in Hdt.
    pose proof (server_listing_fields state entry dt
                  (Server.auction_type entry) prop) as (F1 & F2 & _).
    auto 10.
Qed.

Lemma listing_has_timestamp_not_before_min_date_witness :
  let portal_list := fun _ : Land => Return [Objekt reihenhaus_entry] in
  let now := Datetime (Date 2025 8 1) 12 0 in
  let l := App.listing_of (u "Thueringen") reihenhaus_entry
             (Datetime (Date 2025 8 7) 10 0)
             (App.auction_type reihenhaus_entry) (u "Reihenhaus") in
  App.search (App.state_map bundeslaender) portal_list now
    (u "Thueringen") [] (u "Reihenhaus") 3 = Return [l]
  ∧ ∃ land raws min_date entry dt,
      portal_list land = Return raws
      ∧ Objekt entry ∈ raws
      ∧ plus_days now 3 = Return min_date
      ∧ App.entry_listing (u "Thueringen") (comma_list [])
          (comma_list (u "Reihenhaus")) min_date (Objekt entry) = Some l
      ∧ timestamp_from App.GermanDateParser.parse entry dt
      ∧ date_ltb (dt_date dt) min_date = false
      ∧ l_date l = strftime_date dt
      ∧ l_time l = strftime_time dt.
Proof.
  cbv zeta.
  assert (Hs : App.search (App.state_map bundeslaender)
                 (fun _ : Land => Return [Objekt reihenhaus_entry])
                 (Datetime (Date 2025 8 1) 12 0)
                 (u "Thueringen") [] (u "Reihenhaus") 3
               = Return [App.listing_of (u "Thueringen") reihenhaus_entry
                           (Datetime (Date 2025 8 7) 10 0)
                           (App.auction_type reihenhaus_entry)
                           (u "Reihenhaus")])
    by (vm_compute; reflexivity).
  split; [exact Hs|].
  apply (proj1 listing_has_timestamp_not_before_min_date _ _ _ _ _ _ _ _ Hs).
  constructor.
Defined.

(** C3.  A fetch for a state whose slot is younger than the time-to-live
    gives the stored list and leaves the world as it is: the provider is
    not called.  A fetch for a state whose slot has reached the
    time-to-live calls the provider once and, on its list, puts this list
    and the time of the fetch in the slot.  The age of the slot is the
    one that the code computes, the difference of the two clock readings
    as a float; a time-to-live from 0 to 2 ^ 53 that the exact difference
    has reached, the computed one has reached as well.  The time-to-live
    is 1800 seconds unless the environment gives another number. *)
Theorem cache_serves_fresh_slot_and_refreshes_stale_slot
    (portal_list : Land → outcome (list raw_item)) (now : Q) (land : Land)
    (w : Server.world) (slot : Server.CacheSlot) :
  Server._entries_cache (Server.self w) !! name land = Some slot →
  let ttl := Server._cache_ttl_seconds (Server.self w) in
  let age := float_sub now (Server.ts slot) in
  (float_lt_int age ttl = true →
   Server._get_entries_cached portal_list now land w
   = (Return (Server.entries slot), w))
  ∧ (float_lt_int age ttl = false →
     refreshed portal_list now land w
       (Server._get_entries_cached portal_list now land w))
  ∧ ((0 <= ttl <= 2 ^ 53)%Z →
     (inject_Z ttl <= now - Server.ts slot)%Q →
     refreshed portal_list now land w
       (Server._get_entries_cached portal_list now land w))
  ∧ (∀ laender, ∃ backend,
       Server.init laender None = Return backend
       ∧ Server._cache_ttl_seconds backend = 1800%Z)
  ∧ (∀ laender text seconds,
       int_of_str text = Some seconds →
       ∃ backend,
         Server.init laender (Some text) = Return backend
         ∧ Server._cache_ttl_seconds backend = seconds).
Proof.
  intros Hslot ttl age. split; [|split; [|split; [|split]]].
  - intros Hage. exact (cached_hit _ _ _ _ slot Hslot Hage).
  - intros Hage. exact (cached_stale _ _ _ _ slot Hslot Hage).
  - intros [Httl0 Httl] Hage.
    apply (cached_stale _ _ _ _ slot Hslot).
    apply fresh_stale; [exact Httl| |exact Hage].
    apply Qle_trans with (y := inject_Z ttl); [|exact Hage].
    change 0%Q with (inject_Z 0). rewrite <- Zle_Qle. exact Httl0.
  - intros laender.
    destruct (init_ttl laender None 1800%Z) as (b & Hb & Ht & _);
      [vm_compute; reflexivity|]. eauto.
  - intros laender text seconds Hint.
    destruct (init_ttl laender (Some text) seconds) as (b & Hb & Ht & _);
      [exact Hint|]. eauto.
Qed.

Lemma cache_serves_fresh_slot_and_refreshes_stale_slot_witness :
  Server._get_entries_cached (fun _ => Raise (UpstreamError [])) 1500
    thueringen cached_world = (Return [], cached_world)
  ∧ refreshed (fun _ => Return [OtherRecord]) 2800 thueringen cached_world
      (Server._get_entries_cached (fun _ => Return [OtherRecord]) 2800
         thueringen cached_world)
  ∧ refreshed (fun _ => Return [OtherRecord]) (28001 # 10) thueringen
      cached_world
      (Server._get_entries_cached (fun _ => Return [OtherRecord])
         (28001 # 10) thueringen cached_world).
Proof.
  assert (Hslot : Server._entries_cache (Server.self cached_world)
                  !! name thueringen
                  = Some {| Server.ts := 1000; Server.entries := [] |})
    by (vm_compute; reflexivity).
  split; [|split].
  - apply (proj1 (cache_serves_fresh_slot_and_refreshes_stale_slot
                    (fun _ => Raise (UpstreamError [])) 1500 thueringen
                    cached_world _ Hslot)).
    vm_compute. reflexivity.
  - apply (proj1 (proj2 (cache_serves_fresh_slot_and_refreshes_stale_slot
                           (fun _ => Return [OtherRecord]) 2800 thueringen
                           cached_world _ Hslot))).
    vm_compute. reflexivity.
  - apply (proj1 (proj2 (proj2
                    (cache_serves_fresh_slot_and_refreshes_stale_slot
                       (fun _ => Return [OtherRecord]) (28001 # 10)
                       thueringen cached_world _ Hslot)))).
    + vm_compute. split; discriminate.
    + vm_compute. discriminate.
Defined.

(** C8, on [server.py].  Where the query has no [minDays], or its first
    [minDays] is a text that [int] does not accept, the request is
    answered as the search with zero days answers it.  [app.py] has no
    code for such a text: its [search] takes [minDays] as an [int]. *)
Theorem min_days_defaults_to_zero
    (portal_list : Land → outcome (list raw_item)) (clock : Q)
    (now : datetime) (query : list (str * str)) (w : Server.world) :
  values_of Server.k_minDays query = []
  ∨ (∃ v rest, values_of Server.k_minDays query = v :: rest
               ∧ int_of_str v = None) →
  Server.do_GET portal_list clock now Server.api_search query w
  = Server.respond
      (Server.search portal_list clock now
         (List.hd [] (values_of Server.k_state query))
         (comma_list (List.hd [] (values_of Server.k_auctionTypes query)))
         (comma_list (List.hd [] (values_of Server.k_propertyTypes query)))
         0%Z)
      w.
Proof.
  intros H. rewrite do_GET_search.
  replace (default 0%Z (int_of_str
             (List.hd Server.zero (values_of Server.k_minDays query))))
    with 0%Z; [reflexivity|].
  destruct H as [->|(v & rest & -> & Hv)]; simpl.
  - reflexivity.
  - rewrite Hv. reflexivity.
Qed.

Lemma min_days_defaults_to_zero_witness :
  let query := [(Server.k_state, u "Thueringen");
                (Server.k_minDays, u "bald")] in
  Server.do_GET (fun _ => Return []) 0 (Datetime (Date 2025 8 1) 12 0)
    Server.api_search query server_world
  = Server.respond
      (Server.search (fun _ => Return []) 0 (Datetime (Date 2025 8 1) 12 0)
         (u "Thueringen") [] [] 0%Z)
      server_world.
Proof.
  cbv zeta.
  refine (eq_trans (min_days_defaults_to_zero _ _ _ _ _ _) _).
  - right. exists (u "bald"), []. split; vm_compute; reflexivity.
  - reflexivity.
Defined.

(** ** The two registries on the sixteen states *)

(** The registry of [server.py] leads from the name of each state, from
    its two other spellings and from its short code in capitals to this
    state, and nowhere from "Atlantis". *)
Lemma server_registry_resolves (land : Land) :
  land ∈ bundeslaender →
  let registry := Server.build_state_map bundeslaender in
  registry !! name land = Some land
  ∧ registry !! Server.replace_all Server.rep_map (name land) = Some land
  ∧ registry !! Server.replace_all Server.umlaut_map (name land) = Some land
  ∧ registry !! upper (short land) = Some land
  ∧ registry !! u "Atlantis" = None.
Proof.
  intros H. unfold bundeslaender in H.
  repeat (apply elem_of_cons in H as [->|H];
          [vm_compute; repeat split; reflexivity|]).
  inversion H.
Qed.

(** C1: the registry of [app.py] on the sixteen states.  The names
    "Baden-Wuerttemberg", "Baden-Württemberg" and "Bayern" lead to
    Thueringen, the state listed last, and the short code "BW" leads
    nowhere; the registry of [server.py] leads from all of them to their
    own state. *)
Theorem app_registry_resolves_names_to_last_state :
  let app := App.resolve (App.state_map bundeslaender) in
  let server := Server.build_state_map bundeslaender in
  app (u "Baden-Wuerttemberg") = Some thueringen
  ∧ app (u "Baden-Württemberg") = Some thueringen
  ∧ app (u "Bayern") = Some thueringen
  ∧ app (u "BW") = None
  ∧ app (u "Atlantis") = None
  ∧ server !! u "Baden-Wuerttemberg" = Some baden_wuerttemberg
  ∧ server !! u "Baden-Württemberg" = Some baden_wuerttemberg
  ∧ server !! u "BW" = Some baden_wuerttemberg
  ∧ thueringen ≠ baden_wuerttemberg.
Proof.
  cbv zeta. repeat split; try (vm_compute; reflexivity).
  vm_compute. discriminate.
Qed.

(** C2: [server.py] on a state that its registry does not know.  The
    request for "Atlantis" is answered with status 200 and an empty list,
    and the world stays as it is; [app.py] raises the error 400 with the
    text "Unbekanntes Bundesland: Atlantis". *)
Theorem server_answers_unknown_state_with_empty_list
    (portal_list : Land → outcome (list raw_item)) (clock : Q)
    (now : datetime) :
  Server.do_GET portal_list clock now Server.api_search
    [(Server.k_state, u "Atlantis")] server_world
  = (Return {| Server.status := 200; Server.body := Server.Results [] |},
     server_world)
  ∧ App.search (App.state_map bundeslaender) portal_list now
      (u "Atlantis") [] [] 0
    = Raise (HTTPException 400 (u "Unbekanntes Bundesland: Atlantis")).
Proof.
  split.
  - rewrite do_GET_search. unfold Server.respond.
    rewrite server_search_unknown by (vm_compute; reflexivity). reflexivity.
  - rewrite app_search_unknown by (vm_compute; reflexivity).
    vm_compute. reflexivity.
Qed.

(** [server.py] answers every state outside its registry in this way. *)
Lemma server_unknown_state_is_empty_list portal_list clock now query w :
  Server.state_map (Server.self w)
  !! List.hd [] (values_of Server.k_state query) = None →
  Server.do_GET portal_list clock now Server.api_search query w
  = (Return {| Server.status := 200; Server.body := Server.Results [] |}, w).
Proof.
  intros H. rewrite do_GET_search. unfold Server.respond.
  rewrite server_search_unknown by exact H. reflexivity.
Qed.

(** * Further properties *)

(** ** The date parser *)

Lemma split_on_cons (sep : N) (s : str) :
  ∃ p ps, split_on sep s = p :: ps.
Proof.
  induction s as [|c s IH]; simpl; [eauto|].
  destruct (c =? sep)%N; [eauto|].
  destruct IH as (p & ps & ->). eauto.
Qed.

Lemma split_on_app (sep : N) (a b : str) :
  sep ∉ a → split_on sep (a ++ sep :: b) = a :: split_on sep b.
Proof.
  induction a as [|c a IH]; intros Ha; simpl.
  - rewrite N.eqb_refl. reflexivity.
  - apply not_elem_of_cons in Ha as [Hc Ha].
    destruct (N.eqb_spec c sep) as [->|_]; [contradiction|].
    rewrite (IH Ha). reflexivity.
Qed.

Lemma split_on_absent (sep : N) (a : str) :
  sep ∉ a → split_on sep a = [a].
Proof.
  induction a as [|c a IH]; intros Ha; simpl; [reflexivity|].
  apply not_elem_of_cons in Ha as [Hc Ha].
  destruct (N.eqb_spec c sep) as [->|_]; [contradiction|].
  rewrite (IH Ha). reflexivity.
Qed.

Lemma absent_check (c : N) (s : str) :
  forallb (fun x => negb (x =? c)%N) s = true → c ∉ s.
Proof.
  induction s as [|x s IH]; simpl; intros H Hin; [inversion Hin|].
  apply andb_prop in H as [Hx Hs].
  apply elem_of_cons in Hin as [->|Hin]; [|exact (IH Hs Hin)].
  rewrite N.eqb_refl in Hx. discriminate.
Qed.

(** What the parser reads depends on the second and third segment
    only. *)
Lemma server_parse_segments (s s' : str) :
  3 ≤ length (split_on comma s) → 3 ≤ length (split_on comma s') →
  List.nth 1 (split_on comma s) [] = List.nth 1 (split_on comma s') [] →
  List.nth 2 (split_on comma s) [] = List.nth 2 (split_on comma s') [] →
  Server.GermanDateParser.parse s = Server.GermanDateParser.parse s'.
Proof.
  intros H3 H3' H1 H2.
  unfold Server.GermanDateParser.parse, Server.GermanDateParser.parse_body.
  cbv zeta. rewrite H1, H2.
  destruct (Nat.ltb_spec (length (split_on comma s)) 3); [lia|].
  destruct (Nat.ltb_spec (length (split_on comma s')) 3); [lia|].
  reflexivity.
Qed.

(** X1.  The parser of [app.py] and the parser of [server.py] give the
    same answer on every text. *)
Theorem date_parsers_agree (s : str) :
  App.GermanDateParser.parse s = Server.GermanDateParser.parse s.
Proof. exact (parse_agree s). Qed.

Lemma datetime_new_valid y m d h mi dt :
  datetime_new y (Some m) d h mi = Return dt →
  dt = Datetime (Date y m d) h mi
  ∧ (1 <= y <= 9999)%Z ∧ (1 <= m <= 12)%Z
  ∧ (1 <= d <= days_in_month y m)%Z
  ∧ (0 <= h <= 23)%Z ∧ (0 <= mi <= 59)%Z.
Proof.
  unfold datetime_new. intros H.
  destruct (negb (fits_c_int y)); [discriminate|].
  match type of H with (if ?b then _ else _) = _ =>
    destruct b; [discriminate|] end.
  match type of H with (if ?b then _ else _) = _ =>
    destruct b eqn:Hrange; [|discriminate] end.
  injection H as <-.
  repeat (apply andb_prop in Hrange as [Hrange ?]).
  split; [reflexivity | lia].
Qed.

(** X2.  A timestamp that a parser returns is a date of the calendar and
    a time of the day: the year is between 1 and 9999, the month between 1
    and 12, the day between 1 and the number of days of this month in this
    year, the hour between 0 and 23, the minute between 0 and 59. *)
Theorem parsed_timestamp_is_calendar_date (s : str) (dt : datetime) :
  App.GermanDateParser.parse s = Return (Some dt)
  ∨ Server.GermanDateParser.parse s = Return (Some dt) →
  let d := dt_date dt in
  (1 <= year d <= 9999)%Z ∧ (1 <= month d <= 12)%Z
  ∧ (1 <= day d <= days_in_month (year d) (month d))%Z
  ∧ (0 <= hour dt <= 23)%Z ∧ (0 <= minute dt <= 59)%Z.
Proof.
  intros H d.
  assert (Hs : Server.GermanDateParser.parse s = Return (Some dt)).
  { destruct H as [H|H]; [rewrite <- parse_agree|]; exact H. }
  apply parse_Some_reads in Hs.
  destruct Hs as [? ? ? ? ? dd m y h mi _ _ _ _ _ _ _ _ Hnew].
  apply datetime_new_valid in Hnew as (-> & Hrange). exact Hrange.
Qed.

Lemma parsed_timestamp_is_calendar_date_witness :
  App.GermanDateParser.parse (u "Montag, 07. August 2025, 10:00 Uhr")
  = Return (Some (Datetime (Date 2025 8 7) 10 0))
  ∧ (1 <= 7 <= days_in_month 2025 8)%Z.
Proof.
  assert (H : App.GermanDateParser.parse
                (u "Montag, 07. August 2025, 10:00 Uhr")
              = Return (Some (Datetime (Date 2025 8 7) 10 0)))
    by (vm_compute; reflexivity).
  split; [exact H|].
  exact (proj1 (proj2 (proj2 (parsed_timestamp_is_calendar_date _ _
                                (or_introl H))))).
Defined.

(** X3.  The text before the first comma, the day of the week, and
    whatever follows a third comma have no part in the answer. *)
Theorem parse_reads_second_and_third_segment
    (weekday weekday' date_part time_part rest : str) :
  comma ∉ weekday → comma ∉ weekday' →
  comma ∉ date_part → comma ∉ time_part →
  let s := weekday ++ comma :: date_part ++ comma :: time_part in
  let s' := weekday' ++ comma :: date_part ++ comma :: time_part
            ++ comma :: rest in
  App.GermanDateParser.parse s = App.GermanDateParser.parse s'
  ∧ Server.GermanDateParser.parse s = Server.GermanDateParser.parse s'.
Proof.
  intros Hw Hw' Hd Ht s s'.
  assert (Hs : split_on comma s = [weekday; date_part; time_part]).
  { unfold s. rewrite (split_on_app _ _ _ Hw), (split_on_app _ _ _ Hd).
    rewrite (split_on_absent _ _ Ht). reflexivity. }
  assert (Hs' : split_on comma s'
                = weekday' :: date_part :: time_part :: split_on comma rest).
  { unfold s'. rewrite (split_on_app _ _ _ Hw'), (split_on_app _ _ _ Hd).
    rewrite (split_on_app _ _ _ Ht). reflexivity. }
  assert (H : Server.GermanDateParser.parse s
              = Server.GermanDateParser.parse s').
  { apply server_parse_segments; rewrite ?Hs, ?Hs'; simpl; try lia;
      reflexivity. }
  rewrite !parse_agree. auto.
Qed.

Lemma parse_reads_second_and_third_segment_witness :
  App.GermanDateParser.parse (u "Montag, 07. August 2025, 10:00 Uhr")
  = App.GermanDateParser.parse
      (u "Mo., 07. August 2025, 10:00 Uhr, Saal 2").
Proof.
  exact (proj1 (parse_reads_second_and_third_segment
                  (u "Montag") (u "Mo.") (u " 07. August 2025")
                  (u " 10:00 Uhr") (u " Saal 2")
                  (absent_check comma (u "Montag") eq_refl)
                  (absent_check comma (u "Mo.") eq_refl)
                  (absent_check comma (u " 07. August 2025") eq_refl)
                  (absent_check comma (u " 10:00 Uhr") eq_refl))).
Defined.

(** ** The registry of [server.py] *)

Lemma add_if_absent_lookup (land : Land) (m : gmap str Land) (key k : str) :
  Server.add_if_absent land m key !! k
  = match m !! k with
    | Some l => Some l
    | None => if decide (k = key) then Some land else None
    end.
Proof.
  unfold Server.add_if_absent. destruct (m !! key) eqn:Hkey.
  - destruct (m !! k) eqn:Hk; [reflexivity|].
    destruct (decide (k = key)) as [->|]; [congruence | reflexivity].
  - destruct (decide (k = key)) as [->|Hne].
    + rewrite lookup_insert_eq, Hkey. reflexivity.
    + rewrite lookup_insert_ne by auto. destruct (m !! k); reflexivity.
Qed.

Lemma add_if_absent_fold (land : Land) (keys : list str) :
  ∀ (m : gmap str Land) (k : str),
    List.fold_left (Server.add_if_absent land) keys m !! k
    = match m !! k with
      | Some l => Some l
      | None => if decide (k ∈ keys) then Some land else None
      end.
Proof.
  induction keys as [|key keys IH]; intros m k; cbn [List.fold_left].
  - destruct (m !! k); [reflexivity|].
    destruct (decide (k ∈ [])) as [H|_]; [inversion H | reflexivity].
  - rewrite IH, add_if_absent_lookup. destruct (m !! k); [reflexivity|].
    destruct (decide (k = key)) as [->|Hne].
    + destruct (decide (key ∈ key :: keys)) as [_|H]; [reflexivity|].
      exfalso. apply H. left.
    + destruct (decide (k ∈ keys)) as [Hin|Hout];
        destruct (decide (k ∈ key :: keys)) as [Hin'|Hout']; try reflexivity.
      * exfalso. apply Hout'. right. exact Hin.
      * exfalso. apply elem_of_cons in Hin' as [?|?]; auto.
Qed.

(** One pass of the loop: the name of the state now leads to it, its
    other spellings and its short code lead to it where they led nowhere,
    and every other key leads where it led. *)
Lemma server_register_lookup (m : gmap str Land) (land : Land) (k : str) :
  Server.register m land !! k
  = if decide (k = name land) then Some land
    else match m !! k with
         | Some l => Some l
         | None =>
             if decide (k ∈ Server.name_variants land
                        ∨ k = upper (short land))
             then Some land else None
         end.
Proof.
  unfold Server.register. cbv zeta.
  rewrite add_if_absent_lookup, add_if_absent_fold.
  destruct (decide (k = name land)) as [->|Hne].
  - rewrite lookup_insert_eq. reflexivity.
  - rewrite lookup_insert_ne by auto. destruct (m !! k); [reflexivity|].
    destruct (decide (k ∈ Server.name_variants land)) as [Hin|Hout].
    + destruct (decide _) as [_|H]; [reflexivity | exfalso; auto].
    + destruct (decide (k = upper (short land))) as [->|Hs].
      * destruct (decide _) as [_|H]; [reflexivity | exfalso; auto].
      * destruct (decide _) as [[?|?]|_]; [contradiction.. | reflexivity].
Qed.

Lemma name_is_variant (land : Land) : name land ∈ Server.name_variants land.
Proof. unfold Server.name_variants. do 2 right. left. Qed.

(** A key of the registry leads to a state of the list that carries it,
    or it was in the registry before. *)
Lemma server_registry_sound_from (laender : list Land) :
  ∀ (m : gmap str Land) (k : str) (l : Land),
    List.fold_left Server.register laender m !! k = Some l →
    (l ∈ laender ∧ (k ∈ Server.name_variants l ∨ k = upper (short l)))
    ∨ m !! k = Some l.
Proof.
  induction laender as [|land laender IH]; intros m k l H;
    cbn [List.fold_left] in H; [right; exact H|].
  apply IH in H as [[Hin Hk]|H].
  - left. split; [right; exact Hin | exact Hk].
  - rewrite server_register_lookup in H.
    destruct (decide (k = name land)) as [->|Hne].
    + injection H as <-. left. split; [left|left; apply name_is_variant].
    + destruct (m !! k) eqn:Hm; [right; exact H|].
      destruct (decide _) as [Hk|_]; [|discriminate].
      injection H as <-. left. split; [left | exact Hk].
Qed.

(** A key that leads somewhere keeps leading somewhere. *)
Lemma server_registry_grows (laender : list Land) :
  ∀ (m : gmap str Land) (k : str),
    is_Some (m !! k) →
    is_Some (List.fold_left Server.register laender m !! k).
Proof.
  induction laender as [|land laender IH]; intros m k H;
    cbn [List.fold_left]; [exact H|].
  apply IH. rewrite server_register_lookup.
  destruct (decide (k = name land)); [eauto|].
  destruct H as [l ->]. eauto.
Qed.

Lemma server_registry_covers (laender : list Land) (land : Land) (k : str) :
  land ∈ laender →
  k ∈ Server.name_variants land ∨ k = upper (short land) →
  ∀ m, is_Some (List.fold_left Server.register laender m !! k).
Proof.
  intros Hin Hk. induction laender as [|l laender IH]; intros m;
    [inversion Hin|].
  cbn [List.fold_left].
  apply elem_of_cons in Hin as [<-|Hin]; [|apply IH, Hin].
  apply server_registry_grows. rewrite server_register_lookup.
  destruct (decide (k = name land)); [eauto|].
  destruct (m !! k); [eauto|].
  destruct (decide _) as [_|H]; [eauto | contradiction].
Qed.

(** X4.  Whatever states the provider lists, a key of the registry of
    [server.py] leads to one of these states, and the key is the name of
    this state, one of the two other spellings of the name, or the short
    code in capitals. *)
Theorem server_registry_leads_to_listed_states
    (laender : list Land) (key : str) (land : Land) :
  Server.build_state_map laender !! key = Some land →
  land ∈ laender
  ∧ (key = name land
     ∨ key = Server.replace_all Server.rep_map (name land)
     ∨ key = Server.replace_all Server.umlaut_map (name land)
     ∨ key = upper (short land)).
Proof.
  intros H. apply server_registry_sound_from in H as [[Hin Hk]|H].
  - split; [exact Hin|]. destruct Hk as [Hk|Hk]; [|auto].
    unfold Server.name_variants in Hk.
    repeat (apply elem_of_cons in Hk as [Hk|Hk]; [auto|]).
    inversion Hk.
  - rewrite lookup_empty in H. discriminate.
Qed.

Lemma server_registry_leads_to_listed_states_witness :
  Server.build_state_map bundeslaender !! u "Thüringen" = Some thueringen
  ∧ thueringen ∈ bundeslaender
  ∧ (u "Thüringen" = name thueringen
     ∨ u "Thüringen" = Server.replace_all Server.rep_map (name thueringen)
     ∨ u "Thüringen" = Server.replace_all Server.umlaut_map (name thueringen)
     ∨ u "Thüringen" = upper (short thueringen)).
Proof.
  assert (H : Server.build_state_map bundeslaender !! u "Thüringen"
              = Some thueringen) by (vm_compute; reflexivity).
  split; [exact H|].
  exact (server_registry_leads_to_listed_states _ _ _ H).
Defined.

(** X5.  In the registry of [server.py], the name of a listed state, each
    of the two other spellings of the name and the short code in capitals
    lead to this state, as long as no other listed state carries the same
    key. *)
Theorem server_registry_resolves_unambiguous_keys
    (laender : list Land) (land : Land) (key : str) :
  land ∈ laender →
  key ∈ Server.name_variants land ∨ key = upper (short land) →
  (∀ other, other ∈ laender →
     key ∈ Server.name_variants other ∨ key = upper (short other) →
     other = land) →
  Server.build_state_map laender !! key = Some land.
Proof.
  intros Hin Hk Honly.
  destruct (server_registry_covers laender land key Hin Hk ∅) as [l Hl].
  fold (Server.build_state_map laender) in Hl. rewrite Hl. f_equal.
  apply server_registry_sound_from in Hl as [[Hl Hkl]|Hl].
  - apply Honly; assumption.
  - rewrite lookup_empty in Hl. discriminate.
Qed.

Lemma server_registry_resolves_unambiguous_keys_witness :
  Server.build_state_map bundeslaender !! u "BW" = Some baden_wuerttemberg.
Proof.
  apply (server_registry_resolves_unambiguous_keys
           bundeslaender baden_wuerttemberg (u "BW")).
  - left.
  - right. vm_compute. reflexivity.
  - intros other Hin Hk. unfold bundeslaender in Hin.
    repeat (apply elem_of_cons in Hin as [->|Hin];
            [first [reflexivity
                   | exfalso; vm_compute in Hk; destruct Hk as [Hk|Hk];
                     [repeat (apply elem_of_cons in Hk as [Hk|Hk];
                              [discriminate Hk|]); inversion Hk
                     | discriminate Hk]]|]).
    inversion Hin.
Defined.

(** ** The registry of [app.py] and its lookup *)

Lemma lstrip_app (y z : str) :
  lstrip y ≠ [] → lstrip (y ++ z) = lstrip y ++ z.
Proof.
  induction y as [|c y IH]; simpl; [congruence|].
  destruct (isspace c); [exact IH | reflexivity].
Qed.

Lemma rstrip_app (a b : str) :
  rstrip b ≠ [] → rstrip (a ++ b) = a ++ rstrip b.
Proof.
  unfold rstrip. intros H. rewrite rev_app_distr, lstrip_app.
  - rewrite rev_app_distr, rev_involutive. reflexivity.
  - intros E. rewrite E in H. apply H. reflexivity.
Qed.

Lemma strip_spaces_l (ws x : str) : spaces ws → strip (ws ++ x) = strip x.
Proof.
  intros Hws. unfold strip.
  destruct (rstrip x) as [|c r] eqn:Hr.
  - destruct (rstrip_split x) as (ws' & Hx & Hws'). rewrite Hr in Hx.
    simpl in Hx. subst x.
    replace (ws ++ ws') with ([] ++ (ws ++ ws')) by reflexivity.
    rewrite rstrip_spaces by (apply Forall_app; auto). reflexivity.
  - rewrite rstrip_app by (rewrite Hr; discriminate).
    rewrite Hr. apply lstrip_spaces, Hws.
Qed.

Lemma lower_char_high (c : N) : (256 <= c)%N → lower_char c = c.
Proof.
  intros H. unfold lower_char.
  replace (c <=? 90)%N with false by (symmetry; apply N.leb_gt; lia).
  replace (c <=? 222)%N with false by (symmetry; apply N.leb_gt; lia).
  rewrite !andb_false_r. reflexivity.
Qed.

Lemma isspace_lower_char (c : N) : isspace (lower_char c) = isspace c.
Proof.
  destruct (N.le_gt_cases 256 c) as [H|H]; [rewrite lower_char_high; auto|].
  assert (Hall : List.forallb
                   (fun c => Bool.eqb (isspace (lower_char c)) (isspace c))
                   (List.map N.of_nat (seq 0 (N.to_nat 256))) = true)
    by (vm_compute; reflexivity).
  rewrite forallb_forall in Hall.
  assert (Hin : In c (List.map N.of_nat (seq 0 (N.to_nat 256)))).
  { apply in_map_iff. exists (N.to_nat c). split; [apply N2Nat.id|].
    apply in_seq. lia. }
  apply Hall in Hin. apply Bool.eqb_prop in Hin. exact Hin.
Qed.

Lemma lstrip_lower (s : str) : lstrip (lower s) = lower (lstrip s).
Proof.
  induction s as [|c s IH]; simpl; [reflexivity|].
  rewrite isspace_lower_char. destruct (isspace c); [exact IH | reflexivity].
Qed.

Lemma strip_lower (s : str) : strip (lower s) = lower (strip s).
Proof.
  unfold strip, rstrip, lower.
  rewrite <- map_rev. fold (lower (List.rev s)). rewrite lstrip_lower.
  unfold lower. rewrite <- map_rev. fold (lower (List.rev (lstrip (List.rev s)))).
  apply lstrip_lower.
Qed.

(** X6.  Whatever states the provider lists, the registry of [app.py]
    leads from each of the sixteen full names of its table to the state
    listed last: a request whose state reads as one of these names, in
    any letter case and either spelling, is answered from that state. *)
Theorem app_registry_full_names_lead_to_last_state
    (laender : list Land) (land : Land) (state : str) :
  App.to_digraphs (lower (strip state)) ∈ List.map snd App.short2full →
  App.resolve (App.state_map (laender ++ [land])) state = Some land.
Proof.
  intros H. unfold App.resolve. cbv zeta.
  rewrite (app_state_map_last laender land _ H). reflexivity.
Qed.

Lemma app_registry_full_names_lead_to_last_state_witness :
  App.resolve (App.state_map ([baden_wuerttemberg] ++ [thueringen]))
    (u " Baden-Württemberg") = Some thueringen.
Proof.
  apply (app_registry_full_names_lead_to_last_state
           [baden_wuerttemberg] thueringen (u " Baden-Württemberg")).
  vm_compute. left.
Defined.

(** X7.  The lookup of [app.py] does not see the letter case of the state
    or the white space around it: two texts that are equal in lower case
    lead to the same state, whatever white space surrounds the first. *)
Theorem app_resolve_ignores_case_and_padding
    (state_map : gmap str Land) (state state' before after : str) :
  spaces before → spaces after → lower state = lower state' →
  App.resolve state_map (before ++ state ++ after)
  = App.resolve state_map state'.
Proof.
  intros Hb Ha Hl. unfold App.resolve. cbv zeta.
  assert (E : lower (strip (before ++ state ++ after)) = lower (strip state')).
  { rewrite strip_spaces_l by exact Hb. rewrite strip_spaces_r by exact Ha.
    rewrite <- !strip_lower. rewrite Hl. reflexivity. }
  rewrite E. reflexivity.
Qed.

Lemma app_resolve_ignores_case_and_padding_witness :
  App.resolve (App.state_map bundeslaender) (u "  THUERINGEN ")
  = App.resolve (App.state_map bundeslaender) (u "Thueringen").
Proof.
  apply (app_resolve_ignores_case_and_padding
           (App.state_map bundeslaender) (u "THUERINGEN") (u "Thueringen")
           (u "  ") (u " ")).
  - vm_compute. repeat constructor.
  - vm_compute. repeat constructor.
  - vm_compute. reflexivity.
Defined.

(** ** The repair of the encoding *)

Lemma contains_char (c : N) (s : str) : contains [c] s = true ↔ c ∈ s.
Proof.
  rewrite contains_spec. unfold occurs_in. split.
  - intros (before & after & ->). apply elem_of_app. right. left.
  - intros H. apply list_elem_of_split in H as (before & after & ->).
    exists before, after. reflexivity.
Qed.

Lemma contains_char_false (c : N) (s : str) : contains [c] s = false ↔ c ∉ s.
Proof.
  rewrite <- contains_char. destruct (contains [c] s); split; congruence.
Qed.

Lemma fix_encoding_unmarked (s : str) :
  195%N ∉ s → 194%N ∉ s → Server._fix_encoding s = s.
Proof.
  intros H3 H2. unfold Server._fix_encoding.
  destruct s as [|c s]; [reflexivity|]. cbn [nonempty negb].
  change Server.A_tilde with [195%N]. change Server.A_circumflex with [194%N].
  apply contains_char_false in H3, H2. rewrite H3, H2. reflexivity.
Qed.

Lemma fix_encoding_marked (s : str) :
  195%N ∈ s ∨ 194%N ∈ s →
  Server._fix_encoding s = utf8_decode (latin1_encode s).
Proof.
  intros H. unfold Server._fix_encoding.
  destruct s as [|c s]; [destruct H as [H|H]; inversion H|].
  cbn [nonempty negb].
  change Server.A_tilde with [195%N]. change Server.A_circumflex with [194%N].
  replace (contains [195%N] (c :: s) || contains [194%N] (c :: s)) with true;
    [reflexivity|].
  symmetry. apply orb_true_iff. rewrite !contains_char. exact H.
Qed.

#[local] Open Scope N_scope.

Ltac Zify.zify_post_hook ::= Z.to_euclidean_division_equations.

Lemma utf8_head_1 (b0 : N) (rest : list N) :
  b0 < 0x80 → utf8_head (b0 :: rest) = Some (b0, 1%nat).
Proof.
  intros H. unfold utf8_head.
  destruct (N.ltb_spec b0 0x80); [reflexivity | lia].
Qed.

Lemma is_cont_range (b : N) : 0x80 <= b <= 0xBF → is_cont b = true.
Proof.
  intros H. unfold is_cont. apply andb_true_iff. split; apply N.leb_le; lia.
Qed.

Lemma utf8_head_2 (b0 b1 : N) (rest : list N) :
  0xC2 <= b0 <= 0xDF → 0x80 <= b1 <= 0xBF →
  utf8_head (b0 :: b1 :: rest)
  = Some ((b0 - 0xC0) * 64 + (b1 - 0x80), 2%nat).
Proof.
  intros H0 H1. unfold utf8_head.
  destruct (N.ltb_spec b0 0x80); [lia|].
  destruct (N.leb_spec 0xC2 b0); [|lia].
  destruct (N.leb_spec b0 0xDF); [|lia].
  cbn [andb]. rewrite is_cont_range by exact H1. reflexivity.
Qed.

Lemma utf8_head_3 (b0 b1 b2 : N) (rest : list N) :
  0xE0 <= b0 <= 0xEF → 0x80 <= b1 <= 0xBF → 0x80 <= b2 <= 0xBF →
  (b0 = 0xE0 → 0xA0 <= b1) → (b0 = 0xED → b1 <= 0x9F) →
  utf8_head (b0 :: b1 :: b2 :: rest)
  = Some ((b0 - 0xE0) * 4096 + (b1 - 0x80) * 64 + (b2 - 0x80), 3%nat).
Proof.
  intros H0 H1 H2 Hlow Hhigh. unfold utf8_head.
  destruct (N.ltb_spec b0 0x80); [lia|].
  destruct (N.leb_spec 0xC2 b0); [|lia].
  destruct (N.leb_spec b0 0xDF); [lia|].
  destruct (N.leb_spec 0xE0 b0); [|lia].
  destruct (N.leb_spec b0 0xEF); [|lia].
  cbn [andb]. rewrite !is_cont_range by assumption. cbn [andb].
  replace (negb (b0 =? 0xE0) || (0xA0 <=? b1)) with true.
  2:{ symmetry. destruct (N.eqb_spec b0 0xE0); [|reflexivity].
      cbn [negb orb]. apply N.leb_le. auto. }
  replace (negb (b0 =? 0xED) || (b1 <=? 0x9F)) with true.
  2:{ symmetry. destruct (N.eqb_spec b0 0xED); [|reflexivity].
      cbn [negb orb]. apply N.leb_le. auto. }
  reflexivity.
Qed.

Lemma utf8_head_4 (b0 b1 b2 b3 : N) (rest : list N) :
  0xF0 <= b0 <= 0xF4 →
  0x80 <= b1 <= 0xBF → 0x80 <= b2 <= 0xBF → 0x80 <= b3 <= 0xBF →
  (b0 = 0xF0 → 0x90 <= b1) → (b0 = 0xF4 → b1 <= 0x8F) →
  utf8_head (b0 :: b1 :: b2 :: b3 :: rest)
  = Some ((b0 - 0xF0) * 262144 + (b1 - 0x80) * 4096 + (b2 - 0x80) * 64
          + (b3 - 0x80), 4%nat).
Proof.
  intros H0 H1 H2 H3 Hlow Hhigh. unfold utf8_head.
  destruct (N.ltb_spec b0 0x80); [lia|].
  destruct (N.leb_spec 0xC2 b0); [|lia].
  destruct (N.leb_spec b0 0xDF); [lia|].
  destruct (N.leb_spec 0xE0 b0); [|lia].
  destruct (N.leb_spec b0 0xEF); [lia|].
  destruct (N.leb_spec 0xF0 b0); [|lia].
  destruct (N.leb_spec b0 0xF4); [|lia].
  cbn [andb]. rewrite !is_cont_range by assumption. cbn [andb].
  replace (negb (b0 =? 0xF0) || (0x90 <=? b1)) with true.
  2:{ symmetry. destruct (N.eqb_spec b0 0xF0); [|reflexivity].
      cbn [negb orb]. apply N.leb_le. auto. }
  replace (negb (b0 =? 0xF4) || (b1 <=? 0x8F)) with true.
  2:{ symmetry. destruct (N.eqb_spec b0 0xF4); [|reflexivity].
      cbn [negb orb]. apply N.leb_le. auto. }
  reflexivity.
Qed.

(** The bytes of one character decode to this character. *)
Lemma utf8_decode_char (c : N) (rest : list N) :
  scalar c →
  utf8_decode_from 0 (utf8_char c ++ rest) = c :: utf8_decode_from 0 rest.
Proof.
  intros Hc. unfold utf8_char, scalar in *.
  destruct (N.ltb_spec c 0x80) as [H1|H1].
  { cbn [app utf8_decode_from]. rewrite utf8_head_1 by exact H1.
    reflexivity. }
  destruct (N.ltb_spec c 0x800) as [H2|H2].
  { cbn [app utf8_decode_from]. rewrite utf8_head_2 by lia.
    cbn [Nat.pred utf8_decode_from]. f_equal. lia. }
  destruct (N.ltb_spec c 0x10000) as [H3|H3].
  { cbn [app utf8_decode_from]. rewrite utf8_head_3 by lia.
    cbn [Nat.pred utf8_decode_from]. f_equal. lia. }
  cbn [app utf8_decode_from]. rewrite utf8_head_4 by lia.
  cbn [Nat.pred utf8_decode_from]. f_equal. lia.
Qed.

Lemma utf8_decode_mojibake (t : str) :
  Forall scalar t → utf8_decode (mojibake t) = t.
Proof.
  unfold utf8_decode, mojibake.
  induction 1 as [|c t Hc _ IH]; [reflexivity|].
  cbn [List.map List.concat]. rewrite utf8_decode_char by exact Hc.
  f_equal. exact IH.
Qed.

Lemma utf8_char_bytes (c b : N) :
  scalar c → b ∈ utf8_char c →
  b < 256
  ∧ (b = 0xC3 ∨ b = 0xC2 → 0x80 <= c <= 0xFF).
Proof.
  intros Hc Hb. unfold utf8_char, scalar in *.
  destruct (N.ltb_spec c 0x80) as [H1|H1];
    [|destruct (N.ltb_spec c 0x800) as [H2|H2];
      [|destruct (N.ltb_spec c 0x10000) as [H3|H3]]];
    repeat (apply elem_of_cons in Hb as [->|Hb]); try (inversion Hb; fail);
    split; lia.
Qed.

Lemma utf8_char_marker (c : N) :
  0x80 <= c <= 0xFF → 0xC3 ∈ utf8_char c ∨ 0xC2 ∈ utf8_char c.
Proof.
  intros H. unfold utf8_char.
  destruct (N.ltb_spec c 0x80); [lia|].
  destruct (N.ltb_spec c 0x800); [|lia].
  destruct (N.le_gt_cases 0xC0 c).
  - left. replace (0xC0 + c / 64) with 0xC3 by lia. left.
  - right. replace (0xC0 + c / 64) with 0xC2 by lia. left.
Qed.

Lemma latin1_encode_bytes (s : str) :
  Forall (fun b => b < 256) s → latin1_encode s = s.
Proof.
  unfold latin1_encode. induction 1 as [|b s Hb _ IH]; [reflexivity|].
  cbn [List.filter]. destruct (N.ltb_spec b 256); [|lia].
  f_equal. exact IH.
Qed.

Lemma mojibake_bytes (t : str) :
  Forall scalar t → Forall (fun b => b < 256) (mojibake t).
Proof.
  unfold mojibake. induction 1 as [|c t Hc _ IH]; [constructor|].
  cbn [List.map List.concat]. apply Forall_app. split; [|exact IH].
  apply Forall_forall. intros b Hb.
  exact (proj1 (utf8_char_bytes c b Hc Hb)).
Qed.

Lemma mojibake_marker (t : str) :
  Forall scalar t →
  (0xC3 ∈ mojibake t ∨ 0xC2 ∈ mojibake t)
  ↔ ∃ c, c ∈ t ∧ 0x80 <= c <= 0xFF.
Proof.
  unfold mojibake. induction 1 as [|c t Hc _ IH].
  - split; [intros [H|H]; inversion H | intros (c & H & _); inversion H].
  - cbn [List.map List.concat]. rewrite !elem_of_app. split.
    + intros [[H|H]|[H|H]].
      * exists c. split; [left|]. apply (utf8_char_bytes c _ Hc H). auto.
      * destruct (proj1 IH (or_introl H)) as (c' & Hin & Hr).
        exists c'. split; [right; exact Hin | exact Hr].
      * exists c. split; [left|]. apply (utf8_char_bytes c _ Hc H). auto.
      * destruct (proj1 IH (or_intror H)) as (c' & Hin & Hr).
        exists c'. split; [right; exact Hin | exact Hr].
    + intros (c' & Hin & Hr). apply elem_of_cons in Hin as [->|Hin].
      * destruct (utf8_char_marker c Hr); auto.
      * destruct (proj2 IH (ex_intro _ c' (conj Hin Hr))); auto.
Qed.

Lemma scalar_check (t : str) :
  forallb (fun c => (c <? 0xD800) || ((0xE000 <=? c) && (c <=? 0x10FFFF))) t
  = true →
  Forall scalar t.
Proof.
  intros H. apply Forall_forall. intros c Hc.
  rewrite forallb_forall in H. apply list_elem_of_In, H in Hc.
  unfold scalar. apply orb_true_iff in Hc as [Hc|Hc].
  - left. apply N.ltb_lt, Hc.
  - right. apply andb_true_iff in Hc as [H1 H2].
    split; apply N.leb_le; assumption.
Qed.

#[local] Close Scope N_scope.

(** X8.  [_fix_encoding] gives back unchanged every text that holds
    neither the letter Ã (U+00C3) nor the letter Â (U+00C2). *)
Theorem fix_encoding_keeps_text_without_marker (s : str) :
  195%N ∉ s → 194%N ∉ s → Server._fix_encoding s = s.
Proof. exact (fix_encoding_unmarked s). Qed.

Lemma fix_encoding_keeps_text_without_marker_witness :
  Server._fix_encoding (u "Hauptstraße 12") = u "Hauptstraße 12".
Proof.
  apply fix_encoding_keeps_text_without_marker;
    apply absent_check; vm_compute; reflexivity.
Defined.

(** X9.  A text of Unicode scalar values whose UTF-8 bytes were read as
    Latin-1 is repaired by [_fix_encoding], which gives the text back,
    when the text has a character between U+0080 and U+00FF (the German
    umlauts and the sharp s are among them); without such a character
    the damaged text comes back as it is. *)
Theorem fix_encoding_repairs_mojibake (t : str) :
  Forall scalar t →
  ((∃ c, c ∈ t ∧ (128 <= c <= 255)%N) →
   Server._fix_encoding (mojibake t) = t)
  ∧ ((∀ c, c ∈ t → (c < 128 ∨ 255 < c)%N) →
     Server._fix_encoding (mojibake t) = mojibake t).
Proof.
  intros Ht. split.
  - intros Hc. rewrite fix_encoding_marked
      by (apply (mojibake_marker t Ht); exact Hc).
    rewrite latin1_encode_bytes by (apply mojibake_bytes, Ht).
    apply utf8_decode_mojibake, Ht.
  - intros Hnone.
    assert (Hno : ¬ (195%N ∈ mojibake t ∨ 194%N ∈ mojibake t)).
    { intros H. apply (mojibake_marker t Ht) in H as (c & Hin & Hr).
      specialize (Hnone c Hin). lia. }
    apply fix_encoding_unmarked; intros H; apply Hno; auto.
Qed.

Lemma fix_encoding_repairs_mojibake_witness :
  mojibake (u "Südwieke") = u "SÃ¼dwieke"
  ∧ Server._fix_encoding (u "SÃ¼dwieke") = u "Südwieke".
Proof.
  assert (E : mojibake (u "Südwieke") = u "SÃ¼dwieke")
    by (vm_compute; reflexivity).
  split; [exact E|]. rewrite <- E.
  apply (proj1 (fix_encoding_repairs_mojibake (u "Südwieke")
                  (scalar_check (u "Südwieke") eq_refl))).
  exists 252%N. split; [vm_compute; right; left | lia].
Defined.

(** ** The cache between two fetches and around a request *)

(** A fetch leaves the world as it is, or it is a refresh. *)
Lemma fetch_served_or_refreshed portal_list now land w :
  snd (Server._get_entries_cached portal_list now land w) = w
  ∨ refreshed portal_list now land w
      (Server._get_entries_cached portal_list now land w).
Proof.
  destruct (Server._entries_cache (Server.self w) !! name land)
    as [slot|] eqn:Hslot.
  - destruct (Server.fresh now slot
                (Server._cache_ttl_seconds (Server.self w))) eqn:Hf.
    + left. rewrite (cached_hit _ _ _ _ _ Hslot Hf). reflexivity.
    + right. exact (cached_stale _ _ _ _ _ Hslot Hf).
  - right. exact (cached_miss _ _ _ _ Hslot).
Qed.

Lemma refreshed_frame portal_list now land w r (key : str) :
  refreshed portal_list now land w r → key ≠ name land →
  Server._entries_cache (Server.self (snd r)) !! key
  = Server._entries_cache (Server.self w) !! key.
Proof.
  intros (_ & _ & _ & _ & Hraise & Hret) Hkey.
  destruct (portal_list land) as [es|e] eqn:Hp.
  - rewrite (Hret es eq_refl). apply lookup_insert_ne. auto.
  - rewrite (Hraise e eq_refl). reflexivity.
Qed.

(** What a search leaves behind. *)
Lemma search_world portal_list clock now state ats pts min_days w :
  let r := Server.search portal_list clock now state ats pts min_days w in
  snd r = w
  ∨ ∃ land,
      Server.state_map (Server.self w) !! state = Some land
      ∧ refreshed portal_list clock land w
          (Server._get_entries_cached portal_list clock land w)
      ∧ snd r = snd (Server._get_entries_cached portal_list clock land w).
Proof.
  cbv zeta. unfold Server.search.
  destruct (Server.state_map (Server.self w) !! state) as [land|];
    [|left; reflexivity].
  unfold mbind, Server.method_bind, Server.lift.
  destruct (plus_days now min_days) as [min_date|e]; [|left; reflexivity].
  destruct (fetch_served_or_refreshed portal_list clock land w) as [H|H].
  - left. destruct (Server._get_entries_cached portal_list clock land w)
      as [[raws|e] w1]; exact H.
  - right. exists land. split; [reflexivity|]. split; [exact H|].
    destruct (Server._get_entries_cached portal_list clock land w)
      as [[raws|e] w1]; reflexivity.
Qed.

Lemma respond_world (m : Server.method (list Listing)) (w : Server.world) :
  snd (Server.respond m w) = snd (m w).
Proof. unfold Server.respond. destruct (m w) as [[r|e] w']; reflexivity. Qed.

(** X10.  The first fetch for a state, when the cache has no slot for
    it, calls the provider once and passes its answer on; an entry list is
    stored with the time of the fetch, and an exception of the provider
    leaves the cache empty for this state. *)
Theorem cache_first_fetch_calls_provider
    (portal_list : Land → outcome (list raw_item)) (now : Q) (land : Land)
    (w : Server.world) :
  Server._entries_cache (Server.self w) !! name land = None →
  refreshed portal_list now land w
    (Server._get_entries_cached portal_list now land w).
Proof. exact (cached_miss portal_list now land w). Qed.

Lemma cache_first_fetch_calls_provider_witness :
  refreshed (fun _ => Return [OtherRecord]) 1000 thueringen server_world
    (Server._get_entries_cached (fun _ => Return [OtherRecord]) 1000
       thueringen server_world).
Proof.
  apply cache_first_fetch_calls_provider. vm_compute. reflexivity.
Defined.

(** X11.  What a fetch has got from the provider, for want of a fresh
    slot, the next fetch for the same state gives again without a call of
    the provider, as long as the time since the first fetch, the
    difference of the two clock readings as a float, is less than the
    time-to-live. *)
Theorem cache_serves_what_it_fetched
    (portal_list portal_list' : Land → outcome (list raw_item))
    (t0 t1 : Q) (land : Land) (w w1 : Server.world) (es : list raw_item) :
  (∀ slot, Server._entries_cache (Server.self w) !! name land = Some slot →
           Server.fresh t0 slot (Server._cache_ttl_seconds (Server.self w))
           = false) →
  Server._get_entries_cached portal_list t0 land w = (Return es, w1) →
  float_lt_int (float_sub t1 t0) (Server._cache_ttl_seconds (Server.self w))
  = true →
  Server._get_entries_cached portal_list' t1 land w1 = (Return es, w1).
Proof.
  intros Hstale H0 Hage.
  assert (Hr : refreshed portal_list t0 land w
                 (Server._get_entries_cached portal_list t0 land w)).
  { destruct (Server._entries_cache (Server.self w) !! name land)
      as [slot|] eqn:Hslot.
    - exact (cached_stale _ _ _ _ _ Hslot (Hstale slot eq_refl)).
    - exact (cached_miss _ _ _ _ Hslot). }
  rewrite H0 in Hr. destruct Hr as (_ & Hp & _ & Httl & _ & Hret).
  cbn [fst snd] in *. symmetry in Hp. specialize (Hret es Hp).
  apply (cached_hit portal_list' t1 land w1
           {| Server.ts := t0; Server.entries := es |}).
  - rewrite Hret. apply lookup_insert_eq.
  - unfold Server.fresh. cbn [Server.ts]. rewrite Httl. exact Hage.
Qed.

Lemma cache_serves_what_it_fetched_witness :
  let w1 := snd (Server._get_entries_cached (fun _ => Return [OtherRecord])
                   1000 thueringen server_world) in
  Server._get_entries_cached (fun _ => Raise (UpstreamError [])) 2799
    thueringen w1 = (Return [OtherRecord], w1).
Proof.
  cbv zeta.
  apply (cache_serves_what_it_fetched (fun _ => Return [OtherRecord])
           (fun _ => Raise (UpstreamError [])) 1000 2799 thueringen
           server_world).
  - intros slot H. vm_compute in H. discriminate H.
  - vm_compute. reflexivity.
  - vm_compute. reflexivity.
Defined.

(** X12.  A fetch for one state, served or refreshed, done or failed,
    leaves alone the slots of the states with other names, the registry
    and the time-to-live. *)
Theorem cache_fetch_keeps_other_slots
    (portal_list : Land → outcome (list raw_item)) (now : Q) (land : Land)
    (w : Server.world) (key : str) :
  key ≠ name land →
  let w' := snd (Server._get_entries_cached portal_list now land w) in
  Server._entries_cache (Server.self w') !! key
  = Server._entries_cache (Server.self w) !! key
  ∧ Server.state_map (Server.self w') = Server.state_map (Server.self w)
  ∧ Server._cache_ttl_seconds (Server.self w')
    = Server._cache_ttl_seconds (Server.self w).
Proof.
  intros Hkey w'. subst w'.
  destruct (fetch_served_or_refreshed portal_list now land w) as [->|H];
    [auto|].
  split; [exact (refreshed_frame _ _ _ _ _ key H Hkey)|].
  destruct H as (_ & _ & Hmap & Httl & _). auto.
Qed.

Lemma cache_fetch_keeps_other_slots_witness :
  let w' := snd (Server._get_entries_cached (fun _ => Return [OtherRecord])
                   2800 baden_wuerttemberg cached_world) in
  Server._entries_cache (Server.self w') !! u "Thueringen"
  = Server._entries_cache (Server.self cached_world) !! u "Thueringen".
Proof.
  cbv zeta.
  apply (cache_fetch_keeps_other_slots (fun _ => Return [OtherRecord]) 2800
           baden_wuerttemberg cached_world (u "Thueringen")).
  vm_compute. discriminate.
Defined.

(** X13.  A request calls the provider at most once, and only for the
    state that the registry gives for the [state] of the query; it changes
    neither the registry nor the time-to-live. *)
Theorem request_calls_provider_at_most_once
    (portal_list : Land → outcome (list raw_item)) (clock : Q)
    (now : datetime) (path : str) (query : list (str * str))
    (w : Server.world) :
  let w' := snd (Server.do_GET portal_list clock now path query w) in
  (Server.upstream_calls w' = Server.upstream_calls w
   ∨ ∃ land,
       Server.state_map (Server.self w)
       !! List.hd [] (values_of Server.k_state query) = Some land
       ∧ Server.upstream_calls w' = land :: Server.upstream_calls w)
  ∧ Server.state_map (Server.self w') = Server.state_map (Server.self w)
  ∧ Server._cache_ttl_seconds (Server.self w')
    = Server._cache_ttl_seconds (Server.self w).
Proof.
  cbv zeta. destruct (eqb path Server.api_search) eqn:E.
  - apply eqb_eq in E. subst path. rewrite do_GET_search, respond_world.
    match goal with |- context [Server.search ?p ?c ?n ?s ?a ?t ?m w] =>
      destruct (search_world p c n s a t m w) as [->|(land & Hl & Hr & ->)]
    end; [auto|].
    destruct Hr as (Hcalls & _ & Hmap & Httl & _). split; [|auto].
    right. exists land. auto.
  - unfold Server.do_GET. rewrite E. simpl. auto.
Qed.

(** ** The search and its answer *)

Lemma auction_accepted (ats : list str) (art : str) :
  auction_rejected ats art = false → art = [] ∨ ats = [] ∨ art ∈ ats.
Proof.
  unfold auction_rejected. intros H.
  destruct art as [|c art]; [auto|]. destruct ats as [|a ats]; [auto|].
  cbn [nonempty andb] in H. apply negb_false_iff, existsb_exists in H.
  destruct H as (x & Hin & Hx). apply eqb_eq in Hx. subst x.
  right. right. apply list_elem_of_In, Hin.
Qed.

Lemma app_listing_id state entry dt art prop :
  l_id (App.listing_of state entry dt art prop) = zvg_id entry.
Proof.
  unfold App.listing_of. destruct (App.address entry) as [[[? ?] ?] ?].
  reflexivity.
Qed.

Lemma server_listing_id state entry dt art prop :
  l_id (Server.listing_of state entry dt art prop) = zvg_id entry.
Proof.
  unfold Server.listing_of.
  destruct (Server.address entry (Server.location entry)) as [[[? ?] ?] ?].
  reflexivity.
Qed.

(** The listings of a loop over the provider's records come from a
    selection of its entries, in the provider's order. *)
Lemma listed_selection (state : str)
    (listing : raw_item → option Listing) (raws : list raw_item) :
  (∀ entry l, listing (Objekt entry) = Some l →
              l_id l = zvg_id entry ∧ l_state l = state) →
  listing OtherRecord = None →
  ∃ entries,
    sublist (List.map Objekt entries) raws
    ∧ Forall2 (fun l entry => l_id l = zvg_id entry ∧ l_state l = state)
        (omap listing raws) entries.
Proof.
  intros Hl Ho. induction raws as [|raw raws (entries & Hsub & Hall)].
  - exists []. split; constructor.
  - cbn [omap list_omap]. destruct raw as [entry|].
    + destruct (listing (Objekt entry)) as [l|] eqn:E.
      * exists (entry :: entries). split; [constructor; exact Hsub|].
        constructor; [exact (Hl _ _ E) | exact Hall].
      * exists entries. split; [constructor; exact Hsub | exact Hall].
    + rewrite Ho. exists entries. split; [constructor; exact Hsub | exact Hall].
Qed.

Lemma app_entry_listing_id_state state ats pts min_date entry l :
  App.entry_listing state ats pts min_date (Objekt entry) = Some l →
  l_id l = zvg_id entry ∧ l_state l = state.
Proof.
  intros H. apply app_entry_listing_Some in H as (dt & prop & _ & _ & _ & _ & ->).
  split; [apply app_listing_id | apply app_listing_fields].
Qed.

Lemma server_entry_listing_id_state state ats pts min_date entry l :
  Server.entry_listing state ats pts min_date (Objekt entry) = Some l →
  l_id l = zvg_id entry ∧ l_state l = state.
Proof.
  intros H.
  apply server_entry_listing_Some in H as (dt & prop & _ & _ & _ & _ & ->).
  split; [apply server_listing_id | apply server_listing_fields].
Qed.

(** X14.  With a list of wanted auction types that is not empty, every
    listing of a search has an auction type of this list or none at all:
    an entry without auction type passes the filter. *)
Theorem listing_auction_type_is_wanted :
  (∀ state_map portal_list now state auctionTypes propertyTypes minDays
     results l,
     App.search state_map portal_list now state auctionTypes propertyTypes
       minDays = Return results →
     l ∈ results → comma_list auctionTypes ≠ [] →
     l_auctionType l = [] ∨ l_auctionType l ∈ comma_list auctionTypes)
  ∧ (∀ portal_list clock now state auction_types property_types min_days
       w results w' l,
       Server.search portal_list clock now state auction_types property_types
         min_days w = (Return results, w') →
       l ∈ results → auction_types ≠ [] →
       l_auctionType l = [] ∨ l_auctionType l ∈ auction_types).
Proof.
  split.
  - intros sm portal now state aT pT minDays results l Hs Hl Hne.
    apply app_search_Return in Hs as (land & min_date & raws & _ & _ & _ & ->).
    apply list_elem_of_omap in Hl as ([entry|] & _ & He); [|discriminate].
    apply app_entry_listing_Some in He as (dt & prop & _ & _ & Hart & _ & ->).
    destruct (app_listing_fields state entry dt (App.auction_type entry) prop)
      as (_ & _ & _ & -> & _).
    apply auction_accepted in Hart as [?|[?|?]]; auto. contradiction.
  - intros portal clock now state ats pts min_days w results w' l Hs Hl Hne.
    apply server_search_Return in Hs
      as [[_ ->]|(land & min_date & raws & _ & _ & _ & ->)]; [inversion Hl|].
    apply list_elem_of_omap in Hl as ([entry|] & _ & He); [|discriminate].
    apply server_entry_listing_Some in He
      as (dt & prop & _ & _ & Hart & _ & ->).
    destruct (server_listing_fields state entry dt
                (Server.auction_type entry) prop) as (_ & _ & _ & -> & _).
    apply auction_accepted in Hart as [?|[?|?]]; auto. contradiction.
Qed.

(** X15.  The listings of a search stand for entries that the provider
    has listed for the state, each entry at most once and in the
    provider's order: every listing has the id of its entry and, as its
    state, the text of the request. *)
Theorem listings_follow_provider_entries :
  (∀ state_map portal_list now state auctionTypes propertyTypes minDays
     results,
     App.search state_map portal_list now state auctionTypes propertyTypes
       minDays = Return results →
     ∃ land raws entries,
       App.resolve state_map state = Some land
       ∧ portal_list land = Return raws
       ∧ sublist (List.map Objekt entries) raws
       ∧ Forall2 (fun l entry => l_id l = zvg_id entry ∧ l_state l = state)
           results entries)
  ∧ (∀ portal_list clock now state auction_types property_types min_days
       w results w' land,
       Server.search portal_list clock now state auction_types property_types
         min_days w = (Return results, w') →
       Server.state_map (Server.self w) !! state = Some land →
       ∃ raws entries,
         Server._get_entries_cached portal_list clock land w
         = (Return raws, w')
         ∧ sublist (List.map Objekt entries) raws
         ∧ Forall2 (fun l entry => l_id l = zvg_id entry ∧ l_state l = state)
             results entries).
Proof.
  split.
  - intros sm portal now state aT pT minDays results Hs.
    apply app_search_Return in Hs
      as (land & min_date & raws & Hland & _ & Hp & ->).
    destruct (listed_selection state
                (App.entry_listing state (comma_list aT) (comma_list pT)
                   min_date) raws) as (entries & Hsub & Hall).
    + intros entry l. apply app_entry_listing_id_state.
    + reflexivity.
    + exists land, raws, entries. auto.
  - intros portal clock now state ats pts min_days w results w' land Hs Hland.
    apply server_search_Return in Hs
      as [[Hnone _]|(land' & min_date & raws & Hland' & _ & Hc & ->)];
      [congruence|].
    assert (land' = land) as -> by congruence.
    destruct (listed_selection state
                (Server.entry_listing state ats pts min_date) raws)
      as (entries & Hsub & Hall).
    + intros entry l. apply server_entry_listing_id_state.
    + reflexivity.
    + exists raws, entries. auto.
Qed.

Lemma listing_auction_type_is_wanted_witness :
  let wanted := u "Versteigerung im Wege der Zwangsvollstreckung" in
  let l := App.listing_of (u "Thueringen") reihenhaus_entry
             (Datetime (Date 2025 8 7) 10 0) wanted [] in
  App.search (App.state_map bundeslaender)
    (fun _ => Return [Objekt reihenhaus_entry])
    (Datetime (Date 2025 8 1) 12 0) (u "Thueringen") wanted [] 0
  = Return [l]
  ∧ (l_auctionType l = [] ∨ l_auctionType l ∈ comma_list wanted).
Proof.
  cbv zeta.
  assert (Hs : App.search (App.state_map bundeslaender)
                 (fun _ => Return [Objekt reihenhaus_entry])
                 (Datetime (Date 2025 8 1) 12 0) (u "Thueringen")
                 (u "Versteigerung im Wege der Zwangsvollstreckung") [] 0
               = Return
                   [App.listing_of (u "Thueringen") reihenhaus_entry
                      (Datetime (Date 2025 8 7) 10 0)
                      (u "Versteigerung im Wege der Zwangsvollstreckung") []])
    by (vm_compute; reflexivity).
  split; [exact Hs|].
  apply (proj1 listing_auction_type_is_wanted _ _ _ _ _ _ _ _ _ Hs).
  - left.
  - vm_compute. discriminate.
Defined.

Lemma listings_follow_provider_entries_witness :
  let raws := [OtherRecord; Objekt reihenhaus_entry; Objekt suedwieke_entry] in
  let l := App.listing_of (u "Thueringen") reihenhaus_entry
             (Datetime (Date 2025 8 7) 10 0)
             (App.auction_type reihenhaus_entry) [] in
  App.search (App.state_map bundeslaender) (fun _ => Return raws)
    (Datetime (Date 2025 8 1) 12 0) (u "Thueringen") [] [] 0
  = Return [l]
  ∧ ∃ land raws' entries,
      App.resolve (App.state_map bundeslaender) (u "Thueringen") = Some land
      ∧ Return raws = Return raws'
      ∧ sublist (List.map Objekt entries) raws'
      ∧ Forall2 (fun l entry => l_id l = zvg_id entry
                                ∧ l_state l = u "Thueringen")
          [l] entries.
Proof.
  cbv zeta.
  assert (Hs : App.search (App.state_map bundeslaender)
                 (fun _ => Return
                    [OtherRecord; Objekt reihenhaus_entry;
                     Objekt suedwieke_entry])
                 (Datetime (Date 2025 8 1) 12 0) (u "Thueringen") [] [] 0
               = Return
                   [App.listing_of (u "Thueringen") reihenhaus_entry
                      (Datetime (Date 2025 8 7) 10 0)
                      (App.auction_type reihenhaus_entry) []])
    by (vm_compute; reflexivity).
  split; [exact Hs|].
  exact (proj1 listings_follow_provider_entries _ _ _ _ _ _ _ _ Hs).
Defined.

(** ** Property types *)

Lemma unknown_label_matches_nothing keywords text label :
  label ∉ List.map fst keywords → ¬ candidate_matches keywords text label.
Proof.
  intros H (kw & Hkw & _). apply dict_get_None in H. rewrite H in Hkw.
  inversion Hkw.
Qed.

(** The keywords of the two backends find the same labels. *)
Lemma keywords_agree (text ptype : str) :
  List.existsb (fun kw => contains kw text)
    (default [] (dict_get ptype App.property_keywords))
  = List.existsb (fun kw => contains kw text)
      (default [] (dict_get ptype Server.property_keywords)).
Proof.
  unfold App.property_keywords, Server.property_keywords.
  cbn [dict_get].
  repeat match goal with
         | |- context [eqb ptype ?k] => destruct (eqb ptype k)
         end;
    cbn [default id List.existsb]; try reflexivity.
  repeat match goal with
         | |- context [contains ?k text] => destruct (contains k text)
         end; reflexivity.
Qed.

Lemma first_property_type_agree (text : str) (selected : list str) :
  first_property_type App.property_keywords text selected
  = first_property_type Server.property_keywords text selected.
Proof.
  induction selected as [|ptype rest IH]; [reflexivity|].
  cbn [first_property_type]. rewrite keywords_agree, IH. reflexivity.
Qed.

(** X16.  The property type that [determine_property_type] of [app.py]
    finds in a text for a list of candidates is the one that
    [_determine_property_type] of [server.py] finds; a second mention of
    a keyword in the table of [server.py] makes no difference. *)
Theorem property_type_functions_agree (text : str) (selected : list str) :
  App.determine_property_type text selected
  = Server._determine_property_type text selected.
Proof. exact (first_property_type_agree text selected). Qed.

(** X17.  A request whose property types are all outside the five labels
    of the keyword table gets an empty list, whatever the provider
    lists. *)
Theorem unknown_property_types_list_nothing :
  (∀ state_map portal_list now state auctionTypes propertyTypes minDays
     results,
     App.search state_map portal_list now state auctionTypes propertyTypes
       minDays = Return results →
     comma_list propertyTypes ≠ [] →
     (∀ p, p ∈ comma_list propertyTypes →
           p ∉ List.map fst App.property_keywords) →
     results = [])
  ∧ (∀ portal_list clock now state auction_types property_types min_days
       w results w',
       Server.search portal_list clock now state auction_types property_types
         min_days w = (Return results, w') →
       property_types ≠ [] →
       (∀ p, p ∈ property_types → p ∉ List.map fst Server.property_keywords) →
       results = []).
Proof.
  split.
  - intros sm portal now state aT pT minDays results Hs Hne Hunknown.
    apply app_search_Return in Hs as (land & min_date & raws & _ & _ & _ & ->).
    destruct (omap _ raws) as [|l ls] eqn:E; [reflexivity|]. exfalso.
    assert (Hl : l ∈ omap (App.entry_listing state (comma_list aT)
                             (comma_list pT) min_date) raws)
      by (rewrite E; left).
    apply list_elem_of_omap in Hl as ([entry|] & _ & He); [|discriminate].
    apply app_entry_listing_Some in He as (dt & prop & _ & _ & _ & Hp & _).
    assert (Hnone : App.property_type (comma_list pT) (App.entry_text entry)
                    = None).
    { apply app_property_type_None. split; [exact Hne|].
      intros c Hc. apply unknown_label_matches_nothing, Hunknown, Hc. }
    congruence.
  - intros portal clock now state ats pts min_days w results w' Hs Hne
      Hunknown.
    apply server_search_Return in Hs
      as [[_ ->]|(land & min_date & raws & _ & _ & _ & ->)]; [reflexivity|].
    destruct (omap _ raws) as [|l ls] eqn:E; [reflexivity|]. exfalso.
    assert (Hl : l ∈ omap (Server.entry_listing state ats pts min_date) raws)
      by (rewrite E; left).
    apply list_elem_of_omap in Hl as ([entry|] & _ & He); [|discriminate].
    apply server_entry_listing_Some in He as (dt & prop & _ & _ & _ & Hp & _).
    assert (Hnone : Server.property_type pts (Server.entry_text entry) = None).
    { apply server_property_type_None. split; [exact Hne|].
      intros c Hc. apply unknown_label_matches_nothing, Hunknown, Hc. }
    congruence.
Qed.

Lemma unknown_property_types_list_nothing_witness :
  App.search (App.state_map bundeslaender)
    (fun _ => Return [Objekt reihenhaus_entry])
    (Datetime (Date 2025 8 1) 12 0) (u "Thueringen") [] (u "Villa,Schloss") 0
  = Return [].
Proof.
  destruct (App.search (App.state_map bundeslaender)
              (fun _ => Return [Objekt reihenhaus_entry])
              (Datetime (Date 2025 8 1) 12 0) (u "Thueringen") []
              (u "Villa,Schloss") 0) as [results|e] eqn:Hs;
    [|vm_compute in Hs; discriminate Hs].
  f_equal.
  apply (proj1 unknown_property_types_list_nothing _ _ _ _ _ _ _ _ Hs).
  - vm_compute. discriminate.
  - intros p Hp. vm_compute in Hp. apply dict_get_None.
    repeat (apply elem_of_cons in Hp as [->|Hp]; [vm_compute; reflexivity|]).
    inversion Hp.
Defined.

(** ** The two backends on one entry *)

Lemma strip_elem (c : N) (s : str) : c ∈ strip s → c ∈ s.
Proof.
  unfold strip. intros H.
  destruct (rstrip_split s) as (ws' & Hs & _).
  destruct (lstrip_split (rstrip s)) as (ws & Hr & _).
  rewrite Hs, Hr. apply elem_of_app. left. apply elem_of_app. right. exact H.
Qed.

Lemma unmarked_strip (s : str) : unmarked s → unmarked (strip s).
Proof.
  intros [H3 H2]. split; intros H; apply strip_elem in H; contradiction.
Qed.

Lemma fix_encoding_id (s : str) : unmarked s → Server._fix_encoding s = s.
Proof. intros [H3 H2]. apply fix_encoding_unmarked; assumption. Qed.

(** X18.  An entry whose texts hold neither Ã nor Â is listed by
    [server.py] exactly as [app.py] lists it, or left out by both. *)
Theorem backends_list_unmarked_entry_alike
    (state : str) (auction_types property_types : list str) (min_date : date)
    (entry : ObjektEntry) :
  unmarked (or_empty (termin_as_str entry)) →
  unmarked (or_empty (art_der_versteigerung entry)) →
  unmarked (or_empty (objekt_lage entry)) →
  unmarked (or_empty (beschreibung entry)) →
  (∀ a, adresse entry = Some a →
        unmarked (or_empty (strasse a)) ∧ unmarked (or_empty (plz a))
        ∧ unmarked (or_empty (ort a))) →
  Server.entry_listing state auction_types property_types min_date
    (Objekt entry)
  = App.entry_listing state auction_types property_types min_date
      (Objekt entry).
Proof.
  intros Ht Hart Hlage Hb Ha.
  assert (Edt : Server.auction_datetime entry = App.auction_datetime entry).
  { unfold Server.auction_datetime, App.auction_datetime.
    rewrite (fix_encoding_id _ Ht).
    rewrite (parse_agree (or_empty (termin_as_str entry))). reflexivity. }
  assert (Eart : Server.auction_type entry = App.auction_type entry).
  { unfold Server.auction_type, App.auction_type.
    apply fix_encoding_id, unmarked_strip, Hart. }
  assert (Eloc : Server.location entry = or_empty (objekt_lage entry)).
  { apply fix_encoding_id, Hlage. }
  assert (Etext : Server.entry_text entry = App.entry_text entry).
  { unfold Server.entry_text, App.entry_text.
    rewrite Eloc, (fix_encoding_id _ Hb). reflexivity. }
  assert (Eprop : ∀ text, Server.property_type property_types text
                          = App.property_type property_types text).
  { intros text. unfold Server.property_type, App.property_type,
      Server._determine_property_type, App.determine_property_type.
    rewrite first_property_type_agree. reflexivity. }
  assert (Eaddr : Server.address entry (Server.location entry)
                  = App.address entry).
  { unfold Server.address, App.address. rewrite Eloc.
    destruct (adresse entry) as [a|] eqn:E; [|reflexivity].
    destruct (Ha a eq_refl) as (H1 & H2 & H3).
    rewrite !fix_encoding_id by assumption. reflexivity. }
  unfold Server.entry_listing, App.entry_listing, Server.entry_body,
    App.entry_body, Server.listing_of, App.listing_of.
  rewrite Edt, Eart, Etext, Eprop, Eaddr. reflexivity.
Qed.

Lemma backends_list_unmarked_entry_alike_witness :
  Server.entry_listing (u "Thueringen") [] [u "Reihenhaus"] (Date 2025 8 1)
    (Objekt reihenhaus_entry)
  = App.entry_listing (u "Thueringen") [] [u "Reihenhaus"] (Date 2025 8 1)
      (Objekt reihenhaus_entry).
Proof.
  apply backends_list_unmarked_entry_alike;
    try (split; apply absent_check; vm_compute; reflexivity).
  intros a [= <-].
  repeat split; apply absent_check; vm_compute; reflexivity.
Defined.

(** ** The answers of the request handler *)

Lemma search_overflow portal_list clock now state ats pts min_days w land e :
  Server.state_map (Server.self w) !! state = Some land →
  plus_days now min_days = Raise e →
  Server.search portal_list clock now state ats pts min_days w = (Raise e, w).
Proof.
  intros Hland Hdays. unfold Server.search. rewrite Hland.
  unfold mbind, Server.method_bind, Server.lift. rewrite Hdays. reflexivity.
Qed.

Lemma plus_days_raises now n e :
  plus_days now n = Raise e → e = OverflowError.
Proof.
  unfold plus_days. destruct (999999999 <? Z.abs n)%Z; [congruence|].
  cbv zeta. destruct (_ && _); [discriminate | congruence].
Qed.

(** X19.  A number of days that leads out of the calendar, beyond the
    year 9999 or before the year 1, or that is above 999999999 in
    absolute value, is a failure of the request for a known state:
    [server.py] answers with status 500 and the overflow error, without a
    call of the provider, and the search of [app.py] raises this error. *)
Theorem min_days_out_of_calendar_fails_request :
  (∀ portal_list clock now query w land e,
     Server.state_map (Server.self w)
     !! List.hd [] (values_of Server.k_state query) = Some land →
     plus_days now
       (default 0%Z
          (int_of_str (List.hd Server.zero (values_of Server.k_minDays query))))
     = Raise e →
     Server.do_GET portal_list clock now Server.api_search query w
     = (Return {| Server.status := 500; Server.body := Server.Error e |}, w)
       ∧ e = OverflowError)
  ∧ (∀ state_map portal_list now state auctionTypes propertyTypes minDays
       land e,
       App.resolve state_map state = Some land →
       plus_days now minDays = Raise e →
       App.search state_map portal_list now state auctionTypes propertyTypes
         minDays = Raise e
       ∧ e = OverflowError).
Proof.
  split.
  - intros portal clock now query w land e Hland Hdays.
    split; [|exact (plus_days_raises _ _ _ Hdays)].
    rewrite do_GET_search. unfold Server.respond.
    rewrite (search_overflow _ _ _ _ _ _ _ _ land e Hland Hdays).
    reflexivity.
  - intros sm portal now state aT pT minDays land e Hland Hdays.
    split; [|exact (plus_days_raises _ _ _ Hdays)].
    unfold App.search. rewrite Hland. cbv zeta. rewrite Hdays. reflexivity.
Qed.

Lemma min_days_out_of_calendar_fails_request_witness :
  Server.do_GET (fun _ => Return []) 0 (Datetime (Date 2025 8 1) 12 0)
    Server.api_search
    [(Server.k_state, u "Thueringen"); (Server.k_minDays, u "3000000")]
    server_world
  = (Return {| Server.status := 500;
               Server.body := Server.Error OverflowError |}, server_world).
Proof.
  apply (proj1 (proj1 min_days_out_of_calendar_fails_request
                  (fun _ => Return []) 0%Q (Datetime (Date 2025 8 1) 12 0)
                  [(Server.k_state, u "Thueringen");
                   (Server.k_minDays, u "3000000")]
                  server_world thueringen OverflowError
                  ltac:(vm_compute; reflexivity)
                  ltac:(vm_compute; reflexivity))).
Defined.

(** ** Lists in a query parameter *)

Lemma split_on_no_sep (sep : N) (s : str) :
  Forall (fun x => sep ∉ x) (split_on sep s).
Proof.
  induction s as [|c s IH]; simpl.
  - constructor; [|constructor]. intros H. inversion H.
  - destruct (N.eqb_spec c sep) as [->|Hne].
    + constructor; [|exact IH]. intros H. inversion H.
    + destruct (split_on sep s) as [|p ps].
      * constructor; [|constructor]. intros H.
        apply elem_of_cons in H as [H|H]; [congruence | inversion H].
      * apply Forall_cons in IH as [Hp Hps]. constructor; [|exact Hps].
        intros H. apply elem_of_cons in H as [H|H]; [congruence | auto].
Qed.

Lemma split_on_join (sep : N) (xs : list str) :
  xs ≠ [] → Forall (fun x => sep ∉ x) xs →
  split_on sep (join [sep] xs) = xs.
Proof.
  intros Hne Hall. induction Hall as [|x xs Hx Hall IH]; [congruence|].
  destruct xs as [|y ys].
  - cbn [join]. apply split_on_absent, Hx.
  - cbn [join]. cbn [app]. rewrite (split_on_app _ _ _ Hx).
    f_equal. apply IH. discriminate.
Qed.

Lemma nonempty_true (x : str) : nonempty x = true ↔ x ≠ [].
Proof. destruct x; simpl; split; congruence. Qed.

(** X21.  The list read from a query parameter holds no empty text and
    no text with a comma, and texts without commas that are joined by
    commas are read back as they were, the empty ones left out. *)
Theorem comma_list_reads_joined_texts :
  (∀ s, Forall (fun x => x ≠ [] ∧ comma ∉ x) (comma_list s))
  ∧ (∀ xs, Forall (fun x => comma ∉ x) xs →
           comma_list (join [comma] xs) = List.filter nonempty xs).
Proof.
  split.
  - intros s. unfold comma_list. apply Forall_forall. intros x Hx.
    apply list_elem_of_In, filter_In in Hx as [Hin Hne].
    split; [apply nonempty_true, Hne|].
    pose proof (split_on_no_sep comma s) as Hall.
    rewrite Forall_forall in Hall. apply Hall, list_elem_of_In, Hin.
  - intros xs Hall. unfold comma_list. destruct xs as [|x xs].
    + reflexivity.
    + rewrite split_on_join by (auto; discriminate). reflexivity.
Qed.

Lemma comma_list_reads_joined_texts_witness :
  comma_list (join [comma] [u "Reihenhaus"; []; u "Einfamilienhaus"])
  = [u "Reihenhaus"; u "Einfamilienhaus"].
Proof.
  refine (eq_trans (proj2 comma_list_reads_joined_texts
                      [u "Reihenhaus"; []; u "Einfamilienhaus"] _) _).
  - repeat constructor; apply absent_check; vm_compute; reflexivity.
  - vm_compute. reflexivity.
Defined.

(** ** From a timestamp to its text and back *)

Lemma digit_plain (c : N) : (48 <= c <= 57)%N → plain c.
Proof.
  intros H.
  assert (Hc : (c = 48 ∨ c = 49 ∨ c = 50 ∨ c = 51 ∨ c = 52 ∨ c = 53
                ∨ c = 54 ∨ c = 55 ∨ c = 56 ∨ c = 57)%N) by lia.
  unfold plain.
  repeat (destruct Hc as [->|Hc]; [repeat split; (reflexivity || lia)|]).
  subst c. repeat split; (reflexivity || lia).
Qed.

Lemma digits_of_digits (w : nat) (z : Z) :
  Forall (fun c => (48 <= c <= 57)%N) (digits_of w z).
Proof.
  revert z. induction w as [|w IH]; intros z; cbn [digits_of]; [constructor|].
  apply Forall_app. split; [apply IH|].
  constructor; [|constructor]. lia.
Qed.

Lemma digits_of_plain (w : nat) (z : Z) : Forall plain (digits_of w z).
Proof.
  eapply Forall_impl; [apply digits_of_digits|]. apply digit_plain.
Qed.

Lemma digits_of_length (w : nat) (z : Z) : length (digits_of w z) = w.
Proof.
  revert z. induction w as [|w IH]; intros z; cbn [digits_of]; [reflexivity|].
  rewrite length_app, IH. simpl. lia.
Qed.

Lemma digits_of_nonempty (w : nat) (z : Z) : digits_of (S w) z ≠ [].
Proof.
  intros H. apply (f_equal (@length N)) in H.
  rewrite digits_of_length in H. discriminate.
Qed.

Lemma plain_check (s : str) :
  forallb (fun c => negb (isspace c) && negb (c =? 46)%N && negb (c =? 44)%N
                    && negb (c =? 58)%N) s = true →
  Forall plain s.
Proof.
  intros H. apply Forall_forall. intros c Hc.
  rewrite forallb_forall in H. apply list_elem_of_In, H in Hc.
  repeat (apply andb_prop in Hc as [Hc ?]).
  unfold plain. repeat split;
    try (apply N.eqb_neq, negb_true_iff; assumption).
  apply negb_true_iff. assumption.
Qed.

Lemma month_name_word (m : Z) :
  (1 <= m <= 12)%Z →
  Forall plain (month_name m) ∧ month_name m ≠ []
  ∧ dict_get (month_name m) MONTHS = Some m.
Proof.
  intros H.
  assert (Hm : (m = 1 ∨ m = 2 ∨ m = 3 ∨ m = 4 ∨ m = 5 ∨ m = 6 ∨ m = 7
                ∨ m = 8 ∨ m = 9 ∨ m = 10 ∨ m = 11 ∨ m = 12)%Z) by lia.
  repeat (destruct Hm as [->|Hm];
          [split; [apply plain_check; vm_compute; reflexivity|];
           split; [vm_compute; discriminate | vm_compute; reflexivity]|]).
  subst m. split; [apply plain_check; vm_compute; reflexivity|].
  split; [vm_compute; discriminate | vm_compute; reflexivity].
Qed.

(** *** Words between white space *)

Lemma plain_absent (c : N) (s : str) :
  (c = 46 ∨ c = 44 ∨ c = 58)%N → Forall plain s → c ∉ s.
Proof.
  intros Hc Hs Hin. rewrite Forall_forall in Hs.
  destruct (Hs c Hin) as (_ & H1 & H2 & H3). destruct Hc as [?|[?|?]]; auto.
Qed.

Lemma lstrip_plain (s : str) :
  isspace (List.hd 0%N s) = false → lstrip s = s.
Proof. destruct s as [|c s]; simpl; [reflexivity|]. intros ->. reflexivity. Qed.

Lemma rstrip_plain (s : str) :
  isspace (List.last s 0%N) = false → rstrip s = s.
Proof.
  intros H. unfold rstrip.
  destruct (List.rev s) as [|c r] eqn:E.
  - apply (f_equal (@List.rev N)) in E. rewrite rev_involutive in E.
    rewrite E. reflexivity.
  - apply (f_equal (@List.rev N)) in E. rewrite rev_involutive in E.
    simpl in E. subst s. rewrite List.last_last in H.
    cbn [lstrip]. rewrite H. reflexivity.
Qed.

Lemma strip_plain_ends (s : str) :
  isspace (List.hd 0%N s) = false → isspace (List.last s 0%N) = false →
  strip s = s.
Proof.
  intros Hh Hl. unfold strip. rewrite (rstrip_plain s Hl).
  apply lstrip_plain, Hh.
Qed.

Lemma plain_hd (w rest : str) :
  w ≠ [] → Forall plain w → isspace (List.hd 0%N (w ++ rest)) = false.
Proof.
  intros Hne Hw. destruct w as [|c w]; [congruence|].
  apply Forall_cons in Hw as [[Hc _] _]. exact Hc.
Qed.

Lemma plain_last (front w : str) :
  w ≠ [] → Forall plain w → isspace (List.last (front ++ w) 0%N) = false.
Proof.
  intros Hne Hw. destruct (List.exists_last Hne) as (w' & c & ->).
  rewrite app_assoc, List.last_last.
  apply Forall_app in Hw as [_ Hc]. apply Forall_cons in Hc as [[Hc _] _].
  exact Hc.
Qed.

Lemma split_from_word (w : str) :
  Forall plain w →
  ∀ tok rest, split_from tok (w ++ rest) = split_from (List.rev w ++ tok) rest.
Proof.
  induction 1 as [|c w [Hc _] _ IH]; intros tok rest; [reflexivity|].
  cbn [app split_from List.rev]. rewrite Hc, IH, <- app_assoc. reflexivity.
Qed.

Lemma split_word_space (w rest : str) :
  w ≠ [] → Forall plain w →
  split_from [] (w ++ 32%N :: rest) = w :: split_from [] rest.
Proof.
  intros Hne Hw. rewrite (split_from_word w Hw). rewrite app_nil_r.
  cbn [split_from]. change (isspace 32) with true. cbv iota.
  unfold flush. destruct (List.rev w) as [|c r] eqn:E.
  - apply (f_equal (@List.rev N)) in E. rewrite rev_involutive in E.
    contradiction.
  - rewrite <- E, rev_involutive. reflexivity.
Qed.

Lemma split_word_end (w : str) :
  w ≠ [] → Forall plain w → split_from [] w = [w].
Proof.
  intros Hne Hw. rewrite <- (app_nil_r w) at 1.
  rewrite (split_from_word w Hw). rewrite app_nil_r. cbn [split_from].
  unfold flush. destruct (List.rev w) as [|c r] eqn:E.
  - apply (f_equal (@List.rev N)) in E. rewrite rev_involutive in E.
    contradiction.
  - rewrite <- E, rev_involutive. reflexivity.
Qed.

Lemma replace_char (c : N) (s : str) :
  replace [c] [] s = List.filter (fun x => negb (x =? c)%N) s.
Proof.
  unfold replace. induction s as [|x s IH]; [reflexivity|].
  cbn [replace_from startswith List.filter length Nat.pred].
  replace (startswith s []) with true by (destruct s; reflexivity).
  rewrite andb_true_r, (N.eqb_sym c x).
  destruct (x =? c)%N; cbn [andb negb app]; [exact IH|].
  f_equal. exact IH.
Qed.

Lemma filter_plain (s : str) :
  Forall plain s → List.filter (fun x => negb (x =? 46)%N) s = s.
Proof.
  induction 1 as [|c s (_ & Hc & _) _ IH]; [reflexivity|].
  cbn [List.filter]. apply N.eqb_neq in Hc. rewrite Hc. cbn [negb].
  f_equal. exact IH.
Qed.

(** The tokens of the date segment. *)
Lemma date_segment_tokens (D M Y : str) :
  D ≠ [] → M ≠ [] → Y ≠ [] → Forall plain D → Forall plain M →
  Forall plain Y →
  split (replace dot []
           (strip (space ++ D ++ dot ++ space ++ M ++ space ++ Y)))
  = [D; M; Y].
Proof.
  intros HD HM HY PD PM PY.
  rewrite strip_spaces_l by (repeat constructor).
  rewrite strip_plain_ends.
  2:{ apply plain_hd; assumption. }
  2:{ rewrite !app_assoc. apply plain_last; assumption. }
  change dot with [46%N]. rewrite replace_char.
  rewrite !List.filter_app.
  rewrite (filter_plain D PD), (filter_plain M PM), (filter_plain Y PY).
  change (List.filter _ [46%N]) with (@nil N).
  change (List.filter _ space) with [32%N]. cbn [app].
  unfold split. rewrite (split_word_space D _ HD PD).
  rewrite (split_word_space M _ HM PM). rewrite (split_word_end Y HY PY).
  reflexivity.
Qed.

(** The tokens of the time segment. *)
Lemma time_segment_tokens (H M : str) :
  H ≠ [] → M ≠ [] → Forall plain H → Forall plain M →
  split_on colon
    (without_uhr (strip (space ++ H ++ colon :: M ++ space ++ Uhr)))
  = [H; M].
Proof.
  intros HH HM PH PM.
  rewrite strip_spaces_l by (repeat constructor).
  rewrite strip_plain_ends.
  2:{ apply plain_hd; assumption. }
  2:{ change (H ++ colon :: M ++ space ++ Uhr)
        with (H ++ colon :: M ++ [32%N] ++ Uhr).
      rewrite (app_assoc M), app_comm_cons, app_assoc.
      apply plain_last; [discriminate | apply plain_check; reflexivity]. }
  unfold without_uhr.
  replace (H ++ colon :: M ++ space ++ Uhr)
    with ((H ++ colon :: M) ++ space ++ Uhr)
    by (rewrite <- app_assoc; reflexivity).
  set (T := H ++ colon :: M).
  assert (Hend : endswith (lower (T ++ space ++ Uhr)) uhr = true).
  { unfold endswith, lower. rewrite List.map_app, rev_app_distr.
    reflexivity. }
  rewrite Hend.
  assert (Hdrop : drop_last 3 (T ++ space ++ Uhr) = T ++ space).
  { unfold drop_last. rewrite length_app.
    change (length (space ++ Uhr)) with 4.
    replace (length T + 4 - 3) with (length T + 1) by lia.
    rewrite List.firstn_app.
    replace (length T + 1 - length T) with 1 by lia.
    rewrite List.firstn_all2 by lia. reflexivity. }
  rewrite Hdrop, strip_spaces_r by (repeat constructor).
  rewrite strip_plain_ends.
  2:{ apply plain_hd; assumption. }
  2:{ unfold T. change (H ++ colon :: M) with (H ++ [colon] ++ M).
      rewrite app_assoc. apply plain_last; assumption. }
  unfold T. rewrite split_on_app by (apply plain_absent; auto).
  rewrite split_on_absent by (apply plain_absent; auto). reflexivity.
Qed.

(** *** Numbers in digits *)

Lemma decimal_value_digit (d : Z) :
  (0 <= d <= 9)%Z → decimal_value (48 + Z.to_N d) = Some d.
Proof.
  intros H.
  assert (Hd : (d = 0 ∨ d = 1 ∨ d = 2 ∨ d = 3 ∨ d = 4 ∨ d = 5 ∨ d = 6
                ∨ d = 7 ∨ d = 8 ∨ d = 9)%Z) by lia.
  repeat (destruct Hd as [->|Hd]; [reflexivity|]). subst d. reflexivity.
Qed.

Lemma read_digits_of (w : nat) :
  ∀ (z acc : Z) (count : nat) (rest : str),
    read_digits acc count (digits_of w z ++ rest)
    = read_digits (acc * 10 ^ Z.of_nat w + z mod 10 ^ Z.of_nat w)%Z
        (count + w) rest.
Proof.
  induction w as [|w IH]; intros z acc count rest.
  - cbn [digits_of app]. rewrite Nat.add_0_r. f_equal.
    change (10 ^ Z.of_nat 0)%Z with 1%Z. rewrite Z.mod_1_r. lia.
  - cbn [digits_of]. rewrite <- app_assoc. cbn [app]. rewrite IH.
    cbn [read_digits].
    rewrite decimal_value_digit
      by (pose proof (Z.mod_pos_bound z 10); lia).
    f_equal; [|lia].
    rewrite Nat2Z.inj_succ, Z.pow_succ_r by lia.
    rewrite (Z.rem_mul_r z 10 (10 ^ Z.of_nat w)) by lia. lia.
Qed.

Lemma int_of_digits (w : nat) (z : Z) :
  (0 <= z < 10 ^ Z.of_nat (S w))%Z → S w ≤ max_str_digits →
  int_of_str (digits_of (S w) z) = Some z.
Proof.
  intros Hz Hw. unfold int_of_str.
  pose proof (digits_of_digits (S w) z) as Hd.
  pose proof (read_digits_of (S w) z 0 0 []) as Hread.
  rewrite app_nil_r in Hread.
  destruct (digits_of (S w) z) as [|c r] eqn:E;
    [exfalso; exact (digits_of_nonempty w z E)|].
  apply Forall_cons in Hd as [Hc _].
  destruct (digit_plain c Hc) as (Hsp & _).
  cbn [skip_int_space]. unfold int_space. rewrite Hsp. cbn [andb].
  destruct (N.eqb_spec c 45); [lia|]. destruct (N.eqb_spec c 43); [lia|].
  rewrite Hread. cbn [Nat.add read_digits skip_int_space nonempty].
  destruct (Nat.ltb_spec max_str_digits (S w)); [lia|].
  rewrite Z.mod_small by lia. f_equal; lia.
Qed.

Lemma days_in_month_bound (y m : Z) : (days_in_month y m <= 31)%Z.
Proof.
  unfold days_in_month.
  destruct (m =? 2)%Z; [destruct (is_leap y); lia|].
  destruct (_ || _); lia.
Qed.

Lemma no_comma (s : str) : Forall (fun c => c ≠ 44%N) s → comma ∉ s.
Proof.
  intros H Hin. rewrite Forall_forall in H. exact (H _ Hin eq_refl).
Qed.

Lemma plain_no_comma (s : str) :
  Forall plain s → Forall (fun c => c ≠ 44%N) s.
Proof.
  intros H. eapply Forall_impl; [exact H|].
  intros c (_ & _ & Hc & _). exact Hc.
Qed.

Lemma date_segment_no_comma (D M Y : str) :
  Forall plain D → Forall plain M → Forall plain Y →
  comma ∉ space ++ D ++ dot ++ space ++ M ++ space ++ Y.
Proof.
  intros PD PM PY. apply no_comma.
  repeat (apply Forall_app; split);
    try (apply plain_no_comma; assumption);
    repeat constructor; discriminate.
Qed.

Lemma time_segment_no_comma (H M : str) :
  Forall plain H → Forall plain M →
  comma ∉ space ++ H ++ colon :: M ++ space ++ Uhr.
Proof.
  intros PH PM. apply no_comma.
  change (colon :: M ++ space ++ Uhr) with ([colon] ++ M ++ space ++ Uhr).
  repeat (apply Forall_app; split);
    try (apply plain_no_comma; assumption);
    repeat constructor; discriminate.
Qed.

(** X22.  A timestamp of the calendar, written as
    "<weekday>, dd. <month name> YYYY, HH:MM Uhr" after any weekday text
    without a comma, is read by both parsers as this timestamp. *)
Theorem parse_reads_written_timestamp
    (weekday : str) (y m d h mi : Z) (dt : datetime) :
  comma ∉ weekday →
  datetime_new y (Some m) d h mi = Return dt →
  App.GermanDateParser.parse (german_date_text weekday dt) = Return (Some dt)
  ∧ Server.GermanDateParser.parse (german_date_text weekday dt)
    = Return (Some dt).
Proof.
  intros Hw Hnew. pose proof Hnew as Hvalid.
  apply datetime_new_valid in Hvalid as (-> & Hy & Hm & Hd & Hh & Hmi).
  pose proof (days_in_month_bound y m) as Hdim.
  destruct (month_name_word m Hm) as (PM & NM & GM).
  set (result := Datetime (Date y m d) h mi) in *.
  assert (Hp : Server.GermanDateParser.parse (german_date_text weekday result)
               = Return (Some result));
    [|split; [rewrite (parse_agree (german_date_text weekday result))|];
      exact Hp].
  apply parse_Some_reads.
  unfold german_date_text, result. cbn [dt_date year month day hour minute].
  set (seg1 := space ++ digits_of 2 d ++ dot ++ space ++ month_name m
               ++ space ++ digits_of 4 y).
  set (seg2 := space ++ digits_of 2 h ++ colon :: digits_of 2 mi
               ++ space ++ Uhr).
  assert (H1 : comma ∉ seg1)
    by (apply date_segment_no_comma; first [apply digits_of_plain | exact PM]).
  assert (H2 : comma ∉ seg2)
    by (apply time_segment_no_comma; apply digits_of_plain).
  assert (Hs : split_on comma (weekday ++ comma :: seg1 ++ comma :: seg2)
               = [weekday; seg1; seg2]).
  { rewrite (split_on_app _ _ _ Hw), (split_on_app _ _ _ H1).
    rewrite (split_on_absent _ _ H2). reflexivity. }
  apply (reads_intro _ _ (digits_of 2 d) (month_name m) (digits_of 4 y)
           (digits_of 2 h) (digits_of 2 mi) d m y h mi).
  - rewrite Hs. simpl. lia.
  - unfold date_tokens. rewrite Hs. cbn [List.nth].
    apply date_segment_tokens;
      first [apply digits_of_nonempty | apply digits_of_plain | assumption].
  - unfold time_tokens. rewrite Hs. cbn [List.nth].
    apply time_segment_tokens;
      first [apply digits_of_nonempty | apply digits_of_plain].
  - apply int_of_digits; [|unfold max_str_digits]; lia.
  - exact GM.
  - apply int_of_digits; [|unfold max_str_digits]; lia.
  - apply int_of_digits; [|unfold max_str_digits]; lia.
  - apply int_of_digits; [|unfold max_str_digits]; lia.
  - exact Hnew.
Qed.

Lemma parse_reads_written_timestamp_witness :
  german_date_text (u "Montag") (Datetime (Date 2025 8 7) 10 0)
  = u "Montag, 07. August 2025, 10:00 Uhr"
  ∧ App.GermanDateParser.parse
      (german_date_text (u "Montag") (Datetime (Date 2025 8 7) 10 0))
    = Return (Some (Datetime (Date 2025 8 7) 10 0)).
Proof.
  split; [vm_compute; reflexivity|].
  exact (proj1 (parse_reads_written_timestamp (u "Montag") 2025 8 7 10 0
                  (Datetime (Date 2025 8 7) 10 0)
                  (absent_check comma (u "Montag") eq_refl) eq_refl)).
Defined.

(** ** What the repair leaves alone *)

#[local] Open Scope N_scope.

Lemma is_cont_not_ascii (b : N) : is_cont b = true → is_ascii b = false.
Proof.
  unfold is_cont, is_ascii. intros H. apply andb_prop in H as [H _].
  apply N.leb_le in H. apply N.ltb_ge. lia.
Qed.

(** A well-formed sequence is one ASCII byte, which stands for itself, or
    a lead byte and continuation bytes, none of them ASCII, which stand for
    a character that is not ASCII either. *)
Lemma utf8_head_ascii (b : N) (rest : list N) (cp : N) (len : nat) :
  utf8_head (b :: rest) = Some (cp, len) →
  (is_ascii b = true ∧ cp = b ∧ len = 1%nat)
  ∨ (is_ascii b = false ∧ is_ascii cp = false
     ∧ Forall (fun x => is_cont x = true) (List.firstn (Nat.pred len) rest)).
Proof.
  unfold utf8_head, is_ascii.
  destruct (N.ltb_spec b 0x80) as [Hb|Hb].
  { intros [= <- <-]. left. auto. }
  intros H. right. split; [reflexivity|].
  destruct ((0xC2 <=? b) && (b <=? 0xDF)) eqn:H2.
  { destruct rest as [|b1 r]; [discriminate|].
    destruct (is_cont b1) eqn:C1; [|discriminate].
    injection H as <- <-. apply andb_prop in H2 as [H2 _].
    apply N.leb_le in H2. split; [apply N.ltb_ge; lia|].
    cbn [Nat.pred List.firstn]. repeat constructor. exact C1. }
  destruct ((0xE0 <=? b) && (b <=? 0xEF)) eqn:H3.
  { destruct rest as [|b1 [|b2 r]]; try discriminate.
    destruct (is_cont b1) eqn:C1; [|discriminate].
    destruct (is_cont b2) eqn:C2; [|discriminate].
    cbn [andb] in H.
    destruct (negb (b =? 0xE0) || (0xA0 <=? b1)) eqn:Hlow; [|discriminate].
    destruct (negb (b =? 0xED) || (b1 <=? 0x9F)); [|discriminate].
    injection H as <- <-. apply andb_prop in H3 as [H3 _].
    apply N.leb_le in H3.
    split; [|cbn [Nat.pred List.firstn]; repeat constructor; assumption].
    unfold is_cont in C1, C2.
    apply andb_prop in C1 as [C1 _]. apply andb_prop in C2 as [C2 _].
    apply N.leb_le in C1, C2. apply N.ltb_ge.
    apply orb_prop in Hlow as [Hlow|Hlow].
    - apply negb_true_iff, N.eqb_neq in Hlow. lia.
    - apply N.leb_le in Hlow. lia. }
  destruct ((0xF0 <=? b) && (b <=? 0xF4)) eqn:H4; [|discriminate].
  destruct rest as [|b1 [|b2 [|b3 r]]]; try discriminate.
  destruct (is_cont b1) eqn:C1; [|discriminate].
  destruct (is_cont b2) eqn:C2; [|discriminate].
  destruct (is_cont b3) eqn:C3; [|discriminate].
  cbn [andb] in H.
  destruct (negb (b =? 0xF0) || (0x90 <=? b1)) eqn:Hlow; [|discriminate].
  destruct (negb (b =? 0xF4) || (b1 <=? 0x8F)); [|discriminate].
  injection H as <- <-. apply andb_prop in H4 as [H4 _].
  apply N.leb_le in H4.
  split; [|cbn [Nat.pred List.firstn]; repeat constructor; assumption].
  unfold is_cont in C1, C2, C3.
  apply andb_prop in C1 as [C1 _]. apply andb_prop in C2 as [C2 _].
  apply andb_prop in C3 as [C3 _].
  apply N.leb_le in C1, C2, C3. apply N.ltb_ge.
  apply orb_prop in Hlow as [Hlow|Hlow].
  - apply negb_true_iff, N.eqb_neq in Hlow. lia.
  - apply N.leb_le in Hlow. lia.
Qed.

Lemma utf8_head_invalid (b : N) (rest : list N) :
  utf8_head (b :: rest) = None → is_ascii b = false.
Proof.
  unfold utf8_head, is_ascii. destruct (b <? 0x80); [discriminate | reflexivity].
Qed.

Lemma utf8_decode_ascii (bs : list N) :
  ∀ skip,
    Forall (fun x => is_cont x = true) (List.firstn skip bs) →
    List.filter is_ascii (utf8_decode_from skip bs) = List.filter is_ascii bs.
Proof.
  induction bs as [|b rest IH]; intros skip Hskip; [reflexivity|].
  destruct skip as [|k].
  - cbn [utf8_decode_from].
    destruct (utf8_head (b :: rest)) as [[cp len]|] eqn:Hh.
    + apply utf8_head_ascii in Hh
        as [(Hb & -> & ->)|(Hb & Hcp & Hcont)].
      * cbn [List.filter Nat.pred]. rewrite Hb. f_equal.
        apply IH. constructor.
      * cbn [List.filter]. rewrite Hb, Hcp. apply IH, Hcont.
    + apply utf8_head_invalid in Hh. cbn [List.filter]. rewrite Hh.
      apply IH. constructor.
  - cbn [utf8_decode_from List.firstn] in *.
    apply Forall_cons in Hskip as [Hb Hrest].
    cbn [List.filter]. rewrite (is_cont_not_ascii b Hb). apply IH, Hrest.
Qed.

Lemma latin1_encode_ascii (s : str) :
  List.filter is_ascii (latin1_encode s) = List.filter is_ascii s.
Proof.
  unfold latin1_encode, is_ascii. induction s as [|c s IH]; [reflexivity|].
  cbn [List.filter]. destruct (N.ltb_spec c 256) as [H|H].
  - cbn [List.filter]. rewrite IH. reflexivity.
  - destruct (N.ltb_spec c 128); [lia | exact IH].
Qed.

#[local] Close Scope N_scope.

(** X23.  [_fix_encoding] never adds, drops or moves an ASCII character:
    the ASCII characters of its answer are those of the text, in their
    order. *)
Theorem fix_encoding_keeps_ascii (s : str) :
  List.filter is_ascii (Server._fix_encoding s) = List.filter is_ascii s.
Proof.
  unfold Server._fix_encoding.
  destruct (negb (nonempty s)) eqn:E.
  - destruct s; [reflexivity | discriminate].
  - destruct (_ || _); [|reflexivity].
    unfold utf8_decode. rewrite utf8_decode_ascii by constructor.
    apply latin1_encode_ascii.
Qed.

(** ** Entries that pass the filters *)

(** X24.  An entry of the provider's list that has a timestamp not before
    the minimum date, an auction type that the filter lets pass and a
    property type for the wanted ones is in the answer of the search, with
    this timestamp, auction type and property type. *)
Theorem accepted_entries_are_listed :
  (∀ state_map portal_list now state auctionTypes propertyTypes minDays
     land min_date raws entry dt prop,
     App.resolve state_map state = Some land →
     plus_days now minDays = Return min_date →
     portal_list land = Return raws →
     Objekt entry ∈ raws →
     timestamp_from App.GermanDateParser.parse entry dt →
     date_ltb (dt_date dt) min_date = false →
     auction_rejected (comma_list auctionTypes) (App.auction_type entry)
     = false →
     App.property_type (comma_list propertyTypes) (App.entry_text entry)
     = Some prop →
     ∃ results,
       App.search state_map portal_list now state auctionTypes propertyTypes
         minDays = Return results
       ∧ App.listing_of state entry dt (App.auction_type entry) prop
         ∈ results)
  ∧ (∀ portal_list clock now state auction_types property_types min_days
       w w' land min_date raws entry dt prop,
       Server.state_map (Server.self w) !! state = Some land →
       plus_days now min_days = Return min_date →
       Server._get_entries_cached portal_list clock land w
       = (Return raws, w') →
       Objekt entry ∈ raws →
       timestamp_from
         (fun s => Server.GermanDateParser.parse (Server._fix_encoding s))
         entry dt →
       date_ltb (dt_date dt) min_date = false →
       auction_rejected auction_types (Server.auction_type entry) = false →
       Server.property_type property_types (Server.entry_text entry)
       = Some prop →
       ∃ results,
         Server.search portal_list clock now state auction_types
           property_types min_days w = (Return results, w')
         ∧ Server.listing_of state entry dt (Server.auction_type entry) prop
           ∈ results).
Proof.
  split.
  - intros sm portal now state aT pT minDays land min_date raws entry dt prop
      Hland Hdays Hraws Hin Hdt Hdate Hart Hprop.
    unfold App.search. rewrite Hland. cbv zeta. rewrite Hdays.
    cbn [mbind outcome_bind]. rewrite Hraws. cbn [mbind outcome_bind].
    eexists. split; [reflexivity|].
    apply list_elem_of_omap. exists (Objekt entry). split; [exact Hin|].
    apply app_entry_listing_Some. exists dt, prop.
    apply app_auction_datetime_Some in Hdt. auto.
  - intros portal clock now state ats pts min_days w w' land min_date raws
      entry dt prop Hland Hdays Hraws Hin Hdt Hdate Hart Hprop.
    unfold Server.search. rewrite Hland.
    unfold mbind, Server.method_bind, Server.lift. rewrite Hdays, Hraws.
    eexists. split; [reflexivity|].
    apply list_elem_of_omap. exists (Objekt entry). split; [exact Hin|].
    apply server_entry_listing_Some. exists dt, prop.
    apply server_auction_datetime_Some in Hdt. auto.
Qed.

Lemma accepted_entries_are_listed_witness :
  ∃ results,
    App.search (App.state_map bundeslaender)
      (fun _ => Return [OtherRecord; Objekt reihenhaus_entry])
      (Datetime (Date 2025 8 1) 12 0) (u "Thueringen") []
      (u "Einfamilienhaus,Reihenhaus") 6
    = Return results
    ∧ App.listing_of (u "Thueringen") reihenhaus_entry
        (Datetime (Date 2025 8 7) 10 0) (App.auction_type reihenhaus_entry)
        (u "Reihenhaus")
      ∈ results.
Proof.
  apply (proj1 accepted_entries_are_listed (App.state_map bundeslaender)
           (fun _ => Return [OtherRecord; Objekt reihenhaus_entry])
           (Datetime (Date 2025 8 1) 12 0) (u "Thueringen") []
           (u "Einfamilienhaus,Reihenhaus") 6%Z thueringen (Date 2025 8 7)
           [OtherRecord; Objekt reihenhaus_entry] reihenhaus_entry
           (Datetime (Date 2025 8 7) 10 0) (u "Reihenhaus")).
  - vm_compute. reflexivity.
  - vm_compute. reflexivity.
  - reflexivity.
  - right. left.
  - right. split; [reflexivity|].
    exists (u "Montag, 07. August 2025, 10:00 Uhr").
    split; vm_compute; reflexivity.
  - vm_compute. reflexivity.
  - vm_compute. reflexivity.
  - vm_compute. reflexivity.
Defined.

(** ** A time-to-live of no seconds *)

(** X25.  With a time-to-live of zero or less, every fetch for a state
    whose slot is not from the future goes to the provider: such a value
    of ZVG_CACHE_TTL turns the cache off. *)
Theorem cache_off_without_time_to_live
    (portal_list : Land → outcome (list raw_item)) (now : Q) (land : Land)
    (w : Server.world) :
  (Server._cache_ttl_seconds (Server.self w) <= 0)%Z →
  (∀ slot, Server._entries_cache (Server.self w) !! name land = Some slot →
           (Server.ts slot <= now)%Q) →
  refreshed portal_list now land w
    (Server._get_entries_cached portal_list now land w).
Proof.
  intros Httl Hpast.
  destruct (Server._entries_cache (Server.self w) !! name land)
    as [slot|] eqn:Hslot; [|exact (cached_miss _ _ _ _ Hslot)].
  assert (Hage : (0 <= now - Server.ts slot)%Q).
  { unfold Qminus. rewrite <- Qle_minus_iff. exact (Hpast slot eq_refl). }
  apply (cached_stale _ _ _ _ slot Hslot). apply fresh_stale.
  - apply Z.le_trans with (m := 0%Z); [exact Httl|].
    apply Z.pow_nonneg. discriminate.
  - exact Hage.
  - apply Qle_trans with (y := 0%Q); [|exact Hage].
    change 0%Q with (inject_Z 0). rewrite <- Zle_Qle. exact Httl.
Qed.

Lemma cache_off_without_time_to_live_witness :
  let w := {| Server.self :=
                {| Server.state_map := Server.build_state_map bundeslaender;
                   Server._entries_cache :=
                     {[ u "Thueringen" :=
                          {| Server.ts := 1000; Server.entries := [] |} ]};
                   Server._cache_ttl_seconds := 0 |};
              Server.upstream_calls := [] |} in
  refreshed (fun _ => Return [OtherRecord]) 1000 thueringen w
    (Server._get_entries_cached (fun _ => Return [OtherRecord]) 1000
       thueringen w).
Proof.
  cbv zeta. apply cache_off_without_time_to_live.
  - vm_compute. discriminate.
  - intros slot H. vm_compute in H. injection H as <-.
    vm_compute. discriminate.
Defined.

(** ** A state that [server.py] does not know *)

(** X26.  [server.py] looks the state up letter by letter: a request
    whose state is not the name of a listed state, one of the two other
    spellings of a name or a short code in capitals is answered with
    status 200 and the empty list, and the provider is not called. *)
Theorem server_state_is_looked_up_literally
    (portal_list : Land → outcome (list raw_item)) (clock : Q)
    (now : datetime) (query : list (str * str)) (laender : list Land)
    (w : Server.world) :
  Server.state_map (Server.self w) = Server.build_state_map laender →
  (∀ land, land ∈ laender →
     let state := List.hd [] (values_of Server.k_state query) in
     (state ∉ Server.name_variants land) ∧ state ≠ upper (short land)) →
  Server.do_GET portal_list clock now Server.api_search query w
  = (Return {| Server.status := 200; Server.body := Server.Results [] |}, w).
Proof.
  intros Hmap Hforeign. rewrite do_GET_search. unfold Server.respond.
  rewrite server_search_unknown; [reflexivity|].
  rewrite Hmap.
  destruct (Server.build_state_map laender
            !! List.hd [] (values_of Server.k_state query))
    as [land|] eqn:E; [|exact E].
  exfalso. apply server_registry_sound_from in E as [[Hin Hk]|E].
  - destruct (Hforeign land Hin) as [H1 H2]. destruct Hk; contradiction.
  - rewrite lookup_empty in E. discriminate.
Qed.

Lemma server_state_is_looked_up_literally_witness :
  Server.do_GET (fun _ => Return [Objekt reihenhaus_entry]) 0
    (Datetime (Date 2025 8 1) 12 0) Server.api_search
    [(Server.k_state, u "bayern")] server_world
  = (Return {| Server.status := 200; Server.body := Server.Results [] |},
     server_world).
Proof.
  apply (server_state_is_looked_up_literally _ _ _ _ bundeslaender);
    [reflexivity|].
  intros land Hin. unfold bundeslaender in Hin.
  repeat (apply elem_of_cons in Hin as [->|Hin];
          [vm_compute; split;
           [intros H; repeat (apply elem_of_cons in H as [H|H];
                              [discriminate H|]); inversion H
           | discriminate]|]).
  inversion Hin.
Defined.
